(** * 2048 (v2-frame-demo): the move engine of [index.tsx]

    A shallow embedding of the game logic of the [App] component:
    [rotate], the slide-and-merge loop of [move], [addRandomTile],
    [findNewTilePos], [transformToTileObjects], [getGrid], [checkGameOver],
    [createInitialBoard], [startGame], the start-up read of the best
    score, the swipe test of [handleTouchEnd], and the slide of the earlier
    version of [move] that the second part of the file holds.

    Conventions of the embedding.
    - Arrays are lists; [l !! i] is the JavaScript read [l[i]], with
      [None] for [undefined].
    - Tile values and scores are JavaScript numbers that stay integers;
      they are embedded as [Z].  The numbers that need not be integers or
      exact are the results of [Math.random()], of the product
      [Math.random() * emptyCells.length] and of [parseInt]: they are
      rationals rounded as IEEE 754 doubles are ([roundDouble]), and
      [parseInt] can also give [NaN] and an infinity, see [number].
    - An uncaught exception is a [Throw].  An event handler reads the state
      of the render it was made in; its calls of the React state setters
      and of [localStorage.setItem] are collected in a [Pending] record and
      applied afterwards ([commit]); they survive a later exception of the
      same handler, as they do in React.
    - [Math.random()] is a parameter of the functions that call it: a
      double of [[0, 1)] ([isDouble01]). *)

From Stdlib Require Import ZArith QArith Qround Qabs Qpower Lia Lqa List String Ascii.
From Stdlib Require Import DecimalString DecimalZ.
From stdpp Require Import base option list strings gmap.

Local Open Scope Z_scope.

(** ** Exceptions and results *)

Inductive exn : Type :=
| TypeError     (* a property of [undefined] is read *)
| RangeError.   (* [Array(n)] with a negative [n] *)

(** [Untyped] is not a JavaScript outcome: it marks the point where an
    [undefined] cell would flow into code that TypeScript types as
    [number]; the embedding stops there.  Grids of 4 rows of 4 numbers
    never reach it (lemmas [slide_spec] and [getGrid_transform]). *)
Inductive result (A : Type) : Type :=
| Ok (a : A)
| Throw (e : exn)
| Untyped.

Arguments Ok {A} a.
Arguments Throw {A} e.
Arguments Untyped {A}.

Global Instance result_ret : MRet result := fun A a => Ok a.
Global Instance result_bind : MBind result := fun A B f m =>
  match m with
  | Ok a => f a
  | Throw e => Throw e
  | Untyped => Untyped
  end.

Definition TILE_COUNT : nat := 4.

(** ** [rotate]

    [rotate] is typed [any[][]]: an element is a value of [A] or
    [undefined].  [g[TILE_COUNT - 1 - c][r]] throws a [TypeError] when the
    row [g[TILE_COUNT - 1 - c]] is missing and is [undefined] when the row
    exists and is too short. *)
Definition readAt {B} (g : list (list B)) (i j : nat) : result (option B) :=
  match g !! i with
  | None => Throw TypeError
  | Some row => Ok (row !! j)
  end.

Section Rotate.
Context {A : Type}.

Definition readCell (g : list (list (option A))) (i j : nat) : result (option A) :=
  match readAt g i j with
  | Ok x => Ok (mjoin x)
  | Throw e => Throw e
  | Untyped => Untyped
  end.

(** One pass of the outer loop: [newGrid[r][c] = g[TILE_COUNT - 1 - c][r]]
    for [r] and [c] from 0 to 3, in this order. *)
Definition rotateOnce (g : list (list (option A))) : result (list (list (option A))) :=
  mapM (fun r => mapM (fun c => readCell g (TILE_COUNT - 1 - c) r) (seq 0 TILE_COUNT))
       (seq 0 TILE_COUNT).

Fixpoint rotate (g : list (list (option A))) (times : nat)
    : result (list (list (option A))) :=
  match times with
  | O => Ok g
  | S t => newGrid ← rotateOnce g; rotate newGrid t
  end.
End Rotate.

(** A grid of numbers, and its view as an [any[][]]. *)
Abbreviation Grid := (list (list Z)).

Definition toAny {A} (g : list (list A)) : list (list (option A)) :=
  map (map Some) g.

(** The way back, from [any[][]] to [number[][]]; [None] when a cell is
    [undefined]. *)
Definition asNumbers {A} (g : list (list (option A))) : option (list (list A)) :=
  mapM (mapM id) g.

Definition typed {A} (g : list (list (option A))) : result (list (list A)) :=
  match asNumbers g with
  | Some g' => Ok g'
  | None => Untyped
  end.

(** Four rows of four cells. *)
Definition wf_grid {A} (g : list (list A)) : bool :=
  (length g =? TILE_COUNT)%nat && forallb (fun row => (length row =? TILE_COUNT)%nat) g.

Inductive Direction : Type := up | down | left | right.

(** [rotations[direction]] *)
Definition rotations (d : Direction) : nat :=
  match d with
  | up => 1
  | right => 2
  | down => 3
  | left => 0
  end.

(** ** Doubles

    A JavaScript number is an IEEE 754 double: an integer [m] with
    [|m| < 2^53] times a power of two [2^e] with [-1074 <= e <= 971].  The
    result of an operation is the double nearest to the exact result, the
    one with an even [m] when two are as near. *)

(** The integer part of the binary logarithm of a positive rational. *)
Definition binade (x : Q) : Z :=
  let j := Z.log2 (Qnum x) - Z.log2 (Zpos (Qden x)) in
  if Qle_bool (2 ^ j) x then j else j - 1.

(** The integer nearest to [y], the even one at a tie. *)
Definition roundHalfEven (y : Q) : Z :=
  let f := Qfloor y in
  match (y - inject_Z f ?= 1 # 2)%Q with
  | Lt => f
  | Gt => f + 1
  | Eq => if Z.even f then f else f + 1
  end.

(** The double nearest to a positive rational: 53 significant bits, or a
    multiple of [2^-1074] below [2^-1022].  The largest double is just below
    [2^1024]; a result of [2^1024] or more stands for an infinity. *)
Definition roundPositive (x : Q) : Q :=
  let e := Z.max (binade x - 52) (-1074) in
  (inject_Z (roundHalfEven (x / 2 ^ e)) * 2 ^ e)%Q.

Definition roundDouble (x : Q) : Q :=
  match (x ?= 0)%Q with
  | Eq => 0%Q
  | Gt => roundPositive x
  | Lt => (- roundPositive (- x))%Q
  end.

(** [a * b] on doubles. *)
Definition mulDouble (a b : Q) : Q := roundDouble (a * b).

(** The doubles of [[0, 1)], the values [Math.random()] can return: in
    lowest terms [m / 2^k] with [m < 2^53] and [k <= 1074]. *)
Definition isDouble01 (u : Q) : bool :=
  let r := Qred u in
  let k := Z.log2 (Zpos (Qden r)) in
  (Zpos (Qden r) =? 2 ^ k) && (k <=? 1074)
  && (0 <=? Qnum r) && (Qnum r <? 2 ^ 53) && (Qnum r <? Zpos (Qden r)).

(** ** Numbers and strings *)

(** The numbers of the component state: integers, and the [NaN] and the
    two infinities that [parseInt] can return; [Inf true] is [-Infinity]. *)
Inductive number : Type :=
| Int (z : Z)
| NaN
| Inf (negative : bool).

(** [a > b] on numbers: false as soon as one side is [NaN]. *)
Definition gt (a b : number) : bool :=
  match a, b with
  | Int x, Int y => y <? x
  | Int _, Inf negative => negative
  | Inf negative, Int _ => negb negative
  | Inf n1, Inf n2 => negb n1 && n2
  | _, _ => false
  end.

(** [Number.prototype.toString] on an integer (below 10^21, where
    JavaScript still prints all the digits). *)
Definition toString (z : Z) : string := NilZero.string_of_int (Z.to_int z).

(** [row.join(',')] on an array of numbers. *)
Definition join (row : list Z) : string := String.concat "," (map toString row).

(** ** The component state and the effects of a handler *)

(** The key [`${a},${b}`] of the set [mergedCells], kept as the pair of the
    two interpolated values ([None] prints as [undefined]). *)
Definition cellKey : Type := (option nat * option nat)%type.

(** [TileData]; [x] is the column and [y] the row of the tile. *)
Module TileData.
Record t : Type := mk {
  value : Z;
  x : nat;
  y : nat;
  id : nat;
  isNew : bool;
  isMerged : bool
}.
End TileData.

Record AppState : Type := mkApp {
  board : list TileData.t;
  score : Z;
  bestScore : number;
  isGameOver : bool;
  isWin : bool;
  stored : option string;     (* localStorage[BEST_SCORE_KEY] *)
  idCounter : nat             (* idCounter.current *)
}.

(** What a handler has asked for so far: the last argument given to each
    state setter and to [localStorage.setItem], and the last value written
    to [idCounter.current].  [mergeLog] is instrumentation, not program
    state: the values [newValue] of the merges performed, oldest first;
    nothing reads it. *)
Record Pending : Type := mkPending {
  pendingBoard : option (list TileData.t);
  pendingScore : option Z;
  pendingBestScore : option number;
  pendingIsGameOver : option bool;
  pendingIsWin : option bool;
  pendingItem : option string;
  mergeLog : list Z;
  pendingIdCounter : option nat
}.

Definition noPending : Pending := mkPending None None None None None None [] None.

Definition M (A : Type) : Type := Pending -> Pending * result A.

Global Instance M_ret : MRet M := fun A a p => (p, Ok a).
Global Instance M_bind : MBind M := fun A B f m p =>
  match m p with
  | (p', Ok a) => f a p'
  | (p', Throw e) => (p', Throw e)
  | (p', Untyped) => (p', Untyped)
  end.

Definition lift {A} (r : result A) : M A := fun p => (p, r).

Definition setBoard (b : list TileData.t) : M unit := fun p =>
  (mkPending (Some b) (pendingScore p) (pendingBestScore p) (pendingIsGameOver p)
             (pendingIsWin p) (pendingItem p) (mergeLog p) (pendingIdCounter p), Ok tt).
Definition setScore (z : Z) : M unit := fun p =>
  (mkPending (pendingBoard p) (Some z) (pendingBestScore p) (pendingIsGameOver p)
             (pendingIsWin p) (pendingItem p) (mergeLog p) (pendingIdCounter p), Ok tt).
Definition setBestScore (n : number) : M unit := fun p =>
  (mkPending (pendingBoard p) (pendingScore p) (Some n) (pendingIsGameOver p)
             (pendingIsWin p) (pendingItem p) (mergeLog p) (pendingIdCounter p), Ok tt).
Definition setIsGameOver (b : bool) : M unit := fun p =>
  (mkPending (pendingBoard p) (pendingScore p) (pendingBestScore p) (Some b)
             (pendingIsWin p) (pendingItem p) (mergeLog p) (pendingIdCounter p), Ok tt).
Definition setIsWin (b : bool) : M unit := fun p =>
  (mkPending (pendingBoard p) (pendingScore p) (pendingBestScore p) (pendingIsGameOver p)
             (Some b) (pendingItem p) (mergeLog p) (pendingIdCounter p), Ok tt).
Definition setItem (v : string) : M unit := fun p =>
  (mkPending (pendingBoard p) (pendingScore p) (pendingBestScore p) (pendingIsGameOver p)
             (pendingIsWin p) (Some v) (mergeLog p) (pendingIdCounter p), Ok tt).
Definition logMerge (v : Z) : M unit := fun p =>
  (mkPending (pendingBoard p) (pendingScore p) (pendingBestScore p) (pendingIsGameOver p)
             (pendingIsWin p) (pendingItem p) (mergeLog p ++ [v]) (pendingIdCounter p), Ok tt).
(** [idCounter.current = n] *)
Definition setIdCounter (n : nat) : M unit := fun p =>
  (mkPending (pendingBoard p) (pendingScore p) (pendingBestScore p) (pendingIsGameOver p)
             (pendingIsWin p) (pendingItem p) (mergeLog p) (Some n), Ok tt).

(** The state of the next render. *)
Definition commit (s : AppState) (p : Pending) : AppState :=
  mkApp (default (board s) (pendingBoard p))
        (default (score s) (pendingScore p))
        (default (bestScore s) (pendingBestScore p))
        (default (isGameOver s) (pendingIsGameOver p))
        (default (isWin s) (pendingIsWin p))
        (match pendingItem p with Some v => Some v | None => stored s end)
        (default (idCounter s) (pendingIdCounter p)).

(** Running a handler on a state: the next state, and how the handler ended. *)
Definition handle (s : AppState) (h : M unit) : AppState * result unit :=
  let '(p, r) := h noPending in (commit s p, r).

(** ** The slide-and-merge loop of [move] *)

(** The variables [scoreToAdd], [moved] and [mergedCells] of [move]. *)
Record Locals : Type := mkLocals {
  scoreToAdd : Z;
  moved : bool;
  mergedCells : gset cellKey
}.

(** [rotate([[r, k]], (4 - numRotations) % 4)[0]], then the key made of
    its first two elements. *)
Definition unrotatedKey (numRotations r k : nat) : result cellKey :=
  g ← rotate [[Some r; Some k]] ((4 - numRotations) mod 4);
  match g !! 0%nat with
  | None => Throw TypeError
  | Some unrotated => Ok (mjoin (unrotated !! 0%nat), mjoin (unrotated !! 1%nat))
  end.

(** The loop [for (let i = 0; i < row.length; i++)], entered at index [i]
    with [newRow] and the locals as they are.  [row !! i] is [None] exactly
    when [i < row.length] fails.  Every turn advances [i], so
    [S (length row)] for [fuel] lets the loop run to its end. *)
Fixpoint mergeLoop (fuel : nat) (numRotations r : nat) (row : list Z) (i : nat)
    (newRow : list Z) (loc : Locals) : M (list Z * Locals) :=
  match fuel with
  | O => mret (newRow, loc)
  | S fuel' =>
      match row !! i with
      | None => mret (newRow, loc)
      | Some a =>
          match row !! (i + 1)%nat with
          | Some b =>
              if a =? b then
                let newValue := a * 2 in
                let newRow := newRow ++ [newValue] in
                let scoreToAdd' := scoreToAdd loc + newValue in
                logMerge newValue;;
                (if newValue =? 2048 then setIsWin true else mret tt);;
                key ← lift (unrotatedKey numRotations r (length newRow - 1));
                let loc := mkLocals scoreToAdd' (moved loc) ({[ key ]} ∪ mergedCells loc) in
                mergeLoop fuel' numRotations r row (i + 1 + 1) newRow loc
              else mergeLoop fuel' numRotations r row (i + 1) (newRow ++ [a]) loc
          | None => mergeLoop fuel' numRotations r row (i + 1) (newRow ++ [a]) loc
          end
      end
  end.

(** [newRow.concat(Array(TILE_COUNT - newRow.length).fill(0))] *)
Definition padRow (newRow : list Z) : result (list Z) :=
  if (length newRow <=? TILE_COUNT)%nat
  then Ok (newRow ++ replicate (TILE_COUNT - length newRow) 0)
  else Throw RangeError.

(** The body of [for (let r = 0; r < TILE_COUNT; r++)]. *)
Definition slideRow (numRotations : nat) (st : Grid * Locals) (r : nat) : M (Grid * Locals) :=
  let '(currentGrid, loc) := st in
  match currentGrid !! r with
  | None => lift (Throw TypeError)
  | Some cells =>
      let row := filter (fun cell => cell ≠ 0) cells in
      '(newRow, loc) ← mergeLoop (S (length row)) numRotations r row 0 [] loc;
      paddedRow ← lift (padRow newRow);
      let loc :=
        if String.eqb (join cells) (join paddedRow) then loc
        else mkLocals (scoreToAdd loc) true (mergedCells loc) in
      mret (<[r := paddedRow]> currentGrid, loc)
  end.

Fixpoint rowsLoop (numRotations : nat) (rs : list nat) (st : Grid * Locals) : M (Grid * Locals) :=
  match rs with
  | [] => mret st
  | r :: rs' => st' ← slideRow numRotations st r; rowsLoop numRotations rs' st'
  end.

(** [move] up to [if (moved)]: the deterministic slide and merge. *)
Definition slide (direction : Direction) (grid : Grid) : M (Grid * Locals) :=
  let numRotations := rotations direction in
  currentGrid ← lift (rotate (toAny grid) numRotations ≫= typed);
  '(currentGrid, loc) ← rowsLoop numRotations (seq 0 TILE_COUNT)
                          (currentGrid, mkLocals 0 false ∅);
  currentGrid ← lift (rotate (toAny currentGrid) ((4 - numRotations) mod 4) ≫= typed);
  mret (currentGrid, loc).

(** ** [addRandomTile], [findNewTilePos], [checkGameOver] *)

(** The cell [(r, c)] of a grid, when there is one. *)
Definition cellAt (grid : Grid) (r c : nat) : option Z :=
  grid !! r ≫= fun row => row !! c.

(** The pairs [(r, c)] in the order the two nested loops visit them. *)
Definition cellOrder : list (nat * nat) :=
  r ← seq 0 TILE_COUNT; c ← seq 0 TILE_COUNT; [(r, c)].

(** The loops that fill [emptyCells]: the cells with [grid[r][c] === 0]. *)
Fixpoint emptyCellsLoop (cells : list (nat * nat)) (grid : Grid) : result (list (nat * nat)) :=
  match cells with
  | [] => Ok []
  | (r, c) :: rest =>
      v ← readAt grid r c;
      found ← emptyCellsLoop rest grid;
      Ok (if decide (v = Some 0) then (r, c) :: found else found)
  end.

(** [grid[r][c] = v], for a cell that exists. *)
Definition setCell (grid : Grid) (r c : nat) (v : Z) : Grid :=
  match grid !! r with
  | Some row => <[r := <[c := v]> row]> grid
  | None => grid
  end.

(** [u1] and [u2] are what the two calls of [Math.random()] return; the
    calls are made only if there is an empty cell.  The index is
    [Math.floor] of the product as a double.  [Math.random() < 0.9]
    compares [u2] with the double nearest to 9/10, which is above 9/10; no
    double lies between the two, so that the test is [u2 < 9/10]. *)
Definition addRandomTile (u1 u2 : Q) (grid : Grid) : result Grid :=
  emptyCells ← emptyCellsLoop cellOrder grid;
  if (0 <? length emptyCells)%nat then
    let k := Qfloor (mulDouble u1 (inject_Z (Z.of_nat (length emptyCells)))) in
    match (if k <? 0 then None else emptyCells !! Z.to_nat k) with
    | None => Throw TypeError
    | Some (r, c) => Ok (setCell grid r c (if Qle_bool (9 # 10) u2 then 4 else 2))
    end
  else Ok grid.

Fixpoint findNewTilePosLoop (cells : list (nat * nat)) (oldGrid newGrid : Grid)
    : result (option (nat * nat)) :=
  match cells with
  | [] => Ok None
  | (r, c) :: rest =>
      o ← readAt oldGrid r c;
      if decide (o = Some 0) then
        n ← readAt newGrid r c;
        if decide (n ≠ Some 0) then Ok (Some (r, c))
        else findNewTilePosLoop rest oldGrid newGrid
      else findNewTilePosLoop rest oldGrid newGrid
  end.

Definition findNewTilePos (oldGrid newGrid : Grid) : result (option (nat * nat)) :=
  findNewTilePosLoop cellOrder oldGrid newGrid.

(** The loops of [checkGameOver]; [true] when they run to their end, that
    is when [setIsGameOver(true)] is reached. *)
Fixpoint checkGameOverLoop (cells : list (nat * nat)) (grid : Grid) : result bool :=
  match cells with
  | [] => Ok true
  | (r, c) :: rest =>
      v ← readAt grid r c;
      if decide (v = Some 0) then Ok false else
      below ← (if decide (r < TILE_COUNT - 1)%nat
               then w ← readAt grid (r + 1) c; Ok (bool_decide (v = w))
               else Ok false);
      if below : bool then Ok false else
      beside ← (if decide (c < TILE_COUNT - 1)%nat
                then w ← readAt grid r (c + 1); Ok (bool_decide (v = w))
                else Ok false);
      if beside : bool then Ok false else checkGameOverLoop rest grid
  end.

Definition checkGameOver (grid : Grid) : M unit :=
  lost ← lift (checkGameOverLoop cellOrder grid);
  if lost : bool then setIsGameOver true else mret tt.

(** ** [transformToTileObjects] and [getGrid] *)

(** The two loops of [transformToTileObjects], from the cell [cells] starts
    with.  A cell that is [undefined] would give a tile without a number. *)
Fixpoint tilesLoop (cells : list (nat * nat)) (grid : Grid)
    (newTilePos : option (nat * nat)) (mergedCells : option (gset cellKey))
    (idCounter : nat) : result (list TileData.t * nat) :=
  match cells with
  | [] => Ok ([], idCounter)
  | (r, c) :: rest =>
      v ← readAt grid r c;
      match v with
      | None => Untyped
      | Some value =>
          if decide (value ≠ 0) then
            let isNew := bool_decide (newTilePos = Some (r, c)) in
            let isMerged :=
              match mergedCells with
              | Some cells => bool_decide ((Some r, Some c) ∈ cells)
              | None => false
              end in
            '(tiles, next) ← tilesLoop rest grid newTilePos mergedCells (S idCounter);
            Ok (TileData.mk value c r idCounter isNew isMerged :: tiles, next)
          else tilesLoop rest grid newTilePos mergedCells idCounter
      end
  end.

(** The tiles, and the value of [idCounter.current] after the call. *)
Definition transformToTileObjects (grid : Grid) (newTilePos : option (nat * nat))
    (mergedCells : option (gset cellKey)) (idCounter : nat)
    : result (list TileData.t * nat) :=
  tilesLoop cellOrder grid newTilePos mergedCells idCounter.

(** [grid[tile.y][tile.x] = tile.value].  A write just past the end of a
    row lengthens it; a write further away would leave holes. *)
Definition placeTile (grid : Grid) (tile : TileData.t) : result Grid :=
  match grid !! TileData.y tile with
  | None => Throw TypeError
  | Some row =>
      if (TileData.x tile <? length row)%nat
      then Ok (<[TileData.y tile := <[TileData.x tile := TileData.value tile]> row]> grid)
      else if (TileData.x tile =? length row)%nat
      then Ok (<[TileData.y tile := row ++ [TileData.value tile]]> grid)
      else Untyped
  end.

Fixpoint getGridLoop (board : list TileData.t) (grid : Grid) : result Grid :=
  match board with
  | [] => Ok grid
  | tile :: rest => grid' ← placeTile grid tile; getGridLoop rest grid'
  end.

Definition getGrid (board : list TileData.t) : result Grid :=
  getGridLoop board (replicate TILE_COUNT (replicate TILE_COUNT 0)).

(** ** [createInitialBoard] and [startGame] *)

(** [u1] to [u4] are the four results of [Math.random()];
    [transformToTileObjects(newGrid)] has neither [newTilePos] nor
    [mergedCells], and [startGame] has just set [idCounter.current] to 1. *)
Definition createInitialBoard (u1 u2 u3 u4 : Q) : result (list TileData.t * nat) :=
  let newGrid := replicate TILE_COUNT (replicate TILE_COUNT 0) in
  newGrid ← addRandomTile u1 u2 newGrid;
  newGrid ← addRandomTile u3 u4 newGrid;
  transformToTileObjects newGrid None None 1.

Definition startGame (u1 u2 u3 u4 : Q) : M unit :=
  setIdCounter 1;;
  '(tiles, nextId) ← lift (createInitialBoard u1 u2 u3 u4);
  setIdCounter nextId;;
  setBoard tiles;;
  setScore 0;;
  setIsGameOver false;;
  setIsWin false.

(** ** [move] *)

Definition move (s : AppState) (direction : Direction) (u1 u2 : Q) : M unit :=
  if isGameOver s && negb (isWin s) then mret tt else
  currentGrid ← lift (getGrid (board s));
  '(currentGrid, loc) ← slide direction currentGrid;
  if moved loc then
    let gridBeforeAddingTile := currentGrid in
    gridWithNewTile ← lift (addRandomTile u1 u2 currentGrid);
    newTilePos ← lift (findNewTilePos gridBeforeAddingTile gridWithNewTile);
    '(tiles, nextId) ← lift (transformToTileObjects gridWithNewTile newTilePos
                               (Some (mergedCells loc)) (idCounter s));
    setIdCounter nextId;;
    setBoard tiles;;
    let newScore := score s + scoreToAdd loc in
    setScore newScore;;
    (if gt (Int newScore) (bestScore s)
     then setBestScore (Int newScore);; setItem (toString newScore)
     else mret tt);;
    checkGameOver gridWithNewTile
  else mret tt.

(** ** The best score read at start-up *)

(** Strings are sequences of code units below 256.  [isWhiteSpace] is
    [StrWhiteSpaceChar] on them: tab, line feed, vertical tab, form feed,
    carriage return, space and no-break space. *)
Definition isWhiteSpace (c : ascii) : bool :=
  match nat_of_ascii c with
  | 9 | 10 | 11 | 12 | 13 | 32 | 160 => true
  | _ => false
  end%nat.

Fixpoint trimStart (s : string) : string :=
  match s with
  | String c s' => if isWhiteSpace c then trimStart s' else s
  | EmptyString => EmptyString
  end.

(** The value of [c] as a digit of radix [R] (10 or 16). *)
Definition digitValue (R : Z) (c : ascii) : option Z :=
  let n := Z.of_nat (nat_of_ascii c) in
  let v := if (48 <=? n) && (n <=? 57) then Some (n - 48)
           else if (97 <=? n) && (n <=? 102) then Some (n - 87)
           else if (65 <=? n) && (n <=? 70) then Some (n - 55)
           else None in
  v ≫= fun d => if d <? R then Some d else None.

(** The value of the longest prefix of [s] made of digits; [acc] is the
    value read so far, [None] before the first digit. *)
Fixpoint digitsPrefix (R : Z) (s : string) (acc : option Z) : option Z :=
  match s with
  | String c s' =>
      match digitValue R c with
      | Some d => digitsPrefix R s' (Some (default 0 acc * R + d))
      | None => acc
      end
  | EmptyString => acc
  end.

(** [parseInt(s)] with no radix: leading white space, a sign, a [0x] or
    [0X] prefix, then digits; [NaN] when there is no digit.  The result is
    the double nearest to the integer the digits denote, with the sign; an
    integer that rounds to [2^1024] or more gives an infinity.  (A zero
    with a minus sign is the number -0, which no operation of the program
    tells from 0.) *)
Definition parseInt (s : string) : number :=
  let inputString := trimStart s in
  let '(sign, unsigned) :=
    match inputString with
    | String "-" s' => (-1, s')
    | String "+" s' => (1, s')
    | _ => (1, inputString)
    end in
  let '(R, digits) :=
    match unsigned with
    | String "0" (String "x" s') => (16, s')
    | String "0" (String "X" s') => (16, s')
    | _ => (10, unsigned)
    end in
  match digitsPrefix R digits None with
  | Some m =>
      let v := roundDouble (inject_Z m) in
      if Qle_bool (2 ^ 1024) v then Inf (sign <? 0) else Int (sign * Qfloor v)
  | None => NaN
  end.

(** [parseInt(localStorage.getItem(BEST_SCORE_KEY) || '0')], with [item]
    what [getItem] returns: [None] for [null]. *)
Definition initialBestScore (item : option string) : number :=
  parseInt (match item with
            | None => "0"
            | Some EmptyString => "0"
            | Some v => v
            end).

(** ** The earlier version of [move]

    The second part of [index.tsx] is an earlier version of the component.
    Its [move] has the same loop over the rows without the tagging of the
    merged cells; its [rotate] makes one turn and is called in a loop,
    which is [rotate g times] above. *)

(** The loop [for (let i = 0; i < row.length; i++)] of the earlier version,
    entered at index [i]. *)
Fixpoint mergeLoopV1 (fuel : nat) (row : list Z) (i : nat) (newRow : list Z)
    (scoreToAdd : Z) : M (list Z * Z) :=
  match fuel with
  | O => mret (newRow, scoreToAdd)
  | S fuel' =>
      match row !! i with
      | None => mret (newRow, scoreToAdd)
      | Some a =>
          match row !! (i + 1)%nat with
          | Some b =>
              if a =? b then
                let newValue := a * 2 in
                logMerge newValue;;
                (if newValue =? 2048 then setIsWin true else mret tt);;
                mergeLoopV1 fuel' row (i + 1 + 1) (newRow ++ [newValue])
                            (scoreToAdd + newValue)
              else mergeLoopV1 fuel' row (i + 1) (newRow ++ [a]) scoreToAdd
          | None => mergeLoopV1 fuel' row (i + 1) (newRow ++ [a]) scoreToAdd
          end
      end
  end.

(** The body of the loop over the rows; the state is the grid with
    [scoreToAdd] and [moved]. *)
Definition slideRowV1 (st : Grid * (Z * bool)) (r : nat) : M (Grid * (Z * bool)) :=
  let '(currentGrid, (scoreToAdd, moved)) := st in
  match currentGrid !! r with
  | None => lift (Throw TypeError)
  | Some cells =>
      let row := filter (fun cell => cell ≠ 0) cells in
      '(newRow, scoreToAdd) ← mergeLoopV1 (S (length row)) row 0 [] scoreToAdd;
      paddedRow ← lift (padRow newRow);
      let moved := if String.eqb (join cells) (join paddedRow) then moved else true in
      mret (<[r := paddedRow]> currentGrid, (scoreToAdd, moved))
  end.

Fixpoint rowsLoopV1 (rs : list nat) (st : Grid * (Z * bool)) : M (Grid * (Z * bool)) :=
  match rs with
  | [] => mret st
  | r :: rs' => st' ← slideRowV1 st r; rowsLoopV1 rs' st'
  end.

(** The earlier [move] up to [if (moved)]. *)
Definition slideV1 (direction : Direction) (grid : Grid) : M (Grid * (Z * bool)) :=
  currentGrid ← lift (rotate (toAny grid) (rotations direction) ≫= typed);
  '(currentGrid, (scoreToAdd, moved)) ← rowsLoopV1 (seq 0 TILE_COUNT)
                                          (currentGrid, (0, false));
  currentGrid ← lift (rotate (toAny currentGrid) ((4 - rotations direction) mod 4)
                        ≫= typed);
  mret (currentGrid, (scoreToAdd, moved)).

(** ** [handleTouchEnd]

    [dx] and [dy] are the two differences the handler computes from the
    touch that ends and [touchStart], taken as rationals (they are numbers,
    not NaN).  [Math.abs], [Math.max] and the comparisons are exact on
    them.  [None]: the swipe is below the threshold and [move] is not
    called. *)
Definition swipeDirection (dx dy : Q) : option Direction :=
  let absDx := Qabs dx in
  let absDy := Qabs dy in
  let max := if Qle_bool absDx absDy then absDy else absDx in
  if negb (Qle_bool max 30) then
    Some (if negb (Qle_bool absDx absDy)
          then (if negb (Qle_bool dx 0) then right else left)
          else (if negb (Qle_bool dy 0) then down else up))
  else None.

(** * Specification-level definitions

    What follows is not code of the program: the words of the
    specification as functions and predicates, and the closed forms of the
    loops that the lemmas below prove. *)

(** The quarter turn a 4x4 grid undergoes, written out. *)
Definition quarterTurn {A} (g : list (list A)) : list (list A) :=
  match g with
  | [[a0; a1; a2; a3]; [b0; b1; b2; b3]; [c0; c1; c2; c3]; [d0; d1; d2; d3]] =>
      [[d0; c0; b0; a0]; [d1; c1; b1; a1]; [d2; c2; b2; a2]; [d3; c3; b3; a3]]
  | _ => g
  end.

(** No character of [s] is a comma. *)
Definition noComma (s : string) : Prop :=
  forall c, In c (list_ascii_of_string s) -> c <> ","%char.

(** ** The scan of a row, as the specification words it

    "Scan left-to-right merging the first of each adjacent equal pair: a
    merged tile's value doubles, contributes its new value to the score
    delta, and may never merge again within the same move."  Each tile of
    the result carries a flag: was it made by a merge. *)
Fixpoint mergePairs (row : list Z) : list (Z * bool) :=
  match row with
  | [] => []
  | a :: rest =>
      match rest with
      | b :: rest' =>
          if a =? b then (a * 2, true) :: mergePairs rest'
          else (a, false) :: mergePairs rest
      | [] => [(a, false)]
      end
  end.

(** The row after the scan. *)
Definition tileValues (ps : list (Z * bool)) : list Z := map fst ps.

(** The values made by merges, in order. *)
Definition mergeValues (ps : list (Z * bool)) : list Z := map fst (List.filter snd ps).

(** The indexes of the merged tiles, the first tile having index [off]. *)
Fixpoint mergedIndexes (off : nat) (ps : list (Z * bool)) : list nat :=
  match ps with
  | [] => []
  | (_, m) :: ps' => (if m then [off] else []) ++ mergedIndexes (S off) ps'
  end.

(** The sum of a list of integers. *)
Definition sumZ (l : list Z) : Z := foldr Z.add 0 l.

(** "Remove zeros (compact left)". *)
Definition compact (cells : list Z) : list Z := filter (fun cell => cell ≠ 0) cells.

(** "Pad the result on the right with zeros back to width 4". *)
Definition slideSpec (cells : list Z) : list Z :=
  let merged := tileValues (mergePairs (compact cells)) in
  merged ++ replicate (TILE_COUNT - length merged) 0.

(** The pending effects after the merges [vs]. *)
Definition logged (p : Pending) (vs : list Z) : Pending :=
  mkPending (pendingBoard p) (pendingScore p) (pendingBestScore p) (pendingIsGameOver p)
            (if bool_decide (2048 ∈ vs) then Some true else pendingIsWin p)
            (pendingItem p) (mergeLog p ++ vs) (pendingIdCounter p).

(** Does the call of [rotate] that un-rotates a merged cell make a turn. *)
Definition tagThrows (numRotations : nat) : bool :=
  negb ((4 - numRotations) mod 4 =? 0)%nat.

(** The keys [`${r},${k}`] of the merged tiles of row [r]. *)
Definition keysOf (r off : nat) (ps : list (Z * bool)) : gset cellKey :=
  list_to_set ((fun k => (Some r, Some k)) <$> mergedIndexes off ps).

(** The outcome of the loop on the part [rest] of the row still to scan. *)
Definition scanOutcome (numRotations r : nat) (rest newRow : list Z) (loc : Locals)
    (p : Pending) : Pending * result (list Z * Locals) :=
  let ps := mergePairs rest in
  match (if tagThrows numRotations then head (mergeValues ps) else None) with
  | Some v => (logged p [v], Throw TypeError)
  | None =>
      (logged p (mergeValues ps),
       Ok (newRow ++ tileValues ps,
           mkLocals (scoreToAdd loc + sumZ (mergeValues ps)) (moved loc)
                    (keysOf r (length newRow) ps ∪ mergedCells loc)))
  end.

(** The locals after the row [cells] of index [r]. *)
Definition rowLocals (loc : Locals) (r : nat) (cells : list Z) : Locals :=
  let ps := mergePairs (compact cells) in
  mkLocals (scoreToAdd loc + sumZ (mergeValues ps))
           (moved loc || negb (bool_decide (cells = slideSpec cells)))
           (keysOf r 0 ps ∪ mergedCells loc).

(** The outcome of the body of the loop over the rows, on the row [cells]. *)
Definition rowOutcome (numRotations r : nat) (cells : list Z) (currentGrid : Grid)
    (loc : Locals) (p : Pending) : Pending * result (Grid * Locals) :=
  let ps := mergePairs (compact cells) in
  match (if tagThrows numRotations then head (mergeValues ps) else None) with
  | Some v => (logged p [v], Throw TypeError)
  | None => (logged p (mergeValues ps),
             Ok (<[r := slideSpec cells]> currentGrid, rowLocals loc r cells))
  end.

(** The values made by the merges of all rows, first row first. *)
Definition allMerges (g : Grid) : list Z :=
  concat (map (fun cells => mergeValues (mergePairs (compact cells))) g).

(** The locals after all rows of [g]. *)
Definition slideLocals (g : Grid) : Locals :=
  foldl (fun loc rc => rowLocals loc rc.1 rc.2) (mkLocals 0 false ∅)
        (zip (seq 0 (length g)) g).

(** The outcome of the loop over the rows of the grid [g]. *)
Definition gridOutcome (numRotations : nat) (g : Grid) (p : Pending)
    : Pending * result (Grid * Locals) :=
  match (if tagThrows numRotations then head (allMerges g) else None) with
  | Some v => (logged p [v], Throw TypeError)
  | None => (logged p (allMerges g), Ok (map slideSpec g, slideLocals g))
  end.

(** The grid after the slide: turn, slide every row, turn back. *)
Definition slideGrid (direction : Direction) (g : Grid) : Grid :=
  let numRotations := rotations direction in
  Nat.iter ((4 - numRotations) mod 4) quarterTurn
    (map slideSpec (Nat.iter numRotations quarterTurn g)).

(** The outcome of [slide]: the exception of the first merge when the
    tagging throws, the slid grid otherwise. *)
Definition slideOutcome (direction : Direction) (g : Grid) (p : Pending)
    : Pending * result (Grid * Locals) :=
  let numRotations := rotations direction in
  let turned := Nat.iter numRotations quarterTurn g in
  match (if tagThrows numRotations then head (allMerges turned) else None) with
  | Some v => (logged p [v], Throw TypeError)
  | None => (logged p (allMerges turned), Ok (slideGrid direction g, slideLocals turned))
  end.

(** A position of the 4x4 grid. *)
Definition inRange (rc : nat * nat) : Prop :=
  (rc.1 < TILE_COUNT)%nat /\ (rc.2 < TILE_COUNT)%nat.

(** The empty cells of a grid, in the order of the loops. *)
Definition emptyCells (g : Grid) : list (nat * nat) :=
  filter (fun rc => cellAt g rc.1 rc.2 = Some 0) cellOrder.

(** [Math.random() < 0.9 ? 2 : 4] *)
Definition spawnValue (u2 : Q) : Z := if Qle_bool (9 # 10) u2 then 4 else 2.

(** The three tests the loop makes at a cell all fail. *)
Definition cellFine (g : Grid) (rc : nat * nat) : Prop :=
  cellAt g rc.1 rc.2 ≠ Some 0
  /\ cellAt g rc.1 rc.2 ≠ cellAt g (rc.1 + 1) rc.2
  /\ cellAt g rc.1 rc.2 ≠ cellAt g rc.1 (rc.2 + 1).

(** "Zero empty cells AND no two horizontally- or vertically-adjacent
    cells are equal". *)
Definition lostGrid (g : Grid) : Prop :=
  (forall r c, cellAt g r c ≠ Some 0)
  /\ (forall r c v, cellAt g r c = Some v ->
        cellAt g (r + 1) c ≠ Some v /\ cellAt g r (c + 1) ≠ Some v).

(** The body of [if (moved)]. *)
Definition afterSlide (s : AppState) (u1 u2 : Q) (currentGrid : Grid) (loc : Locals)
    : M unit :=
  gridWithNewTile ← lift (addRandomTile u1 u2 currentGrid);
  newTilePos ← lift (findNewTilePos currentGrid gridWithNewTile);
  '(tiles, nextId) ← lift (transformToTileObjects gridWithNewTile newTilePos
                             (Some (mergedCells loc)) (idCounter s));
  setIdCounter nextId;;
  setBoard tiles;;
  let newScore := score s + scoreToAdd loc in
  setScore newScore;;
  (if gt (Int newScore) (bestScore s)
   then setBestScore (Int newScore);; setItem (toString newScore)
   else mret tt);;
  checkGameOver gridWithNewTile.

(** The effects of the body of [if (moved)] when a tile is added. *)
Definition spawned (s : AppState) (tiles : list TileData.t) (nextId : nat) (lost : bool)
    (loc : Locals) (p1 : Pending) : Pending :=
  let newScore := score s + scoreToAdd loc in
  let best := gt (Int newScore) (bestScore s) in
  mkPending (Some tiles)
            (Some newScore)
            (if best then Some (Int newScore) else pendingBestScore p1)
            (if lost then Some true else pendingIsGameOver p1)
            (pendingIsWin p1)
            (if best then Some (toString newScore) else pendingItem p1)
            (mergeLog p1)
            (Some nextId).

(** The tiles of a grid, numbered from 1, as [createInitialBoard] makes
    them from its grid. *)
Definition boardOf (g : Grid) : list TileData.t :=
  match transformToTileObjects g None None 1 with
  | Ok (tiles, _) => tiles
  | _ => []
  end.

(** [isGameOver] is set without [isWin] only on a lost grid, [g] being the
    grid of the board; this is part of [inPlay] below. *)
Definition gameOverIsLost (s : AppState) (g : Grid) : Prop :=
  isGameOver s = true -> isWin s = false -> lostGrid g.

(** A tile value of the game. *)
Definition powerOfTwo (v : Z) : Prop := exists k : Z, 0 <= k /\ v = 2 ^ k.

(** The states of a game in play, [g] being the grid of the board: the
    tiles are powers of two, the win flag is set when a tile has reached
    2048, and [isGameOver] is set without [isWin] only on a lost grid.
    [startGame] makes such a state and [move] keeps it (lemmas
    [startGame_inPlay] and [move_inPlay]). *)
Definition inPlay (s : AppState) (g : Grid) : Prop :=
  getGrid (board s) = Ok g
  /\ wf_grid g = true
  /\ (forall v, v ∈ concat g -> v = 0 \/ powerOfTwo v)
  /\ (forall v, v ∈ concat g -> 2048 <= v -> isWin s = true)
  /\ gameOverIsLost s g.

(** ** States and grids of the examples *)

(** A full board on which no direction moves or merges a tile. *)
Definition fullState : AppState :=
  mkApp (boardOf [[2; 4; 2; 4]; [4; 2; 4; 2]; [2; 4; 2; 4]; [4; 2; 4; 8]])
        12 (Int 40) false false (Some "40") 17.

(** A board whose first row merges twice on a move to the left. *)
Definition changing_state : AppState :=
  mkApp (boardOf [[2; 2; 4; 4]; [0; 0; 0; 0]; [0; 0; 0; 0]; [0; 0; 0; 0]])
        0 (Int 0) false false None 5.

(** 1024 over 1024 in the first column, before the win. *)
Definition column_1024 : AppState :=
  mkApp (boardOf [[1024; 0; 0; 0]; [1024; 0; 0; 0]; [0; 0; 0; 0]; [0; 0; 0; 0]])
        18432 (Int 18432) false false (Some "18432") 3.

(** A game that was won and then lost: a full grid without equal
    neighbours, with both flags set. *)
Definition won_and_lost : AppState :=
  mkApp (boardOf [[2048; 4; 2; 4]; [4; 2; 4; 2]; [2; 4; 2; 4]; [4; 2; 4; 2]])
        20000 (Int 20000) true true (Some "20000") 17.

(** The grid a slide returns. *)
Definition gridOf (o : Pending * result (Grid * Locals)) : result Grid :=
  match o.2 with
  | Ok (g, _) => Ok g
  | Throw e => Throw e
  | Untyped => Untyped
  end.

(** Two equal tiles side by side in a row. *)
Definition equalPair (row : list Z) : Prop :=
  exists i v, v ≠ 0 /\ row !! i = Some v /\ row !! (i + 1)%nat = Some v.

(** Two equal tiles side by side in a row of the grid turned into the frame
    of the move. *)
Definition rowPair (d : Direction) (g : Grid) : Prop :=
  exists row, row ∈ Nat.iter (rotations d) quarterTurn g /\ equalPair row.

(** The cell next to [(r, c)] along the axis of the move. *)
Definition axisNeighbour (d : Direction) (r c : nat) : nat * nat :=
  match d with
  | left | right => (r, c + 1)%nat
  | up | down => (r + 1, c)%nat
  end.

(** Two equal tiles next to each other along the axis of the move. *)
Definition canMerge (d : Direction) (g : Grid) : Prop :=
  exists r c v, v ≠ 0 /\ cellAt g r c = Some v
                /\ cellAt g (axisNeighbour d r c).1 (axisNeighbour d r c).2 = Some v.

(** Two cells next to each other, in a row or in a column, hold the same
    value. *)
Definition hasEqualNeighbours (g : Grid) : Prop :=
  exists r c x, cellAt g r c = Some x
                /\ (cellAt g (r + 1) c = Some x \/ cellAt g r (c + 1) = Some x).

(** A full grid without equal neighbours. *)
Definition lost_example : Grid :=
  [[2; 4; 2; 4]; [4; 2; 4; 2]; [2; 4; 2; 4]; [4; 2; 4; 2]].

(** Two equal tiles on top of each other in the first column. *)
Definition column_pair : AppState :=
  mkApp (boardOf [[2; 0; 0; 0]; [2; 0; 0; 0]; [0; 0; 0; 0]; [0; 0; 0; 0]])
        0 (Int 0) false false None 3.

(** ** Definitions for the further properties *)

(** The cells that hold a tile, in the order of the loops. *)
Definition tileCells (g : Grid) : list (nat * nat) :=
  filter (fun rc => cellAt g rc.1 rc.2 ≠ Some 0) cellOrder.

(** The tile made for the cell [rc], with the identifier [i]. *)
Definition tileAt (g : Grid) (newTilePos : option (nat * nat))
    (mergedCells : option (gset cellKey)) (i : nat) (rc : nat * nat) : TileData.t :=
  TileData.mk (default 0 (cellAt g rc.1 rc.2)) rc.2 rc.1 i
              (bool_decide (newTilePos = Some rc))
              (match mergedCells with
               | Some cells => bool_decide ((Some rc.1, Some rc.2) ∈ cells)
               | None => false
               end).

(** The tiles of a grid: one for each cell that holds a tile, numbered from
    [idCounter] in the order of the loops. *)
Definition tilesOf (g : Grid) (newTilePos : option (nat * nat))
    (mergedCells : option (gset cellKey)) (idCounter : nat) : list TileData.t :=
  imap (fun k rc => tileAt g newTilePos mergedCells (idCounter + k) rc) (tileCells g).

(** The value of the last tile of [board] that sits on the cell [(r, c)], 0
    when there is none. *)
Definition valueAt (board : list TileData.t) (r c : nat) : Z :=
  foldl (fun v tile =>
           if decide (TileData.y tile = r /\ TileData.x tile = c)
           then TileData.value tile else v)
        0 board.

(** The tile sits on a cell of the grid. *)
Definition onGrid (tile : TileData.t) : Prop :=
  inRange (TileData.y tile, TileData.x tile).

(** The cells that are empty in [oldGrid] and hold a tile in [newGrid], in
    the order of the loops. *)
Definition appeared (oldGrid newGrid : Grid) : list (nat * nat) :=
  filter (fun rc => cellAt oldGrid rc.1 rc.2 = Some 0 /\ cellAt newGrid rc.1 rc.2 ≠ Some 0)
         cellOrder.

(** The state after a move that slid the grid to [g1] with the locals [loc]
    and the merges [ms], and then put a tile of value [v] on the cell
    [(r, c)]; [lost] is what the game-over check found. *)
Definition movedState (s : AppState) (g1 : Grid) (loc : Locals) (ms : list Z)
    (r c : nat) (v : Z) (lost : bool) : AppState :=
  let g2 := setCell g1 r c v in
  let tiles := tilesOf g2 (Some (r, c)) (Some (mergedCells loc)) (idCounter s) in
  commit s (spawned s tiles (idCounter s + length tiles) lost loc (logged noPending ms)).

(** The four ways a move ends, for the board grid [g]. *)
Inductive moveOutcome (s : AppState) (d : Direction) (u1 u2 : Q) (g : Grid)
    : AppState * result unit -> Prop :=
| move_ignored :
    isGameOver s && negb (isWin s) = true ->
    moveOutcome s d u1 u2 g (s, Ok tt)
| move_thrown v ms :
    isGameOver s && negb (isWin s) = false ->
    d ≠ left ->
    allMerges (Nat.iter (rotations d) quarterTurn g) = v :: ms ->
    moveOutcome s d u1 u2 g (commit s (logged noPending [v]), Throw TypeError)
| move_unchanged :
    isGameOver s && negb (isWin s) = false ->
    allMerges (Nat.iter (rotations d) quarterTurn g) = [] ->
    slideGrid d g = g ->
    moveOutcome s d u1 u2 g (s, Ok tt)
| move_changed r c lost :
    isGameOver s && negb (isWin s) = false ->
    (d = left \/ allMerges (Nat.iter (rotations d) quarterTurn g) = []) ->
    slideGrid d g ≠ g ->
    emptyCells (slideGrid d g)
      !! Z.to_nat (Qfloor (mulDouble u1 (inject_Z (Z.of_nat (length (emptyCells (slideGrid d g)))))))
    = Some (r, c) ->
    (lost = true <-> lostGrid (setCell (slideGrid d g) r c (spawnValue u2))) ->
    moveOutcome s d u1 u2 g
      (movedState s (slideGrid d g) (slideLocals (Nat.iter (rotations d) quarterTurn g))
                  (allMerges (Nat.iter (rotations d) quarterTurn g))
                  r c (spawnValue u2) lost,
       Ok tt).

(** The row [r] and the column [c] of a grid, the column from the first row
    to the last. *)
Definition rowOf (g : Grid) (r : nat) : list Z := default [] (g !! r).
Definition columnOf (g : Grid) (c : nat) : list Z := map (fun row => default 0 (row !! c)) g.

(** The line [k] of a move, from the edge the slide packs the tiles to: a
    row from its first cell for left and from its last cell for right, a
    column from the last row for up and from the first row for down. *)
Definition lineOf (d : Direction) (g : Grid) (k : nat) : list Z :=
  match d with
  | left => rowOf g k
  | right => reverse (rowOf g k)
  | up => reverse (columnOf g k)
  | down => columnOf g k
  end.

(** The lines of a move in the order of the rows of the turned grid. *)
Definition lineOrder (d : Direction) : list nat :=
  match d with
  | left | up => [0; 1; 2; 3]
  | right | down => [3; 2; 1; 0]
  end%nat.

(** The line of the cell [(r, c)] and the place of the cell in it. *)
Definition lineIndex (d : Direction) (r c : nat) : nat :=
  match d with
  | left | right => r
  | up | down => c
  end.

Definition linePos (d : Direction) (r c : nat) : nat :=
  match d with
  | left => c
  | right => TILE_COUNT - 1 - c
  | up => TILE_COUNT - 1 - r
  | down => r
  end.

(** The cell [(r', c')] is in the line of [(r, c)], further from the edge
    the move [d] packs the tiles to: to the right for left, to the left
    for right, in a row above for up and in a row below for down. *)
Definition behind (d : Direction) (r c r' c' : nat) : Prop :=
  match d with
  | left => r' = r /\ (c < c')%nat
  | right => r' = r /\ (c' < c)%nat
  | up => c' = c /\ (r' < r)%nat
  | down => c' = c /\ (r < r')%nat
  end.

(** A line of the move holds two equal tiles with only empty cells between
    them: the slide merges them. *)
Definition lineMerges (d : Direction) (g : Grid) : Prop :=
  exists k i v, (k < TILE_COUNT)%nat
                /\ compact (lineOf d g k) !! i = Some v
                /\ compact (lineOf d g k) !! S i = Some v.

(** The outcome of a loop of the later version without its set of merged
    cells. *)
Definition untagged {A} (o : Pending * result (A * Locals)) : Pending * result (A * (Z * bool)) :=
  match o with
  | (p, Ok (a, loc)) => (p, Ok (a, (scoreToAdd loc, moved loc)))
  | (p, Throw e) => (p, Throw e)
  | (p, Untyped) => (p, Untyped)
  end.

(** The direction opposite to a direction. *)
Definition opposite (d : Direction) : Direction :=
  match d with
  | left => right
  | right => left
  | up => down
  | down => up
  end.

(** Two tiles of 1024 side by side, one merge from the win. *)
Definition two_1024 : AppState :=
  mkApp (boardOf [[1024; 1024; 0; 0]; [0; 0; 0; 0]; [0; 0; 0; 0]; [0; 0; 0; 0]])
        0 (Int 0) false false None 3.

(** A game whose best score was read from a stored value that is not a
    number. *)
Definition nan_state : AppState :=
  mkApp (boardOf [[2; 2; 0; 0]; [0; 0; 0; 0]; [0; 0; 0; 0]; [0; 0; 0; 0]])
        0 NaN false false (Some "abc") 3.

(** The sum of the tiles of a grid. *)
Definition gridSum (g : Grid) : Z := sumZ (concat g).

(** * Lemmas and theorems *)

(** ** Rotation of 4x4 grids *)

Lemma wf_grid_shape {A} (g : list (list A)) :
  wf_grid g = true ->
  exists a0 a1 a2 a3 b0 b1 b2 b3 c0 c1 c2 c3 d0 d1 d2 d3,
    g = [[a0; a1; a2; a3]; [b0; b1; b2; b3]; [c0; c1; c2; c3]; [d0; d1; d2; d3]].
Proof.
  unfold wf_grid, TILE_COUNT. intros H.
  apply andb_prop in H as [Hlen Hrows].
  apply Nat.eqb_eq in Hlen.
  destruct g as [|r0 [|r1 [|r2 [|r3 [|? ?]]]]]; simpl in Hlen; try discriminate.
  simpl in Hrows.
  repeat (apply andb_prop in Hrows as [?%Nat.eqb_eq Hrows]).
  repeat match goal with
  | r : list A |- _ =>
      destruct r as [|? [|? [|? [|? [|? ?]]]]]; simpl in *; try discriminate
  end.
  repeat eexists.
Qed.

Lemma rotateOnce_wf {A} (g : list (list (option A))) :
  wf_grid g = true -> rotateOnce g = Ok (quarterTurn g).
Proof.
  intros (a0&a1&a2&a3&b0&b1&b2&b3&c0&c1&c2&c3&d0&d1&d2&d3&->)%wf_grid_shape.
  reflexivity.
Qed.

Lemma quarterTurn_wf {A} (g : list (list A)) :
  wf_grid g = true -> wf_grid (quarterTurn g) = true.
Proof.
  intros (a0&a1&a2&a3&b0&b1&b2&b3&c0&c1&c2&c3&d0&d1&d2&d3&->)%wf_grid_shape.
  reflexivity.
Qed.

Lemma quarterTurn_four {A} (g : list (list A)) :
  wf_grid g = true ->
  quarterTurn (quarterTurn (quarterTurn (quarterTurn g))) = g.
Proof.
  intros (a0&a1&a2&a3&b0&b1&b2&b3&c0&c1&c2&c3&d0&d1&d2&d3&->)%wf_grid_shape.
  reflexivity.
Qed.

Lemma rotate_wf {A} (times : nat) (g : list (list (option A))) :
  wf_grid g = true -> rotate g times = Ok (Nat.iter times quarterTurn g).
Proof.
  revert g. induction times as [|t IH]; intros g Hwf; [reflexivity|].
  cbn [rotate]. rewrite (rotateOnce_wf g Hwf). cbn [mbind result_bind].
  rewrite IH by (apply quarterTurn_wf; exact Hwf).
  now rewrite Nat.iter_succ_r.
Qed.

Lemma rotate_back {A} (g : list (list (option A))) (count : nat) :
  wf_grid g = true -> (count < 4)%nat ->
  (rotate g count ≫= fun g' => rotate g' ((4 - count) mod 4)) = Ok g.
Proof.
  intros Hwf Hc.
  rewrite (rotate_wf count g Hwf). cbn [mbind result_bind].
  assert (Hwf' : forall n, wf_grid (Nat.iter n quarterTurn g) = true).
  { induction n; [exact Hwf| apply quarterTurn_wf; assumption]. }
  rewrite rotate_wf by apply Hwf'.
  f_equal.
  pose proof (quarterTurn_four g Hwf) as H4.
  destruct count as [|[|[|[|?]]]]; try lia; cbn; try reflexivity; exact H4.
Qed.

(** C5: for a grid of 4 rows of 4 cells and a count among 0, 1, 2, 3,
    [rotate] by the count and then by (4 - count) mod 4 returns the grid;
    the counts of the directions are left 0, up 1, right 2, down 3, so the
    un-rotation [move] makes undoes its rotation. *)
Theorem rotate_round_trip :
  forall (A : Type) (g : list (list (option A))),
    wf_grid g = true ->
    (forall count : nat, (count < 4)%nat ->
       (rotate g count ≫= fun g' => rotate g' ((4 - count) mod 4)) = Ok g)
    /\ (rotations left = 0 /\ rotations up = 1 /\ rotations right = 2
        /\ rotations down = 3)%nat
    /\ (forall d : Direction,
          (rotate g (rotations d)
             ≫= fun g' => rotate g' ((4 - rotations d) mod 4)) = Ok g).
Proof.
  intros A g Hwf. split; [|split].
  - intros count Hc. now apply rotate_back.
  - repeat split.
  - intros d. apply rotate_back; [exact Hwf | destruct d; cbn; lia].
Qed.

Lemma rotate_round_trip_witness :
  (rotate (toAny [[2; 0; 0; 4]; [0; 8; 0; 0]; [0; 0; 16; 0]; [32; 0; 0; 64]]) 1
     ≫= fun g' => rotate g' 3)
  = Ok (toAny [[2; 0; 0; 4]; [0; 8; 0; 0]; [0; 0; 16; 0]; [32; 0; 0; 64]]).
Proof.
  exact (proj1 (rotate_round_trip Z
                  (toAny [[2; 0; 0; 4]; [0; 8; 0; 0]; [0; 0; 16; 0]; [32; 0; 0; 64]])
                  eq_refl) 1%nat (ltac:(lia))).
Defined.

(** ** [join] decides equality of rows *)

Lemma noComma_uint (d : Decimal.uint) : noComma (NilEmpty.string_of_uint d).
Proof.
  induction d; intros c Hc; cbn in Hc;
    solve [ destruct Hc | destruct Hc as [<- | Hc]; [discriminate | now apply IHd] ].
Qed.

Lemma noComma_toString (z : Z) : noComma (toString z).
Proof.
  unfold toString.
  destruct (Z.to_int z) as [d | d]; cbn [NilZero.string_of_int].
  - destruct d; try apply (noComma_uint _).
    intros c [<- | []]. discriminate.
  - intros c [<- | Hc]; [discriminate|].
    revert c Hc. fold (noComma (NilZero.string_of_uint d)).
    destruct d; try apply (noComma_uint _).
    intros c [<- | []]. discriminate.
Qed.

Lemma toString_inj (x y : Z) : toString x = toString y -> x = y.
Proof.
  unfold toString. intros H.
  apply DecimalZ.to_int_inj.
  assert (Hn : forall z, Z.to_int z <> Decimal.Pos Decimal.Nil /\
                         Z.to_int z <> Decimal.Neg Decimal.Nil).
  { intros [|p|p]; cbn; split; try discriminate;
      intros [= E]; revert E; apply DecimalPos.Unsigned.to_uint_nonnil. }
  pose proof (NilZero.isi _ (proj1 (Hn x)) (proj2 (Hn x))) as Hx.
  pose proof (NilZero.isi _ (proj1 (Hn y)) (proj2 (Hn y))) as Hy.
  rewrite H in Hx. congruence.
Qed.

(** A comma-free head is determined by the whole string. *)
Lemma comma_split (s1 s2 t1 t2 : string) :
  noComma s1 -> noComma s2 ->
  String.append s1 (String "," t1) = String.append s2 (String "," t2) ->
  s1 = s2 /\ t1 = t2.
Proof.
  revert s2. induction s1 as [|a s1 IH]; intros [|b s2] H1 H2 E; cbn in E.
  - now inversion E.
  - inversion E; subst. exfalso. apply (H2 ","%char); [now left | reflexivity].
  - inversion E; subst. exfalso. apply (H1 ","%char); [now left | reflexivity].
  - inversion E; subst.
    destruct (IH s2) as [-> ->]; auto.
    + intros c Hc. apply H1. now right.
    + intros c Hc. apply H2. now right.
Qed.

Lemma join_cons (a b : Z) (l : list Z) :
  join (a :: b :: l) = String.append (toString a) (String "," (join (b :: l))).
Proof. reflexivity. Qed.

Lemma join_inj (l1 l2 : list Z) :
  length l1 = length l2 -> join l1 = join l2 -> l1 = l2.
Proof.
  revert l2. induction l1 as [|a l1 IH]; intros [|b l2] Hlen E; try discriminate.
  - reflexivity.
  - destruct l1 as [|a' l1], l2 as [|b' l2]; try discriminate.
    + cbn in E. now rewrite (toString_inj _ _ E).
    + rewrite !join_cons in E.
      apply comma_split in E as [E1 E2]; try apply noComma_toString.
      rewrite (toString_inj _ _ E1). f_equal.
      apply IH; [cbn in Hlen |- *; lia | exact E2].
Qed.

Lemma join_eqb (l1 l2 : list Z) :
  length l1 = length l2 ->
  String.eqb (join l1) (join l2) = bool_decide (l1 = l2).
Proof.
  intros Hlen. destruct (String.eqb_spec (join l1) (join l2)) as [E | E].
  - rewrite bool_decide_eq_true_2; [reflexivity | now apply join_inj].
  - rewrite bool_decide_eq_false_2; [reflexivity | now intros ->].
Qed.

(** ** What [mergeLoop] does *)

Lemma logged_nil (p : Pending) : logged p [] = p.
Proof.
  destruct p; unfold logged; cbn. rewrite app_nil_r.
  rewrite bool_decide_eq_false_2 by apply not_elem_of_nil. reflexivity.
Qed.

Lemma logged_app (p : Pending) (xs ys : list Z) :
  logged (logged p xs) ys = logged p (xs ++ ys).
Proof.
  unfold logged; cbn. f_equal; [|now rewrite app_assoc].
  rewrite (bool_decide_ext _ _ (elem_of_app xs ys 2048)).
  destruct (bool_decide (2048 ∈ xs)) eqn:Ex, (bool_decide (2048 ∈ ys)) eqn:Ey;
    [rewrite bool_decide_eq_true_2.. | rewrite bool_decide_eq_false_2];
    try reflexivity;
    try apply bool_decide_eq_true in Ex; try apply bool_decide_eq_true in Ey;
    try apply bool_decide_eq_false in Ex; try apply bool_decide_eq_false in Ey; tauto.
Qed.

Lemma unrotatedKey_spec (numRotations r k : nat) :
  unrotatedKey numRotations r k =
  if tagThrows numRotations then Throw TypeError else Ok (Some r, Some k).
Proof.
  unfold unrotatedKey, tagThrows.
  destruct ((4 - numRotations) mod 4)%nat as [|t]; reflexivity.
Qed.

Lemma merge_step (v : Z) (p : Pending) {A} (k : M A) :
  (logMerge v;; (if v =? 2048 then setIsWin true else mret tt);; k) p = k (logged p [v]).
Proof.
  unfold mbind, M_bind, logMerge, logged. cbn.
  destruct (Z.eqb_spec v 2048) as [-> | Hv]; cbn.
  - rewrite bool_decide_eq_true_2 by apply list_elem_of_singleton, eq_refl. reflexivity.
  - rewrite bool_decide_eq_false_2; [reflexivity|].
    intros H. apply list_elem_of_singleton in H. congruence.
Qed.

Lemma drop_cons_inv {A} (l : list A) (i : nat) (a : A) (t : list A) :
  drop i l = a :: t -> l !! i = Some a /\ drop (S i) l = t.
Proof.
  intros H. split.
  - rewrite <- (Nat.add_0_r i), <- lookup_drop, H. reflexivity.
  - replace (S i) with (i + 1)%nat by lia. rewrite <- drop_drop, H. reflexivity.
Qed.

Lemma drop_nil_inv {A} (l : list A) (i : nat) : drop i l = [] -> l !! i = None.
Proof.
  intros H. apply lookup_ge_None_2.
  apply (f_equal length) in H. rewrite length_drop in H. cbn in H. lia.
Qed.

Lemma mergeLoop_spec (numRotations r : nat) :
  forall fuel row i rest newRow loc p,
    drop i row = rest -> (length rest < fuel)%nat ->
    mergeLoop fuel numRotations r row i newRow loc p
    = scanOutcome numRotations r rest newRow loc p.
Proof.
  induction fuel as [|fuel IH]; intros row i rest newRow loc p Hd Hf; [lia|].
  cbn [mergeLoop].
  destruct rest as [|a rest1].
  - rewrite (drop_nil_inv _ _ Hd).
    unfold scanOutcome; cbn. destruct (tagThrows numRotations);
      rewrite logged_nil, app_nil_r, Z.add_0_r; unfold keysOf; cbn;
      rewrite (left_id_L ∅ (∪)); now destruct loc.
  - destruct (drop_cons_inv _ _ _ _ Hd) as [-> Hd1].
    replace (S i) with (i + 1)%nat in Hd1 by lia.
    destruct rest1 as [|b rest2].
    + rewrite (drop_nil_inv _ _ Hd1).
      rewrite (IH row (i + 1)%nat [] _ loc p Hd1) by (cbn; cbn in Hf; lia).
      unfold scanOutcome; cbn. destruct (tagThrows numRotations);
        rewrite app_nil_r; unfold keysOf; cbn; reflexivity.
    + destruct (drop_cons_inv _ _ _ _ Hd1) as [-> Hd2].
      replace (S (i + 1)) with (i + 1 + 1)%nat in Hd2 by lia.
      destruct (a =? b) eqn:Hab.
      * rewrite merge_step. unfold mbind at 1, M_bind at 1, lift at 1.
        rewrite unrotatedKey_spec.
        unfold scanOutcome. cbn [mergePairs]. rewrite Hab.
        destruct (tagThrows numRotations) eqn:Ht; [reflexivity|].
        rewrite (IH row (i + 1 + 1)%nat rest2 _ _ _ Hd2) by (cbn in Hf; lia).
        unfold scanOutcome. rewrite Ht. cbn.
        rewrite logged_app, <- app_assoc, length_app. cbn.
        replace (length newRow + 1 - 1)%nat with (length newRow) by lia.
        replace (length newRow + 1)%nat with (S (length newRow)) by lia.
        rewrite Z.add_assoc. do 4 f_equal.
        unfold keysOf. cbn. now rewrite (assoc_L (∪)), (comm_L (∪) (list_to_set _)).
      * rewrite (IH row (i + 1)%nat (b :: rest2) _ _ _ Hd1) by (cbn in Hf |- *; lia).
        unfold scanOutcome. cbn [mergePairs]. rewrite Hab.
        fold (mergePairs (b :: rest2)).
        cbn [mergeValues tileValues List.filter map fst snd mergedIndexes keysOf].
        rewrite <- app_assoc, length_app. cbn [length app].
        replace (length newRow + 1)%nat with (S (length newRow)) by lia.
        reflexivity.
Qed.

(** Induction along the scan: a row is empty, a single tile, or starts with
    two tiles after which the scan goes on one or two tiles further. *)
Lemma pairs_ind (P : list Z -> Prop) :
  P [] ->
  (forall a, P [a]) ->
  (forall a b rest, P rest -> P (b :: rest) -> P (a :: b :: rest)) ->
  forall row, P row.
Proof.
  intros H0 H1 H2 row.
  enough (P row /\ forall a, P (a :: row)) by tauto.
  induction row as [|b row [IHa IHb]]; split; auto.
Qed.

Lemma mergePairs_cons2 (a b : Z) (rest : list Z) :
  mergePairs (a :: b :: rest)
  = if a =? b then (a * 2, true) :: mergePairs rest
    else (a, false) :: mergePairs (b :: rest).
Proof. reflexivity. Qed.

Lemma mergePairs_length (row : list Z) :
  (length (mergePairs row) <= length row)%nat.
Proof.
  induction row as [|a|a b rest IH1 IH2] using pairs_ind; [cbn; lia..|].
  rewrite mergePairs_cons2.
  destruct (a =? b); cbn [length] in *; lia.
Qed.

Lemma slideSpec_length (cells : list Z) :
  (length cells <= TILE_COUNT)%nat -> length (slideSpec cells) = TILE_COUNT.
Proof.
  intros H. unfold slideSpec, tileValues.
  rewrite length_app, length_replicate, length_map.
  pose proof (mergePairs_length (compact cells)).
  pose proof (length_filter (fun cell => cell ≠ 0) cells).
  unfold compact in *. lia.
Qed.

Lemma slideRow_spec (numRotations r : nat) (currentGrid : Grid) (cells : list Z)
    (loc : Locals) (p : Pending) :
  currentGrid !! r = Some cells ->
  length cells = TILE_COUNT ->
  slideRow numRotations (currentGrid, loc) r p
  = rowOutcome numRotations r cells currentGrid loc p.
Proof.
  intros Hr Hlen. unfold slideRow, rowOutcome. rewrite Hr.
  unfold mbind at 1, M_bind at 1.
  rewrite (mergeLoop_spec numRotations r _ _ 0 (compact cells)) by (cbn; unfold compact; lia || reflexivity).
  unfold scanOutcome. fold (compact cells).
  destruct (if tagThrows numRotations then _ else _); [reflexivity|].
  cbn [app length].
  assert (Hpad : padRow (tileValues (mergePairs (compact cells))) = Ok (slideSpec cells)).
  { unfold padRow, slideSpec.
    pose proof (mergePairs_length (compact cells)).
    pose proof (length_filter (fun cell => cell ≠ 0) cells).
    unfold compact, tileValues in *. rewrite length_map.
    destruct (Nat.leb_spec (length (mergePairs (filter (fun cell => cell ≠ 0) cells))) TILE_COUNT);
      [reflexivity | lia]. }
  unfold mbind, M_bind, lift, mret, M_ret. rewrite Hpad.
  rewrite join_eqb by (rewrite slideSpec_length; lia).
  do 3 f_equal. unfold rowLocals.
  case_bool_decide; cbn; [rewrite orb_false_r | rewrite orb_true_r]; reflexivity.
Qed.

(** ** What the loop over the rows and [slide] do on a 4x4 grid *)

Ltac row_step Ht :=
  cbn [rowsLoop]; unfold mbind at 1, M_bind at 1;
  erewrite slideRow_spec by reflexivity;
  unfold rowOutcome; rewrite Ht.

Lemma rowsLoop_spec (numRotations : nat) (g : Grid) (p : Pending) :
  wf_grid g = true ->
  rowsLoop numRotations (seq 0 TILE_COUNT) (g, mkLocals 0 false ∅) p
  = gridOutcome numRotations g p.
Proof.
  intros (a0&a1&a2&a3&b0&b1&b2&b3&c0&c1&c2&c3&d0&d1&d2&d3&->)%wf_grid_shape.
  unfold gridOutcome, allMerges, slideLocals. cbn [seq TILE_COUNT map concat length zip zip_with foldl fst snd].
  set (r0 := [a0; a1; a2; a3]). set (r1 := [b0; b1; b2; b3]).
  set (r2 := [c0; c1; c2; c3]). set (r3 := [d0; d1; d2; d3]).
  destruct (tagThrows numRotations) eqn:Ht.
  - row_step Ht.
    destruct (mergeValues (mergePairs (compact r0))) as [|v0 m0]; [|reflexivity].
    cbn [head app list_insert]. row_step Ht.
    destruct (mergeValues (mergePairs (compact r1))) as [|v1 m1];
      [|now rewrite logged_nil].
    cbn [head app list_insert]. row_step Ht.
    destruct (mergeValues (mergePairs (compact r2))) as [|v2 m2];
      [|now rewrite !logged_nil].
    cbn [head app list_insert]. row_step Ht.
    destruct (mergeValues (mergePairs (compact r3))) as [|v3 m3];
      [|now rewrite !logged_nil].
    cbn [head app list_insert]. now rewrite !logged_nil.
  - do 4 (row_step Ht; cbn [insert list_insert]).
    cbn [rowsLoop]. unfold mret, M_ret. rewrite !logged_app, app_nil_r, <- ?app_assoc.
    reflexivity.
Qed.

Lemma wf_toAny {A} (g : list (list A)) : wf_grid (toAny g) = wf_grid g.
Proof.
  unfold wf_grid, toAny. rewrite length_map. f_equal.
  induction g as [|row g IH]; [reflexivity|].
  cbn. now rewrite length_map, IH.
Qed.

Lemma quarterTurn_toAny {A} (g : list (list A)) :
  wf_grid g = true -> quarterTurn (toAny g) = toAny (quarterTurn g).
Proof.
  intros (a0&a1&a2&a3&b0&b1&b2&b3&c0&c1&c2&c3&d0&d1&d2&d3&->)%wf_grid_shape.
  reflexivity.
Qed.

Lemma iter_quarterTurn_wf {A} (n : nat) (g : list (list A)) :
  wf_grid g = true -> wf_grid (Nat.iter n quarterTurn g) = true.
Proof.
  intros H. induction n; [exact H|]. rewrite Nat.iter_succ. now apply quarterTurn_wf.
Qed.

Lemma iter_quarterTurn_toAny {A} (n : nat) (g : list (list A)) :
  wf_grid g = true ->
  Nat.iter n quarterTurn (toAny g) = toAny (Nat.iter n quarterTurn g).
Proof.
  intros H. induction n as [|n IH]; [reflexivity|].
  rewrite !Nat.iter_succ, IH. apply quarterTurn_toAny. now apply iter_quarterTurn_wf.
Qed.

Lemma typed_toAny {A} (g : list (list A)) : typed (toAny g) = Ok g.
Proof.
  unfold typed, asNumbers, toAny.
  assert (Hrow : forall row : list A, mapM id (map Some row) = Some row).
  { induction row as [|a row IH]; [reflexivity|]. cbn. now rewrite IH. }
  assert (H : mapM (mapM id) (map (map Some) g) = Some g).
  { induction g as [|row g IH]; [reflexivity|]. cbn. now rewrite Hrow, IH. }
  now rewrite H.
Qed.

(** On a 4x4 grid of numbers [rotate] makes [times] quarter turns. *)
Lemma rotate_numbers (times : nat) (g : Grid) :
  wf_grid g = true ->
  (rotate (toAny g) times ≫= typed) = Ok (Nat.iter times quarterTurn g).
Proof.
  intros H. rewrite rotate_wf by now rewrite wf_toAny.
  cbn [mbind result_bind]. rewrite iter_quarterTurn_toAny by exact H.
  apply typed_toAny.
Qed.

Lemma wf_map_slideSpec (g : Grid) :
  wf_grid g = true -> wf_grid (map slideSpec g) = true.
Proof.
  intros (a0&a1&a2&a3&b0&b1&b2&b3&c0&c1&c2&c3&d0&d1&d2&d3&->)%wf_grid_shape.
  unfold wf_grid. cbn [map length forallb].
  rewrite !slideSpec_length by (unfold TILE_COUNT; cbn; lia). reflexivity.
Qed.

Lemma M_bind_eq {A B} (m : M A) (f : A -> M B) (p : Pending) :
  (m ≫= f) p = match m p with
               | (p', Ok a) => f a p'
               | (p', Throw e) => (p', Throw e)
               | (p', Untyped) => (p', Untyped)
               end.
Proof. reflexivity. Qed.

Lemma bind_lift {A B} (r : result A) (f : A -> M B) (p : Pending) :
  (lift r ≫= f) p = match r with
                    | Ok a => f a p
                    | Throw e => (p, Throw e)
                    | Untyped => (p, Untyped)
                    end.
Proof. now destruct r. Qed.

Lemma slide_spec (direction : Direction) (g : Grid) (p : Pending) :
  wf_grid g = true -> slide direction g p = slideOutcome direction g p.
Proof.
  intros Hwf. unfold slide, slideOutcome, slideGrid. cbv zeta.
  set (n := rotations direction).
  rewrite M_bind_eq. unfold lift at 1.
  rewrite (rotate_numbers n g Hwf).
  rewrite M_bind_eq.
  rewrite rowsLoop_spec by now apply iter_quarterTurn_wf.
  unfold gridOutcome.
  destruct (if tagThrows n then _ else _); [reflexivity|].
  rewrite M_bind_eq. unfold lift at 1.
  rewrite rotate_numbers by (apply wf_map_slideSpec; now apply iter_quarterTurn_wf).
  reflexivity.
Qed.

Lemma slideGrid_wf (direction : Direction) (g : Grid) :
  wf_grid g = true -> wf_grid (slideGrid direction g) = true.
Proof.
  intros H. unfold slideGrid.
  apply iter_quarterTurn_wf, wf_map_slideSpec. now apply iter_quarterTurn_wf.
Qed.

(** ** Rows after the slide *)

Lemma sumZ_app (l1 l2 : list Z) : sumZ (l1 ++ l2) = sumZ l1 + sumZ l2.
Proof. unfold sumZ. induction l1 as [|a l1 IH]; cbn; [reflexivity | lia]. Qed.

Lemma compact_nonzero (cells : list Z) : Forall (fun x => x ≠ 0) (compact cells).
Proof. unfold compact. apply Forall_forall. now intros x [? _]%list_elem_of_filter. Qed.

Lemma tileValues_nonzero (row : list Z) :
  Forall (fun x => x ≠ 0) row ->
  Forall (fun x => x ≠ 0) (tileValues (mergePairs row)).
Proof.
  induction row as [|a|a b rest IH1 IH2] using pairs_ind; intros H.
  - constructor.
  - exact H.
  - rewrite mergePairs_cons2.
    apply Forall_cons in H as [Ha H]. pose proof H as [Hb Hrest]%Forall_cons.
    destruct (a =? b).
    + apply Forall_cons. split; [cbn; lia | now apply IH1].
    + apply Forall_cons. split; [exact Ha | now apply IH2].
Qed.

(** Every merge shortens the row by one tile. *)
Lemma mergePairs_count (row : list Z) :
  (length (mergePairs row) + length (mergeValues (mergePairs row)) = length row)%nat.
Proof.
  induction row as [|a|a b rest IH1 IH2] using pairs_ind; [reflexivity..|].
  rewrite mergePairs_cons2.
  unfold mergeValues in *.
  destruct (a =? b); cbn [List.filter snd map length] in *; lia.
Qed.

Lemma mergePairs_no_merge (row : list Z) :
  mergeValues (mergePairs row) = [] -> tileValues (mergePairs row) = row.
Proof.
  induction row as [|a|a b rest IH1 IH2] using pairs_ind; [reflexivity..|].
  rewrite mergePairs_cons2.
  destruct (a =? b); cbn [mergeValues List.filter snd map fst tileValues]; [discriminate|].
  intros H. f_equal. now apply IH2.
Qed.

Lemma compact_packed (xs : list Z) (k : nat) :
  Forall (fun x => x ≠ 0) xs -> compact (xs ++ replicate k 0) = xs.
Proof.
  intros H. unfold compact. rewrite filter_app.
  assert (H1 : filter (fun cell => cell ≠ 0) xs = xs).
  { induction H as [|x xs Hx H IH]; [reflexivity|].
    rewrite filter_cons_True by exact Hx. now rewrite IH. }
  assert (H2 : filter (fun cell => cell ≠ 0) (replicate k 0) = []).
  { induction k as [|k IH]; [reflexivity|].
    cbn [replicate]. rewrite filter_cons_False by (intros Hf; now apply Hf). exact IH. }
  now rewrite H1, H2, app_nil_r.
Qed.

Lemma compact_slideSpec (cells : list Z) :
  compact (slideSpec cells) = tileValues (mergePairs (compact cells)).
Proof.
  unfold slideSpec. apply compact_packed, tileValues_nonzero, compact_nonzero.
Qed.

Lemma slideSpec_fixed_no_merge (cells : list Z) :
  slideSpec cells = cells -> mergeValues (mergePairs (compact cells)) = [].
Proof.
  intros H. pose proof (compact_slideSpec cells) as Hc. rewrite H in Hc.
  pose proof (mergePairs_count (compact cells)) as Hn.
  rewrite Hc in Hn at 3. unfold tileValues in Hn. rewrite length_map in Hn.
  destruct (mergeValues (mergePairs (compact cells))); [reflexivity | cbn in Hn; lia].
Qed.

Lemma filter_length_eq (cells : list Z) :
  length (compact cells) = length cells -> compact cells = cells.
Proof.
  unfold compact. induction cells as [|x cells IH]; [reflexivity|].
  destruct (decide (x ≠ 0)) as [Hx | Hx].
  - rewrite filter_cons_True by exact Hx. cbn. intros [= H]. now rewrite IH.
  - rewrite filter_cons_False by exact Hx. cbn.
    pose proof (length_filter (fun cell => cell ≠ 0) cells). lia.
Qed.

(** A row that the slide changes has an empty cell afterwards. *)
Lemma slideSpec_changed_zero (cells : list Z) :
  length cells = TILE_COUNT -> slideSpec cells ≠ cells -> 0 ∈ slideSpec cells.
Proof.
  intros Hlen Hne. unfold slideSpec in *.
  set (ms := tileValues (mergePairs (compact cells))) in *.
  destruct (decide (length ms < TILE_COUNT)%nat) as [Hlt | Hge].
  - apply elem_of_app. right.
    destruct (TILE_COUNT - length ms)%nat eqn:E; [lia|]. cbn. now left.
  - exfalso. apply Hne.
    pose proof (mergePairs_count (compact cells)) as Hn.
    pose proof (length_filter (fun cell => cell ≠ 0) cells) as Hf. fold (compact cells) in Hf.
    assert (Hms : length ms = length (mergePairs (compact cells)))
      by (unfold ms, tileValues; now rewrite length_map).
    assert (Hc : compact cells = cells) by (apply filter_length_eq; lia).
    assert (Hm : mergeValues (mergePairs (compact cells)) = []).
    { destruct (mergeValues (mergePairs (compact cells))); [reflexivity | cbn in Hn; lia]. }
    unfold ms. rewrite (mergePairs_no_merge _ Hm), Hc.
    replace (TILE_COUNT - length cells)%nat with 0%nat by lia. cbn. now rewrite app_nil_r.
Qed.

(** A second slide of a row changes it exactly when it can merge. *)
Lemma slideSpec_twice (cells : list Z) :
  length cells = TILE_COUNT ->
  slideSpec (slideSpec cells) = slideSpec cells
  <-> mergeValues (mergePairs (compact (slideSpec cells))) = [].
Proof.
  intros Hlen. split.
  - apply slideSpec_fixed_no_merge.
  - intros H. unfold slideSpec at 1.
    rewrite (mergePairs_no_merge _ H), compact_slideSpec. reflexivity.
Qed.

(** ** Grids: turning back, locals, empty cells *)

Lemma rotations_lt (d : Direction) : (rotations d < 4)%nat.
Proof. destruct d; cbn; lia. Qed.

Lemma unturn_turn {A} (n : nat) (g : list (list A)) :
  wf_grid g = true -> (n < 4)%nat ->
  Nat.iter ((4 - n) mod 4) quarterTurn (Nat.iter n quarterTurn g) = g.
Proof.
  intros (a0&a1&a2&a3&b0&b1&b2&b3&c0&c1&c2&c3&d0&d1&d2&d3&->)%wf_grid_shape Hn.
  destruct n as [|[|[|[|?]]]]; try lia; reflexivity.
Qed.

Lemma turn_unturn {A} (n : nat) (g : list (list A)) :
  wf_grid g = true -> (n < 4)%nat ->
  Nat.iter n quarterTurn (Nat.iter ((4 - n) mod 4) quarterTurn g) = g.
Proof.
  intros (a0&a1&a2&a3&b0&b1&b2&b3&c0&c1&c2&c3&d0&d1&d2&d3&->)%wf_grid_shape Hn.
  destruct n as [|[|[|[|?]]]]; try lia; reflexivity.
Qed.

(** The rows of the slid grid, seen in the frame of the slide. *)
Lemma turn_slideGrid (direction : Direction) (g : Grid) :
  wf_grid g = true ->
  Nat.iter (rotations direction) quarterTurn (slideGrid direction g)
  = map slideSpec (Nat.iter (rotations direction) quarterTurn g).
Proof.
  intros H. unfold slideGrid. apply turn_unturn; [|apply rotations_lt].
  apply wf_map_slideSpec. now apply iter_quarterTurn_wf.
Qed.

Lemma slideGrid_fixed (direction : Direction) (g : Grid) :
  wf_grid g = true ->
  slideGrid direction g = g
  <-> map slideSpec (Nat.iter (rotations direction) quarterTurn g)
      = Nat.iter (rotations direction) quarterTurn g.
Proof.
  intros H. split; intros E.
  - rewrite <- (turn_slideGrid direction g H), E. reflexivity.
  - unfold slideGrid. rewrite E. apply unturn_turn; [exact H | apply rotations_lt].
Qed.

Lemma slideLocals_score (g : Grid) :
  wf_grid g = true -> scoreToAdd (slideLocals g) = sumZ (allMerges g).
Proof.
  intros (a0&a1&a2&a3&b0&b1&b2&b3&c0&c1&c2&c3&d0&d1&d2&d3&->)%wf_grid_shape.
  unfold slideLocals, allMerges.
  cbn [length seq zip zip_with foldl rowLocals scoreToAdd fst snd map concat].
  rewrite !sumZ_app. cbn [sumZ foldr]. lia.
Qed.

Lemma slideLocals_moved (g : Grid) :
  wf_grid g = true ->
  moved (slideLocals g) = negb (bool_decide (map slideSpec g = g)).
Proof.
  intros (a0&a1&a2&a3&b0&b1&b2&b3&c0&c1&c2&c3&d0&d1&d2&d3&->)%wf_grid_shape.
  unfold slideLocals.
  cbn [length seq zip zip_with foldl rowLocals moved fst snd map orb].
  repeat case_bool_decide; cbn; try reflexivity; exfalso; congruence.
Qed.

Lemma elem_of_concat_cellAt (g : Grid) (x : Z) :
  x ∈ concat g <-> exists r c, cellAt g r c = Some x.
Proof.
  rewrite list_elem_of_In, in_concat. unfold cellAt. split.
  - intros (row & Hrow & Hx).
    apply list_elem_of_In, list_elem_of_lookup in Hrow as [r Hr].
    apply list_elem_of_In, list_elem_of_lookup in Hx as [c Hc].
    exists r, c. rewrite Hr. exact Hc.
  - intros (r & c & H). destruct (g !! r) as [row|] eqn:Hr; [|discriminate].
    cbn in H. exists row. split; apply list_elem_of_In, list_elem_of_lookup; eauto.
Qed.

Lemma quarterTurn_elem (g : Grid) (x : Z) :
  wf_grid g = true -> x ∈ concat (quarterTurn g) <-> x ∈ concat g.
Proof.
  intros (a0&a1&a2&a3&b0&b1&b2&b3&c0&c1&c2&c3&d0&d1&d2&d3&->)%wf_grid_shape.
  cbn [quarterTurn concat app]. rewrite !elem_of_cons, !elem_of_nil. tauto.
Qed.

Lemma iter_quarterTurn_elem (n : nat) (g : Grid) (x : Z) :
  wf_grid g = true -> x ∈ concat (Nat.iter n quarterTurn g) <-> x ∈ concat g.
Proof.
  intros H. induction n as [|n IH]; [reflexivity|].
  rewrite Nat.iter_succ, quarterTurn_elem by now apply iter_quarterTurn_wf.
  exact IH.
Qed.

(** If the slide changes the rows of a grid, an empty cell is left. *)
Lemma map_slideSpec_changed_zero (g : Grid) :
  wf_grid g = true -> map slideSpec g ≠ g -> 0 ∈ concat (map slideSpec g).
Proof.
  intros (a0&a1&a2&a3&b0&b1&b2&b3&c0&c1&c2&c3&d0&d1&d2&d3&->)%wf_grid_shape Hne.
  cbn [map concat] in *. rewrite !elem_of_app.
  destruct (decide (slideSpec [a0; a1; a2; a3] = [a0; a1; a2; a3])) as [E0|E0];
    [|left; now apply slideSpec_changed_zero].
  destruct (decide (slideSpec [b0; b1; b2; b3] = [b0; b1; b2; b3])) as [E1|E1];
    [|right; left; now apply slideSpec_changed_zero].
  destruct (decide (slideSpec [c0; c1; c2; c3] = [c0; c1; c2; c3])) as [E2|E2];
    [|right; right; left; now apply slideSpec_changed_zero].
  destruct (decide (slideSpec [d0; d1; d2; d3] = [d0; d1; d2; d3])) as [E3|E3];
    [|right; right; right; left; now apply slideSpec_changed_zero].
  exfalso. apply Hne. now rewrite E0, E1, E2, E3.
Qed.

(** ** Reading the cells of a 4x4 grid *)

Lemma wf_grid_row {A} (g : list (list A)) (r : nat) :
  wf_grid g = true -> (r < TILE_COUNT)%nat ->
  exists row, g !! r = Some row /\ length row = TILE_COUNT.
Proof.
  intros (a0&a1&a2&a3&b0&b1&b2&b3&c0&c1&c2&c3&d0&d1&d2&d3&->)%wf_grid_shape Hr.
  unfold TILE_COUNT in *.
  destruct r as [|[|[|[|?]]]]; try lia; eexists; split; reflexivity.
Qed.

Lemma readAt_wf (g : Grid) (r c : nat) :
  wf_grid g = true -> (r < TILE_COUNT)%nat -> readAt g r c = Ok (cellAt g r c).
Proof.
  intros Hwf Hr. destruct (wf_grid_row g r Hwf Hr) as (row & Hrow & _).
  unfold readAt, cellAt. now rewrite Hrow.
Qed.

Lemma cellAt_wf (g : Grid) (r c : nat) :
  wf_grid g = true ->
  is_Some (cellAt g r c) <-> (r < TILE_COUNT)%nat /\ (c < TILE_COUNT)%nat.
Proof.
  intros Hwf. unfold cellAt. split.
  - intros [v Hv]. destruct (g !! r) as [row|] eqn:Hr; [|discriminate]. cbn in Hv.
    assert (Hr' : (r < TILE_COUNT)%nat).
    { apply lookup_lt_Some in Hr. pose proof Hwf as Hwf'. unfold wf_grid in Hwf'.
      apply andb_prop in Hwf' as [Hl%Nat.eqb_eq _]. lia. }
    split; [exact Hr'|].
    destruct (wf_grid_row g r Hwf Hr') as (row' & Hrow' & Hlen).
    rewrite Hr in Hrow'. injection Hrow' as <-.
    apply lookup_lt_Some in Hv. lia.
  - intros [Hr Hc]. destruct (wf_grid_row g r Hwf Hr) as (row & -> & Hlen). cbn.
    apply lookup_lt_is_Some. lia.
Qed.

Lemma cellOrder_inRange : Forall inRange cellOrder.
Proof. unfold inRange, TILE_COUNT. repeat constructor; cbn; lia. Qed.

Lemma elem_of_cellOrder (r c : nat) :
  (r < TILE_COUNT)%nat -> (c < TILE_COUNT)%nat -> (r, c) ∈ cellOrder.
Proof.
  unfold TILE_COUNT. intros Hr Hc. apply list_elem_of_In.
  destruct r as [|[|[|[|?]]]]; try lia;
    destruct c as [|[|[|[|?]]]]; try lia; cbn; tauto.
Qed.

Lemma emptyCellsLoop_spec (g : Grid) (cells : list (nat * nat)) :
  wf_grid g = true -> Forall inRange cells ->
  emptyCellsLoop cells g = Ok (filter (fun rc => cellAt g rc.1 rc.2 = Some 0) cells).
Proof.
  intros Hwf H. induction H as [|[r c] cells [Hr Hc] H IH]; [reflexivity|].
  cbn [emptyCellsLoop]. rewrite readAt_wf, IH by assumption.
  cbn [mbind result_bind]. reflexivity.
Qed.

Lemma emptyCells_elem (g : Grid) (r c : nat) :
  wf_grid g = true -> (r, c) ∈ emptyCells g <-> cellAt g r c = Some 0.
Proof.
  intros Hwf. unfold emptyCells. rewrite list_elem_of_filter. cbn. split.
  - now intros [? _].
  - intros H. split; [exact H|].
    assert (Hs : is_Some (cellAt g r c)) by (rewrite H; eauto).
    apply cellAt_wf in Hs as [? ?]; [|exact Hwf]. now apply elem_of_cellOrder.
Qed.

(** ** Rounding to a double *)
Lemma two_power_pos (e : Z) : (0 < 2 ^ e)%Q.
Proof. now apply Qpower_0_lt. Qed.

Lemma two_power_Z (n : Z) : 0 <= n -> (2 ^ n == inject_Z (2 ^ n))%Q.
Proof. intros Hn. symmetry. now apply (Zpower_Qpower 2 n). Qed.

Lemma two_power_neg (e : Z) : e <= 0 -> (2 ^ e == / inject_Z (2 ^ (- e)))%Q.
Proof.
  intros He. replace e with (- (- e)) at 1 by lia.
  rewrite Qpower_opp. now rewrite two_power_Z by lia.
Qed.

Lemma two_power_le (a b : Z) : a <= b -> (2 ^ a <= 2 ^ b)%Q.
Proof. intros H. now apply Qpower_le_compat_l. Qed.

Lemma two_power_lt_inv (a b : Z) : (2 ^ a < 2 ^ b)%Q -> a < b.
Proof. intros H. now apply (Qpower_lt_compat_l_inv 2). Qed.

Lemma two_power_add (a b : Z) : (2 ^ (a + b) == 2 ^ a * 2 ^ b)%Q.
Proof. now apply Qpower_plus. Qed.

(** [binade x] is not above the binary logarithm of [x]. *)
Lemma binade_le (x : Q) : (0 < x)%Q -> (2 ^ binade x <= x)%Q.
Proof.
  intros Hx. unfold binade.
  set (j := Z.log2 (Qnum x) - Z.log2 (Z.pos (Qden x))).
  destruct (Qle_bool (2 ^ j) x) eqn:E; [now apply Qle_bool_iff|].
  destruct x as [a b]. cbn [Qnum Qden] in *.
  assert (Ha : 0 < a) by (unfold Qlt in Hx; cbn in Hx; lia).
  pose proof (Z.log2_spec a Ha) as [Ha1 _].
  pose proof (Z.log2_spec (Z.pos b) (Pos2Z.is_pos b)) as [_ Hb2].
  pose proof (Z.log2_nonneg a) as Hla.
  pose proof (Z.log2_nonneg (Z.pos b)) as Hlb.
  set (la := Z.log2 a) in *. set (lb := Z.log2 (Z.pos b)) in *.
  (* 2^(la - lb - 1) * b <= 2^(la - (lb+1)) * 2^(lb+1) = 2^la <= a *)
  apply Qle_trans with (inject_Z (2 ^ la) / inject_Z (2 ^ (lb + 1)))%Q.
  - replace (j - 1) with (la - (lb + 1)) by (unfold j; lia).
    rewrite Qpower_minus by discriminate.
    rewrite !two_power_Z by lia. apply Qle_refl.
  - apply Qle_shift_div_r.
    + change 0%Q with (inject_Z 0). rewrite <- Zlt_Qlt. lia.
    + apply Qle_trans with (inject_Z a).
      * rewrite <- Zle_Qle. exact Ha1.
      * setoid_replace (inject_Z a) with ((a # b) * inject_Z (Z.pos b))%Q using relation Qeq.
        -- apply Qmult_le_l.
           ++ exact Hx.
           ++ rewrite <- Zle_Qle. lia.
        -- unfold Qeq, Qmult, inject_Z. cbn. nia.
Qed.

Lemma roundHalfEven_comp (y y' : Q) : (y == y')%Q -> roundHalfEven y = roundHalfEven y'.
Proof.
  intros H. unfold roundHalfEven.
  assert (Hf : Qfloor y = Qfloor y') by now apply Qfloor_comp.
  rewrite Hf.
  assert (Hc : (y - inject_Z (Qfloor y') ?= 1 # 2)%Q = (y' - inject_Z (Qfloor y') ?= 1 # 2)%Q).
  { apply Qcompare_comp; [now rewrite H | reflexivity]. }
  now rewrite Hc.
Qed.

Lemma roundHalfEven_floor (y : Q) : Qfloor y <= roundHalfEven y <= Qfloor y + 1.
Proof.
  unfold roundHalfEven.
  destruct (y - inject_Z (Qfloor y) ?= 1 # 2)%Q; [destruct (Z.even _)| |]; lia.
Qed.

Lemma roundHalfEven_near (y : Q) :
  (inject_Z (roundHalfEven y) - (1 # 2) <= y <= inject_Z (roundHalfEven y) + (1 # 2))%Q.
Proof.
  pose proof (Qfloor_le y) as Hlo. pose proof (Qlt_floor y) as Hhi.
  unfold roundHalfEven. rewrite inject_Z_plus in Hhi. change (inject_Z 1) with 1%Q in Hhi.
  destruct (y - inject_Z (Qfloor y) ?= 1 # 2)%Q eqn:E.
  - apply Qeq_alt in E.
    destruct (Z.even (Qfloor y)); [|rewrite inject_Z_plus; change (inject_Z 1) with 1%Q];
      revert Hlo Hhi E; generalize (inject_Z (Qfloor y)); intros f Hlo Hhi E; lra.
  - apply Qlt_alt in E.
    revert Hlo Hhi E; generalize (inject_Z (Qfloor y)); intros f Hlo Hhi E; lra.
  - apply Qgt_alt in E. rewrite inject_Z_plus. change (inject_Z 1) with 1%Q.
    revert Hlo Hhi E; generalize (inject_Z (Qfloor y)); intros f Hlo Hhi E; lra.
Qed.

Lemma roundHalfEven_Z (z : Z) : roundHalfEven (inject_Z z) = z.
Proof.
  unfold roundHalfEven. rewrite Qfloor_Z.
  assert (H : (inject_Z z - inject_Z z ?= 1 # 2)%Q = Lt).
  { rewrite <- Qlt_alt. generalize (inject_Z z). intros q. lra. }
  now rewrite H.
Qed.

Lemma roundHalfEven_below (y : Q) (N : Z) :
  (y < inject_Z N - (1 # 2))%Q -> roundHalfEven y < N.
Proof.
  intros H. pose proof (roundHalfEven_near y) as [Hlo _].
  rewrite Zlt_Qlt.
  revert H Hlo. generalize (inject_Z (roundHalfEven y)) (inject_Z N). intros a b H Hlo. lra.
Qed.

Lemma roundHalfEven_above (y : Q) (K : Z) :
  (inject_Z K <= y)%Q -> K <= roundHalfEven y.
Proof.
  intros H. pose proof (roundHalfEven_floor y) as [Hlo _].
  apply Qfloor_resp_le in H. rewrite Qfloor_Z in H. lia.
Qed.

Lemma Qfloor_div (R D : Z) : 0 < D -> Qfloor (inject_Z R / inject_Z D) = R / D.
Proof.
  intros HD. destruct D as [|p|p]; try lia.
  assert (H : (inject_Z R / inject_Z (Z.pos p) == R # p)%Q).
  { unfold Qeq, Qdiv, Qmult, Qinv, inject_Z. cbn. lia. }
  rewrite (Qfloor_comp _ _ H). reflexivity.
Qed.

(** Below [2^b] with [b <= 53] the rounding is the rounding to a multiple
    of [1 / D], for a power of two [D]. *)
Lemma roundPositive_scaled (x : Q) (b : Z) :
  (0 < x)%Q -> (x < 2 ^ b)%Q -> 0 <= b <= 53 ->
  exists D : Z,
    2 ^ (53 - b) <= D
    /\ (roundPositive x == inject_Z (roundHalfEven (x * inject_Z D)) / inject_Z D)%Q
    /\ ((inject_Z (2 ^ 52) <= x * inject_Z D)%Q \/ 2 ^ 52 < D).
Proof.
  intros Hx Hb Hb53. unfold roundPositive.
  pose proof (binade_le x Hx) as Hbin.
  assert (Hlt : binade x < b).
  { apply two_power_lt_inv. eapply Qle_lt_trans; [exact Hbin | exact Hb]. }
  set (e := Z.max (binade x - 52) (-1074)).
  assert (He : e <= b - 53) by (unfold e; lia).
  exists (2 ^ (- e)).
  assert (HD : 0 < 2 ^ (- e)) by (apply Z.pow_pos_nonneg; lia).
  assert (Hpow : (2 ^ e == / inject_Z (2 ^ (- e)))%Q) by (apply two_power_neg; lia).
  assert (Hy : (x / 2 ^ e == x * inject_Z (2 ^ (- e)))%Q).
  { unfold Qdiv. rewrite Hpow. now rewrite Qinv_involutive. }
  split; [|split].
  - apply Z.pow_le_mono_r; lia.
  - rewrite (roundHalfEven_comp _ _ Hy). unfold Qdiv. now rewrite Hpow.
  - destruct (Z.max_spec (binade x - 52) (-1074)) as [[_ Hm]|[_ Hm]]; fold e in Hm.
    + right. rewrite Hm. apply Z.pow_lt_mono_r; lia.
    + left. rewrite <- two_power_Z by lia.
      assert (H52 : (2 ^ 52 == 2 ^ binade x * inject_Z (2 ^ (- e)))%Q).
      { rewrite <- two_power_Z by lia. rewrite <- two_power_add.
        replace (binade x + - e) with 52 by lia. reflexivity. }
      rewrite H52. apply Qmult_le_compat_r; [exact Hbin|].
      change 0%Q with (inject_Z 0). rewrite <- Zle_Qle. lia.
Qed.

(** The doubles of [[0, 1)] stop at [1 - 2^-53]. *)
Lemma isDouble01_range (u : Q) :
  isDouble01 u = true ->
  (0 <= u)%Q /\ (u <= 9007199254740991 # 9007199254740992)%Q.
Proof.
  unfold isDouble01. intros H.
  repeat (apply andb_prop in H; destruct H as [H ?]).
  rewrite <- (Qred_correct u).
  destruct (Qred u) as [a p]. cbn [Qnum Qden] in *.
  unfold Qle. cbn [Qnum Qden].
  change (2 ^ 53) with 9007199254740992 in *.
  split; [lia|].
  destruct (Z.le_gt_cases (Z.pos p) 9007199254740992); nia.
Qed.

Lemma isDouble01_lt_1 (u : Q) : isDouble01 u = true -> (u < 1)%Q.
Proof.
  intros H. apply isDouble01_range in H as [_ H].
  eapply Qle_lt_trans; [exact H | reflexivity].
Qed.

Lemma roundDouble_small (m : Z) :
  0 <= m < 2 ^ 53 -> (roundDouble (inject_Z m) == inject_Z m)%Q.
Proof.
  intros Hm. unfold roundDouble.
  destruct (inject_Z m ?= 0)%Q eqn:E.
  - apply Qeq_alt in E. now rewrite E.
  - apply Qlt_alt in E. exfalso. change 0%Q with (inject_Z 0) in E.
    rewrite <- Zlt_Qlt in E. lia.
  - apply Qgt_alt in E.
    assert (H53 : (inject_Z m < 2 ^ 53)%Q).
    { rewrite two_power_Z by lia. rewrite <- Zlt_Qlt. lia. }
    destruct (roundPositive_scaled _ 53 E H53 ltac:(lia)) as (D & HD & Hr & _).
    change (2 ^ (53 - 53)) with 1 in HD.
    rewrite Hr. rewrite <- inject_Z_mult, roundHalfEven_Z, inject_Z_mult.
    field. intros H. unfold Qeq in H. cbn in H. lia.
Qed.

(** ** [addRandomTile] *)

(** [Math.floor(Math.random() * n)] is an index below [n], and the draws
    that give the index [k] are those of [[k / n, (k + 1) / n)], up to the
    rounding of the product. *)
Lemma random_index (u : Q) (n : nat) :
  isDouble01 u = true -> (0 < n <= 16)%nat ->
  let k := Qfloor (mulDouble u (inject_Z (Z.of_nat n))) in
  0 <= k < Z.of_nat n
  /\ (inject_Z k - (1 # 2 ^ 50) <= u * inject_Z (Z.of_nat n))%Q
  /\ (u * inject_Z (Z.of_nat n) < inject_Z k + 1)%Q.
Proof.
  intros Hu Hn.
  destruct (isDouble01_range u Hu) as [Hu0 Hu1].
  set (m := Z.of_nat n). assert (Hm : 1 <= m <= 16) by lia.
  set (x := (u * inject_Z m)%Q).
  assert (Hm0 : (0 < inject_Z m)%Q).
  { change 0%Q with (inject_Z 0). rewrite <- Zlt_Qlt. lia. }
  assert (Hx0 : (0 <= x)%Q).
  { unfold x. apply Qmult_le_0_compat; [exact Hu0 | now apply Qlt_le_weak]. }
  assert (Hx1 : (x <= (9007199254740991 # 9007199254740992) * inject_Z m)%Q).
  { unfold x. apply Qmult_le_compat_r; [exact Hu1 | now apply Qlt_le_weak]. }
  unfold mulDouble, roundDouble. fold m. fold x.
  destruct (x ?= 0)%Q eqn:E.
  - apply Qeq_alt in E. cbv zeta. change (Qfloor 0) with 0.
    split; [lia|]. rewrite E. split; [unfold Qle; cbn; lia | reflexivity].
  - apply Qlt_alt in E. exfalso. revert Hx0 E. generalize x. intros q ? ?. lra.
  - apply Qgt_alt in E.
    assert (H16 : (x < 2 ^ 4)%Q).
    { change (2 ^ 4)%Q with (inject_Z 16). 
      assert (Hm16 : (inject_Z m <= inject_Z 16)%Q) by (rewrite <- Zle_Qle; lia).
      revert Hx1 Hm16. generalize x (inject_Z m). intros q q' ? ?.
      change (inject_Z 16) with 16%Q in *. lra. }
    destruct (roundPositive_scaled x 4 E H16 ltac:(lia)) as (D & HD & Hr & Hulp).
    change (2 ^ (53 - 4)) with 562949953421312 in HD.
    assert (HD0 : 0 < D) by lia.
    assert (HDq : (0 < inject_Z D)%Q).
    { change 0%Q with (inject_Z 0). rewrite <- Zlt_Qlt. lia. }
    cbv zeta. rewrite (Qfloor_comp _ _ Hr), Qfloor_div by exact HD0.
    set (X := (x * inject_Z D)%Q) in *.
    set (R := roundHalfEven X).
    pose proof (roundHalfEven_near X) as [Hlo Hhi]. fold R in Hlo, Hhi.
    assert (HX0 : (0 <= X)%Q).
    { unfold X. apply Qmult_le_0_compat; [exact Hx0 | now apply Qlt_le_weak]. }
    assert (HR0 : 0 <= R).
    { apply (roundHalfEven_above X 0). exact HX0. }
    (* the product is at least half a unit below n *)
    assert (HXN : (X <= (9007199254740991 # 9007199254740992) * inject_Z (m * D))%Q).
    { unfold X. rewrite inject_Z_mult, Qmult_assoc.
      apply Qmult_le_compat_r; [exact Hx1 | now apply Qlt_le_weak]. }
    assert (HX52 : 2 ^ 52 < m * D).
    { destruct Hulp as [Hulp|Hulp]; [|nia].
      rewrite Zlt_Qlt. eapply Qle_lt_trans; [exact Hulp|].
      eapply Qle_lt_trans; [exact HXN|].
      assert (HmD : (0 < inject_Z (m * D))%Q).
      { change 0%Q with (inject_Z 0). rewrite <- Zlt_Qlt. nia. }
      revert HmD. generalize (inject_Z (m * D)). intros q ?. lra. }
    assert (HRN : R < m * D).
    { apply roundHalfEven_below. fold X.
      assert (H52 : (inject_Z (2 ^ 52) < inject_Z (m * D))%Q) by now rewrite <- Zlt_Qlt.
      change (inject_Z (2 ^ 52)) with 4503599627370496%Q in H52.
      revert HXN H52. generalize X (inject_Z (m * D)). intros q q' ? ?. lra. }
    assert (Hk : 0 <= R / D < m).
    { split; [apply Z.div_pos; lia | apply Z.div_lt_upper_bound; lia]. }
    split; [exact Hk|].
    pose proof (Z.mul_div_le R D HD0) as Hk1.
    pose proof (Z.mul_succ_div_gt R D HD0) as Hk2.
    set (k := R / D) in *. clearbody k.
    split.
    + (* k - 2^-50 <= x, from k D <= R <= X + 1/2 *)
      apply (Qmult_le_r _ _ (inject_Z D) HDq). fold X.
      assert (HkR : (inject_Z (D * k) <= inject_Z R)%Q) by now rewrite <- Zle_Qle.
      assert (HD49 : (562949953421312 <= inject_Z D)%Q).
      { change 562949953421312%Q with (inject_Z 562949953421312). now rewrite <- Zle_Qle. }
      rewrite inject_Z_mult in HkR.
      revert Hlo HkR HD49. generalize X (inject_Z R) (inject_Z D) (inject_Z k).
      intros q1 q2 q3 q4 ? ? ?.
      change (1 # 2 ^ 50) with (1 # 1125899906842624). nra.
    + (* x < k + 1: otherwise the rounded product is at least k + 1 *)
      destruct (Qlt_le_dec x (inject_Z k + 1)) as [Hlt|Hge]; [exact Hlt|].
      exfalso.
      assert (HR1 : D * (k + 1) <= R).
      { apply (roundHalfEven_above X). unfold X.
        rewrite Z.mul_comm, inject_Z_mult, inject_Z_plus.
        apply Qmult_le_compat_r; [exact Hge | now apply Qlt_le_weak]. }
      unfold Z.succ in Hk2. lia.
Qed.

(** The product is rounded before [Math.floor]: with 11 empty cells and
    the draw 1228254443828317 / 2^52 the exact product is 3 - 2^-52,
    halfway between two doubles; it is rounded to 3, and the index is 3
    where the integer part of the exact product is 2. *)
Lemma random_index_tie :
  isDouble01 (1228254443828317 # 4503599627370496) = true
  /\ Qfloor (mulDouble (1228254443828317 # 4503599627370496) (inject_Z 11)) = 3
  /\ Qfloor ((1228254443828317 # 4503599627370496) * inject_Z 11) = 2.
Proof. vm_compute. repeat split. Qed.

Lemma addRandomTile_full (u1 u2 : Q) (g : Grid) :
  wf_grid g = true -> emptyCells g = [] -> addRandomTile u1 u2 g = Ok g.
Proof.
  intros Hwf He. unfold addRandomTile.
  rewrite (emptyCellsLoop_spec g cellOrder Hwf cellOrder_inRange).
  fold (emptyCells g). rewrite He. reflexivity.
Qed.

Lemma emptyCells_length (g : Grid) : (length (emptyCells g) <= 16)%nat.
Proof. unfold emptyCells. apply (length_filter _ cellOrder). Qed.

Lemma addRandomTile_some (u1 u2 : Q) (g : Grid) :
  wf_grid g = true -> emptyCells g ≠ [] -> isDouble01 u1 = true ->
  exists r c,
    emptyCells g
      !! Z.to_nat (Qfloor (mulDouble u1 (inject_Z (Z.of_nat (length (emptyCells g))))))
    = Some (r, c)
    /\ addRandomTile u1 u2 g = Ok (setCell g r c (spawnValue u2)).
Proof.
  intros Hwf He H1. unfold addRandomTile.
  rewrite (emptyCellsLoop_spec g cellOrder Hwf cellOrder_inRange).
  fold (emptyCells g). cbn [mbind result_bind].
  assert (Hn : (0 < length (emptyCells g) <= 16)%nat).
  { split; [|apply emptyCells_length]. destruct (emptyCells g); [congruence | cbn; lia]. }
  pose proof (random_index u1 _ H1 Hn) as [[Hk0 Hk1] _].
  set (k := Qfloor (mulDouble u1 (inject_Z (Z.of_nat (length (emptyCells g)))))) in *.
  destruct (Nat.ltb_spec 0 (length (emptyCells g))) as [_|]; [|lia].
  destruct (Z.ltb_spec k 0) as [|_]; [lia|].
  destruct (emptyCells g !! Z.to_nat k) as [[r c]|] eqn:Hl.
  - exists r, c. split; reflexivity.
  - apply lookup_ge_None in Hl. lia.
Qed.

Lemma setCell_wf (g : Grid) (r c : nat) (v : Z) :
  wf_grid g = true -> wf_grid (setCell g r c v) = true.
Proof.
  intros (a0&a1&a2&a3&b0&b1&b2&b3&c0&c1&c2&c3&d0&d1&d2&d3&->)%wf_grid_shape.
  unfold setCell.
  destruct r as [|[|[|[|?]]]]; [| | | |reflexivity];
    (destruct c as [|[|[|[|?]]]]; reflexivity).
Qed.

Lemma cellAt_setCell (g : Grid) (r c : nat) (v : Z) (r' c' : nat) :
  is_Some (cellAt g r c) ->
  cellAt (setCell g r c v) r' c'
  = if decide ((r, c) = (r', c')) then Some v else cellAt g r' c'.
Proof.
  unfold cellAt, setCell. intros [x Hx].
  destruct (g !! r) as [row|] eqn:Hr; [|discriminate]. cbn in Hx.
  pose proof (lookup_lt_Some _ _ _ Hr) as Hlr.
  pose proof (lookup_lt_Some _ _ _ Hx) as Hlc.
  destruct (decide (r = r')) as [<-|Hne].
  - rewrite list_lookup_insert_eq by exact Hlr. cbn.
    destruct (decide (c = c')) as [<-|Hnc].
    + rewrite list_lookup_insert_eq by exact Hlc. now rewrite decide_True.
    + rewrite list_lookup_insert_ne by exact Hnc. rewrite Hr. cbn.
      now rewrite decide_False by congruence.
  - rewrite list_lookup_insert_ne by exact Hne.
    now rewrite decide_False by congruence.
Qed.

Lemma findNewTilePosLoop_ok (oldGrid newGrid : Grid) (cells : list (nat * nat)) :
  wf_grid oldGrid = true -> wf_grid newGrid = true -> Forall inRange cells ->
  exists pos, findNewTilePosLoop cells oldGrid newGrid = Ok pos.
Proof.
  intros Ho Hn H. induction H as [|[r c] cells [Hr Hc] H [pos IH]]; [now exists None|].
  cbn [findNewTilePosLoop].
  rewrite (readAt_wf oldGrid r c), (readAt_wf newGrid r c) by assumption.
  cbn [mbind result_bind].
  destruct (decide (cellAt oldGrid r c = Some 0)); [|now exists pos].
  cbn [mbind result_bind].
  destruct (decide (cellAt newGrid r c ≠ Some 0)); [now eexists | now exists pos].
Qed.

(** ** [checkGameOver] *)

Lemma checkGameOverLoop_spec (g : Grid) (cells : list (nat * nat)) :
  wf_grid g = true -> Forall inRange cells ->
  exists b, checkGameOverLoop cells g = Ok b /\ (b = true <-> Forall (cellFine g) cells).
Proof.
  intros Hwf H. induction H as [|[r c] cells [Hr Hc] H (b & IH & Hb)].
  - exists true. split; [reflexivity | split; auto].
  - cbn [fst snd] in Hr, Hc. cbn [checkGameOverLoop].
    rewrite (readAt_wf g r c) by assumption. cbn [mbind result_bind].
    assert (Hs : is_Some (cellAt g r c)) by now apply cellAt_wf.
    destruct (decide (cellAt g r c = Some 0)) as [E0|E0].
    { exists false. split; [reflexivity|]. split; [discriminate|].
      intros [[? _] _]%Forall_cons. now cbn in *. }
    assert (Hbelow : (if decide (r < TILE_COUNT - 1)%nat
                      then w ← readAt g (r + 1) c; Ok (bool_decide (cellAt g r c = w))
                      else Ok false)
                     = Ok (bool_decide (cellAt g r c = cellAt g (r + 1) c))).
    { destruct (decide (r < TILE_COUNT - 1)%nat) as [Hlt|Hge].
      - rewrite (readAt_wf g (r + 1) c) by (assumption || (unfold TILE_COUNT in *; lia)).
        reflexivity.
      - rewrite bool_decide_eq_false_2; [reflexivity|].
        assert (Hn : cellAt g (r + 1) c = None).
        { destruct (cellAt g (r + 1) c) eqn:E; [|reflexivity].
          assert (is_Some (cellAt g (r + 1) c)) as [? _]%cellAt_wf by (rewrite E; eauto);
            [unfold TILE_COUNT in *; lia | exact Hwf]. }
        rewrite Hn. destruct Hs as [x ->]. discriminate. }
    rewrite Hbelow. cbn [mbind result_bind].
    case_bool_decide as E1.
    { exists false. split; [reflexivity|]. split; [discriminate|].
      intros [(_ & ? & _) _]%Forall_cons. now cbn in *. }
    assert (Hbeside : (if decide (c < TILE_COUNT - 1)%nat
                       then w ← readAt g r (c + 1); Ok (bool_decide (cellAt g r c = w))
                       else Ok false)
                      = Ok (bool_decide (cellAt g r c = cellAt g r (c + 1)))).
    { destruct (decide (c < TILE_COUNT - 1)%nat) as [Hlt|Hge].
      - rewrite (readAt_wf g r (c + 1)) by assumption. reflexivity.
      - rewrite bool_decide_eq_false_2; [reflexivity|].
        assert (Hn : cellAt g r (c + 1) = None).
        { destruct (cellAt g r (c + 1)) eqn:E; [|reflexivity].
          assert (is_Some (cellAt g r (c + 1))) as [_ ?]%cellAt_wf by (rewrite E; eauto);
            [unfold TILE_COUNT in *; lia | exact Hwf]. }
        rewrite Hn. destruct Hs as [x ->]. discriminate. }
    rewrite Hbeside. cbn [mbind result_bind].
    case_bool_decide as E2.
    { exists false. split; [reflexivity|]. split; [discriminate|].
      intros [(_ & _ & ?) _]%Forall_cons. now cbn in *. }
    exists b. split; [exact IH|]. rewrite Hb. split.
    + intros Hall. apply Forall_cons. split; [|exact Hall]. now repeat split.
    + now intros [_ ?]%Forall_cons.
Qed.

Lemma cellFine_lostGrid (g : Grid) :
  wf_grid g = true -> Forall (cellFine g) cellOrder <-> lostGrid g.
Proof.
  intros Hwf. rewrite Forall_forall. split.
  - intros H. split.
    + intros r c E.
      assert (is_Some (cellAt g r c)) as [Hr Hc]%cellAt_wf by (rewrite E; eauto);
        [|exact Hwf].
      destruct (H (r, c) (elem_of_cellOrder r c Hr Hc)) as [H0 _]. now apply H0.
    + intros r c v E.
      assert (is_Some (cellAt g r c)) as [Hr Hc]%cellAt_wf by (rewrite E; eauto);
        [|exact Hwf].
      destruct (H (r, c) (elem_of_cellOrder r c Hr Hc)) as (_ & H1 & H2).
      cbn in H1, H2. rewrite E in H1, H2. split; congruence.
  - intros [H0 H1] [r c] Hin. unfold cellFine. cbn [fst snd].
    split; [apply H0|].
    destruct (cellAt g r c) as [v|] eqn:E.
    + destruct (H1 r c v E). split; congruence.
    + exfalso. eapply Forall_forall in Hin; [|apply cellOrder_inRange].
      destruct Hin as [Hr Hc]. cbn in Hr, Hc.
      assert (is_Some (cellAt g r c)) as [? ?] by now apply cellAt_wf.
      congruence.
Qed.

(** ** The board and its grid *)

Lemma wf_grid_ext (g g' : Grid) :
  wf_grid g = true -> wf_grid g' = true ->
  (forall r c, cellAt g r c = cellAt g' r c) -> g = g'.
Proof.
  intros (a0&a1&a2&a3&b0&b1&b2&b3&c0&c1&c2&c3&d0&d1&d2&d3&->)%wf_grid_shape
         (a0'&a1'&a2'&a3'&b0'&b1'&b2'&b3'&c0'&c1'&c2'&c3'&d0'&d1'&d2'&d3'&->)%wf_grid_shape H.
  pose proof (H 0 0)%nat as E00. pose proof (H 0 1)%nat as E01.
  pose proof (H 0 2)%nat as E02. pose proof (H 0 3)%nat as E03.
  pose proof (H 1 0)%nat as E10. pose proof (H 1 1)%nat as E11.
  pose proof (H 1 2)%nat as E12. pose proof (H 1 3)%nat as E13.
  pose proof (H 2 0)%nat as E20. pose proof (H 2 1)%nat as E21.
  pose proof (H 2 2)%nat as E22. pose proof (H 2 3)%nat as E23.
  pose proof (H 3 0)%nat as E30. pose proof (H 3 1)%nat as E31.
  pose proof (H 3 2)%nat as E32. pose proof (H 3 3)%nat as E33.
  cbn in *. congruence.
Qed.

Lemma placeTile_inRange (acc : Grid) (v : Z) (r c idc : nat) (n m : bool) :
  wf_grid acc = true -> inRange (r, c) ->
  placeTile acc (TileData.mk v c r idc n m) = Ok (setCell acc r c v).
Proof.
  intros Hwf [Hr Hc]. cbn [fst snd] in Hr, Hc.
  destruct (wf_grid_row acc r Hwf Hr) as (row & Hrow & Hlen).
  unfold placeTile, setCell. cbn [TileData.x TileData.y TileData.value].
  rewrite Hrow, Hlen.
  destruct (Nat.ltb_spec c TILE_COUNT) as [_|]; [reflexivity | lia].
Qed.

(** The tiles made from a grid hold the grid: [getGrid], started on any
    grid that is empty where the tiles go, rebuilds it there. *)
Lemma tilesLoop_getGridLoop (g : Grid) (pos : option (nat * nat))
    (mc : option (gset cellKey)) (cells : list (nat * nat)) :
  wf_grid g = true -> Forall inRange cells -> NoDup cells ->
  forall (idc : nat) (acc : Grid),
    wf_grid acc = true ->
    (forall rc, rc ∈ cells -> cellAt acc rc.1 rc.2 = Some 0) ->
    exists tiles next acc',
      tilesLoop cells g pos mc idc = Ok (tiles, next)
      /\ getGridLoop tiles acc = Ok acc'
      /\ wf_grid acc' = true
      /\ forall r c, cellAt acc' r c
                     = if decide ((r, c) ∈ cells) then cellAt g r c else cellAt acc r c.
Proof.
  intros Hwf Hin Hnd.
  induction Hin as [|[r c] cells Hrc Hin IH]; intros idc acc Hacc Hzero.
  - exists [], idc, acc.
    split; [reflexivity|]. split; [reflexivity|]. split; [exact Hacc|]. intros r c.
    rewrite decide_False by apply not_elem_of_nil. reflexivity.
  - apply NoDup_cons in Hnd as [Hnotin Hnd]. specialize (IH Hnd).
    pose proof Hrc as [Hr Hc]. cbn [fst snd] in Hr, Hc.
    cbn [tilesLoop]. rewrite (readAt_wf g r c) by assumption. cbn [mbind result_bind].
    assert (is_Some (cellAt g r c)) as [v Hv] by now apply cellAt_wf.
    rewrite Hv.
    assert (Hsome : is_Some (cellAt acc r c)) by now apply cellAt_wf.
    destruct (decide (v ≠ 0)) as [Hnz | Hz].
    + destruct (IH (S idc) (setCell acc r c v)) as (tiles & next & acc' & Ht & Hg & Hw & Hcells).
      { now apply setCell_wf. }
      { intros [r' c'] Hrc'. cbn [fst snd]. rewrite cellAt_setCell by exact Hsome.
        rewrite decide_False by (intros [= -> ->]; contradiction).
        now apply (Hzero (r', c')), elem_of_cons; right. }
      rewrite Ht. cbn [mbind result_bind].
      eexists _, next, acc'. split; [reflexivity|]. split; [|split; [exact Hw|]].
      * cbn [getGridLoop]. rewrite placeTile_inRange by assumption.
        cbn [mbind result_bind]. exact Hg.
      * intros r' c'. rewrite Hcells, cellAt_setCell by exact Hsome.
        destruct (decide ((r', c') ∈ cells)) as [Hi | Hni].
        -- rewrite decide_True by (apply elem_of_cons; now right). reflexivity.
        -- destruct (decide ((r, c) = (r', c'))) as [[= <- <-] | Hne].
           ++ rewrite decide_True by (apply elem_of_cons; now left). now rewrite Hv.
           ++ rewrite decide_False; [reflexivity|].
              intros [E | E]%elem_of_cons; [congruence | contradiction].
    + destruct (IH idc acc Hacc) as (tiles & next & acc' & Ht & Hg & Hw & Hcells).
      { intros rc Hrc'. apply Hzero, elem_of_cons. now right. }
      exists tiles, next, acc'.
      split; [exact Ht|]. split; [exact Hg|]. split; [exact Hw|].
      intros r' c'. rewrite Hcells.
      destruct (decide ((r', c') ∈ cells)) as [Hi | Hni].
      * rewrite decide_True by (apply elem_of_cons; now right). reflexivity.
      * destruct (decide ((r, c) = (r', c'))) as [[= <- <-] | Hne].
        -- rewrite decide_True by (apply elem_of_cons; now left).
           rewrite Hv. assert (v = 0) as -> by (destruct (decide (v = 0)); [assumption | contradiction]).
           apply (Hzero (r, c)), elem_of_cons. now left.
        -- rewrite decide_False; [reflexivity|].
           intros [E | E]%elem_of_cons; [congruence | contradiction].
Qed.

Lemma cellOrder_NoDup : NoDup cellOrder.
Proof. apply (bool_decide_unpack _). vm_compute. exact I. Qed.

(** [getGrid] reads back the grid that [transformToTileObjects] was given. *)
Lemma getGrid_transform (g : Grid) (pos : option (nat * nat))
    (mc : option (gset cellKey)) (idc : nat) :
  wf_grid g = true ->
  exists tiles next,
    transformToTileObjects g pos mc idc = Ok (tiles, next) /\ getGrid tiles = Ok g.
Proof.
  intros Hwf.
  destruct (tilesLoop_getGridLoop g pos mc cellOrder Hwf cellOrder_inRange cellOrder_NoDup
              idc (replicate TILE_COUNT (replicate TILE_COUNT 0)))
    as (tiles & next & acc' & Ht & Hg & Hw & Hcells).
  { reflexivity. }
  { intros [r c] Hrc. eapply Forall_forall in Hrc; [|apply cellOrder_inRange].
    destruct Hrc as [Hr Hc]. cbn [fst snd] in *. unfold TILE_COUNT in *.
    destruct r as [|[|[|[|?]]]]; try lia;
      destruct c as [|[|[|[|?]]]]; try lia; reflexivity. }
  exists tiles, next. split; [exact Ht|]. unfold getGrid. rewrite Hg. f_equal.
  apply wf_grid_ext; [exact Hw | exact Hwf |]. intros r c. rewrite Hcells.
  destruct (decide ((r, c) ∈ cellOrder)) as [Hi | Hni]; [reflexivity|].
  assert (Hout : ~ ((r < TILE_COUNT)%nat /\ (c < TILE_COUNT)%nat)).
  { intros [Hr Hc]. apply Hni. now apply elem_of_cellOrder. }
  destruct (cellAt g r c) eqn:E.
  { exfalso. apply Hout. apply (proj1 (cellAt_wf g r c Hwf)). rewrite E. eauto. }
  destruct (cellAt (replicate TILE_COUNT (replicate TILE_COUNT 0)) r c) eqn:E';
    [|reflexivity].
  exfalso. apply Hout.
  apply (proj1 (cellAt_wf (replicate TILE_COUNT (replicate TILE_COUNT 0)) r c eq_refl)).
  rewrite E'. eauto.
Qed.

(** ** [move] after the slide *)

Lemma move_guarded (s : AppState) (d : Direction) (u1 u2 : Q) (p : Pending) :
  isGameOver s && negb (isWin s) = true -> move s d u1 u2 p = (p, Ok tt).
Proof. intros H. unfold move. now rewrite H. Qed.

Lemma move_spec (s : AppState) (d : Direction) (u1 u2 : Q) (g : Grid) (p : Pending) :
  getGrid (board s) = Ok g ->
  wf_grid g = true ->
  isGameOver s && negb (isWin s) = false ->
  move s d u1 u2 p
  = match slideOutcome d g p with
    | (p1, Ok (g1, loc)) => if moved loc then afterSlide s u1 u2 g1 loc p1 else (p1, Ok tt)
    | (p1, Throw e) => (p1, Throw e)
    | (p1, Untyped) => (p1, Untyped)
    end.
Proof.
  intros Hb Hwf Hg. unfold move. rewrite Hg, bind_lift, Hb, M_bind_eq, slide_spec by exact Hwf.
  destruct (slideOutcome d g p) as [p1 [[g1 loc]| |]]; try reflexivity.
  destruct (moved loc); reflexivity.
Qed.

Lemma afterSlide_spec (s : AppState) (u1 u2 : Q) (g1 g2 : Grid) (loc : Locals)
    (p1 : Pending) :
  wf_grid g1 = true -> wf_grid g2 = true ->
  addRandomTile u1 u2 g1 = Ok g2 ->
  exists tiles nextId lost,
    getGrid tiles = Ok g2
    /\ checkGameOverLoop cellOrder g2 = Ok lost
    /\ (lost = true <-> lostGrid g2)
    /\ afterSlide s u1 u2 g1 loc p1 = (spawned s tiles nextId lost loc p1, Ok tt).
Proof.
  intros H1 H2 Ha.
  destruct (findNewTilePosLoop_ok g1 g2 cellOrder H1 H2 cellOrder_inRange) as [pos Hpos].
  destruct (checkGameOverLoop_spec g2 cellOrder H2 cellOrder_inRange) as (lost & Hl & Hiff).
  destruct (getGrid_transform g2 pos (Some (mergedCells loc)) (idCounter s) H2)
    as (tiles & nextId & Ht & Hgrid).
  exists tiles, nextId, lost.
  split; [exact Hgrid|]. split; [exact Hl|].
  split; [rewrite Hiff; now apply cellFine_lostGrid|].
  unfold afterSlide, findNewTilePos, checkGameOver, spawned.
  rewrite bind_lift, Ha. rewrite bind_lift. unfold findNewTilePos in Hpos. rewrite Hpos.
  rewrite bind_lift, Ht, Hl.
  destruct (gt (Int (score s + scoreToAdd loc)) (bestScore s));
    destruct lost; reflexivity.
Qed.

(** What is pending after a move never loses a merge of the log, and the
    win flag is the one the slide left. *)
Lemma afterSlide_frame (s : AppState) (u1 u2 : Q) (g1 : Grid) (loc : Locals)
    (p1 : Pending) :
  let p := (afterSlide s u1 u2 g1 loc p1).1 in
  pendingIsWin p = pendingIsWin p1 /\ mergeLog p = mergeLog p1.
Proof.
  unfold afterSlide, checkGameOver. cbv zeta.
  rewrite bind_lift.
  destruct (addRandomTile u1 u2 g1) as [g2| |]; [|split; reflexivity..].
  rewrite bind_lift.
  destruct (findNewTilePos g1 g2) as [pos| |]; [|split; reflexivity..].
  rewrite bind_lift.
  destruct (transformToTileObjects g2 pos (Some (mergedCells loc)) (idCounter s))
    as [[tiles nextId]| |]; [|split; reflexivity..].
  cbv beta iota.
  destruct (checkGameOverLoop cellOrder g2) as [[|]| |];
    destruct (gt (Int (score s + scoreToAdd loc)) (bestScore s));
    split; reflexivity.
Qed.

Lemma commit_noPending (s : AppState) : commit s noPending = s.
Proof. now destruct s. Qed.

Lemma allMerges_fixed (g : Grid) :
  wf_grid g = true -> map slideSpec g = g -> allMerges g = [].
Proof.
  intros (a0&a1&a2&a3&b0&b1&b2&b3&c0&c1&c2&c3&d0&d1&d2&d3&->)%wf_grid_shape [= E0 E1 E2 E3].
  unfold allMerges. cbn [map concat].
  now rewrite !slideSpec_fixed_no_merge by assumption.
Qed.

(** The outcome of a slide that returns. *)
Lemma slide_returns (d : Direction) (g : Grid) (p p1 : Pending) (g1 : Grid) (loc : Locals) :
  wf_grid g = true ->
  slide d g p = (p1, Ok (g1, loc)) ->
  let turned := Nat.iter (rotations d) quarterTurn g in
  p1 = logged p (allMerges turned) /\ g1 = slideGrid d g /\ loc = slideLocals turned
  /\ (tagThrows (rotations d) = true -> allMerges turned = []).
Proof.
  intros Hwf H. rewrite slide_spec in H by exact Hwf. unfold slideOutcome in H.
  cbv zeta in *.
  destruct (tagThrows (rotations d)).
  - destruct (allMerges (Nat.iter (rotations d) quarterTurn g)) as [|v ms] eqn:E;
      cbn [head] in H; [|discriminate].
    injection H as <- <- <-. auto.
  - injection H as <- <- <-. repeat split. discriminate.
Qed.

(** A slide that has nothing to move returns the grid it was given, in
    every direction. *)
Lemma slide_fixed (d : Direction) (g : Grid) (p : Pending) :
  wf_grid g = true ->
  slideGrid d g = g ->
  exists loc, slide d g p = (p, Ok (g, loc)) /\ moved loc = false.
Proof.
  intros Hwf Hfix.
  assert (Hwt : wf_grid (Nat.iter (rotations d) quarterTurn g) = true)
    by now apply iter_quarterTurn_wf.
  pose proof (proj1 (slideGrid_fixed d g Hwf) Hfix) as Hrows.
  rewrite slide_spec by exact Hwf. unfold slideOutcome. cbv zeta.
  rewrite (allMerges_fixed _ Hwt Hrows), logged_nil, Hfix.
  eexists. split; [now destruct (tagThrows (rotations d))|].
  rewrite slideLocals_moved by exact Hwt.
  now rewrite bool_decide_eq_true_2 by exact Hrows.
Qed.

(** ** The claims about a move *)

Lemma slide_changed_zero (d : Direction) (g : Grid) :
  wf_grid g = true -> slideGrid d g ≠ g -> 0 ∈ concat (slideGrid d g).
Proof.
  intros Hwf Hne.
  assert (Hwt : wf_grid (Nat.iter (rotations d) quarterTurn g) = true)
    by now apply iter_quarterTurn_wf.
  unfold slideGrid. apply iter_quarterTurn_elem; [now apply wf_map_slideSpec|].
  apply map_slideSpec_changed_zero; [exact Hwt|].
  intros E. apply Hne. now apply slideGrid_fixed.
Qed.

Lemma slide_changed_emptyCells (d : Direction) (g : Grid) :
  wf_grid g = true -> slideGrid d g ≠ g -> emptyCells (slideGrid d g) ≠ [].
Proof.
  intros Hwf Hne.
  pose proof (slide_changed_zero d g Hwf Hne) as H0.
  apply elem_of_concat_cellAt in H0 as (r & c & Hrc).
  assert (Hin : (r, c) ∈ emptyCells (slideGrid d g))
    by (apply emptyCells_elem; [now apply slideGrid_wf | exact Hrc]).
  intros E. rewrite E in Hin. now apply elem_of_nil in Hin.
Qed.

(** C10: when the slide-and-merge step returns a grid that differs from the
    grid it was given, that grid has an empty cell; the list [emptyCells]
    that [addRandomTile] builds from it is not empty, and [addRandomTile]
    puts a tile on one of its empty cells instead of returning the grid
    as it is. *)
Theorem slide_change_leaves_empty_cell :
  forall (d : Direction) (g : Grid) (p p1 : Pending) (g1 : Grid) (loc : Locals),
    wf_grid g = true ->
    slide d g p = (p1, Ok (g1, loc)) ->
    g1 ≠ g ->
    (exists r c, cellAt g1 r c = Some 0)
    /\ (exists cells, emptyCellsLoop cellOrder g1 = Ok cells /\ cells ≠ [])
    /\ (forall u1 u2 : Q, isDouble01 u1 = true ->
          exists r c, cellAt g1 r c = Some 0
                      /\ addRandomTile u1 u2 g1 = Ok (setCell g1 r c (spawnValue u2))).
Proof.
  intros d g p p1 g1 loc Hwf Hs Hne.
  destruct (slide_returns d g p p1 g1 loc Hwf Hs) as (_ & -> & _ & _).
  assert (Hwf1 : wf_grid (slideGrid d g) = true) by now apply slideGrid_wf.
  pose proof (slide_changed_zero d g Hwf Hne) as H0.
  apply elem_of_concat_cellAt in H0 as (r & c & Hrc).
  assert (Hin : (r, c) ∈ emptyCells (slideGrid d g)) by now apply emptyCells_elem.
  assert (Hnil : emptyCells (slideGrid d g) ≠ []).
  { intros E. rewrite E in Hin. now apply elem_of_nil in Hin. }
  split; [now exists r, c|]. split.
  - exists (emptyCells (slideGrid d g)). split; [|exact Hnil].
    now apply emptyCellsLoop_spec; [|apply cellOrder_inRange].
  - intros u1 u2 Hu1.
    destruct (addRandomTile_some u1 u2 _ Hwf1 Hnil Hu1) as (r' & c' & Hl & Ha).
    exists r', c'. split; [|exact Ha].
    apply list_elem_of_lookup_2 in Hl. now apply emptyCells_elem in Hl.
Qed.

Lemma slide_change_leaves_empty_cell_witness :
  exists r c, cellAt [[2; 0; 0; 0]; [0; 0; 0; 0]; [0; 0; 0; 0]; [0; 0; 0; 0]] r c = Some 0.
Proof.
  refine (proj1 (slide_change_leaves_empty_cell left
            [[0; 2; 0; 0]; [0; 0; 0; 0]; [0; 0; 0; 0]; [0; 0; 0; 0]]
            noPending noPending
            [[2; 0; 0; 0]; [0; 0; 0; 0]; [0; 0; 0; 0]; [0; 0; 0; 0]]
            (mkLocals 0 true ∅) _ _ _)).
  - reflexivity.
  - vm_compute. reflexivity.
  - discriminate.
Defined.

(** If the slide-and-merge step returns the grid it was given, the grid of
    the board, the move changes nothing: the handler ends normally and the
    next state is the state before it, with its board (no new tile), score,
    best score, stored best score and the two status flags.  The step
    returns in every move to the left and in the moves of the other
    directions that merge nothing. *)
Theorem unchanged_move_is_noop :
  forall (s : AppState) (d : Direction) (u1 u2 : Q) (g : Grid) (p1 : Pending)
         (g1 : Grid) (loc : Locals),
    getGrid (board s) = Ok g ->
    wf_grid g = true ->
    slide d g noPending = (p1, Ok (g1, loc)) ->
    g1 = g ->
    handle s (move s d u1 u2) = (s, Ok tt).
Proof.
  intros s d u1 u2 g p1 g1 loc Hb Hwf Hs ->.
  unfold handle.
  destruct (isGameOver s && negb (isWin s)) eqn:Hg.
  { rewrite move_guarded by exact Hg. now rewrite commit_noPending. }
  rewrite (move_spec s d u1 u2 g), <- slide_spec, Hs by assumption.
  destruct (slide_returns d _ _ _ _ _ Hwf Hs) as (-> & Hg1 & -> & _).
  symmetry in Hg1. apply slideGrid_fixed in Hg1; [|exact Hwf].
  rewrite slideLocals_moved by now apply iter_quarterTurn_wf.
  rewrite bool_decide_eq_true_2 by exact Hg1. cbn [negb].
  rewrite allMerges_fixed, logged_nil by (now apply iter_quarterTurn_wf || exact Hg1).
  now rewrite commit_noPending.
Qed.

Lemma unchanged_move_is_noop_witness :
  handle fullState (move fullState right (1 # 2) (1 # 2)) = (fullState, Ok tt).
Proof.
  refine (unchanged_move_is_noop fullState right (1 # 2) (1 # 2)
            [[2; 4; 2; 4]; [4; 2; 4; 2]; [2; 4; 2; 4]; [4; 2; 4; 8]] noPending
            [[2; 4; 2; 4]; [4; 2; 4; 2]; [2; 4; 2; 4]; [4; 2; 4; 8]]
            (mkLocals 0 false ∅) _ _ _ _).
  - vm_compute. reflexivity.
  - reflexivity.
  - vm_compute. reflexivity.
  - reflexivity.
Defined.

Lemma slideSpec_fine (a b c d : Z) :
  a ≠ 0 -> b ≠ 0 -> c ≠ 0 -> d ≠ 0 -> a ≠ b -> b ≠ c -> c ≠ d ->
  slideSpec [a; b; c; d] = [a; b; c; d].
Proof.
  intros Ha Hb Hc Hd Hab Hbc Hcd.
  assert (Hcomp : compact [a; b; c; d] = [a; b; c; d]).
  { apply (compact_packed [a; b; c; d] 0). repeat constructor; assumption. }
  unfold slideSpec. rewrite Hcomp. cbn [mergePairs].
  apply Z.eqb_neq in Hab, Hbc, Hcd. rewrite Hab, Hbc, Hcd. reflexivity.
Qed.

Lemma lostGrid_fixed (d : Direction) (g : Grid) :
  wf_grid g = true -> lostGrid g -> slideGrid d g = g.
Proof.
  intros Hwf [H0 H1]. apply slideGrid_fixed; [exact Hwf|].
  destruct (wf_grid_shape g Hwf)
    as (a0&a1&a2&a3&b0&b1&b2&b3&c0&c1&c2&c3&d0&d1&d2&d3&->).
  assert (Hz : forall r c v, cellAt [[a0; a1; a2; a3]; [b0; b1; b2; b3];
                                     [c0; c1; c2; c3]; [d0; d1; d2; d3]] r c = Some v ->
                             v ≠ 0) by (intros r c v E ->; now apply (H0 r c)).
  assert (Hv : forall r c v w, cellAt [[a0; a1; a2; a3]; [b0; b1; b2; b3];
                                       [c0; c1; c2; c3]; [d0; d1; d2; d3]] r c = Some v ->
                               cellAt [[a0; a1; a2; a3]; [b0; b1; b2; b3];
                                       [c0; c1; c2; c3]; [d0; d1; d2; d3]] (r + 1) c = Some w ->
                               v ≠ w)
    by (intros r c v w E E' Hvw; subst w; destruct (H1 r c v E) as [Hx _]; now apply Hx).
  assert (Hh : forall r c v w, cellAt [[a0; a1; a2; a3]; [b0; b1; b2; b3];
                                       [c0; c1; c2; c3]; [d0; d1; d2; d3]] r c = Some v ->
                               cellAt [[a0; a1; a2; a3]; [b0; b1; b2; b3];
                                       [c0; c1; c2; c3]; [d0; d1; d2; d3]] r (c + 1) = Some w ->
                               v ≠ w)
    by (intros r c v w E E' Hvw; subst w; destruct (H1 r c v E) as [_ Hx]; now apply Hx).
  pose proof (Hz 0 0 _ eq_refl)%nat. pose proof (Hz 0 1 _ eq_refl)%nat.
  pose proof (Hz 0 2 _ eq_refl)%nat. pose proof (Hz 0 3 _ eq_refl)%nat.
  pose proof (Hz 1 0 _ eq_refl)%nat. pose proof (Hz 1 1 _ eq_refl)%nat.
  pose proof (Hz 1 2 _ eq_refl)%nat. pose proof (Hz 1 3 _ eq_refl)%nat.
  pose proof (Hz 2 0 _ eq_refl)%nat. pose proof (Hz 2 1 _ eq_refl)%nat.
  pose proof (Hz 2 2 _ eq_refl)%nat. pose proof (Hz 2 3 _ eq_refl)%nat.
  pose proof (Hz 3 0 _ eq_refl)%nat. pose proof (Hz 3 1 _ eq_refl)%nat.
  pose proof (Hz 3 2 _ eq_refl)%nat. pose proof (Hz 3 3 _ eq_refl)%nat.
  pose proof (Hh 0 0 _ _ eq_refl eq_refl)%nat. pose proof (Hh 0 1 _ _ eq_refl eq_refl)%nat.
  pose proof (Hh 0 2 _ _ eq_refl eq_refl)%nat. pose proof (Hh 1 0 _ _ eq_refl eq_refl)%nat.
  pose proof (Hh 1 1 _ _ eq_refl eq_refl)%nat. pose proof (Hh 1 2 _ _ eq_refl eq_refl)%nat.
  pose proof (Hh 2 0 _ _ eq_refl eq_refl)%nat. pose proof (Hh 2 1 _ _ eq_refl eq_refl)%nat.
  pose proof (Hh 2 2 _ _ eq_refl eq_refl)%nat. pose proof (Hh 3 0 _ _ eq_refl eq_refl)%nat.
  pose proof (Hh 3 1 _ _ eq_refl eq_refl)%nat. pose proof (Hh 3 2 _ _ eq_refl eq_refl)%nat.
  pose proof (Hv 0 0 _ _ eq_refl eq_refl)%nat. pose proof (Hv 1 0 _ _ eq_refl eq_refl)%nat.
  pose proof (Hv 2 0 _ _ eq_refl eq_refl)%nat. pose proof (Hv 0 1 _ _ eq_refl eq_refl)%nat.
  pose proof (Hv 1 1 _ _ eq_refl eq_refl)%nat. pose proof (Hv 2 1 _ _ eq_refl eq_refl)%nat.
  pose proof (Hv 0 2 _ _ eq_refl eq_refl)%nat. pose proof (Hv 1 2 _ _ eq_refl eq_refl)%nat.
  pose proof (Hv 2 2 _ _ eq_refl eq_refl)%nat. pose proof (Hv 0 3 _ _ eq_refl eq_refl)%nat.
  pose proof (Hv 1 3 _ _ eq_refl eq_refl)%nat. pose proof (Hv 2 3 _ _ eq_refl eq_refl)%nat.
  clear H0 H1 Hz Hv Hh Hwf.
  destruct d; cbn [rotations Nat.iter nat_rect quarterTurn map];
    rewrite !slideSpec_fine by (assumption || (apply not_eq_sym; assumption));
    reflexivity.
Qed.

(** C7: when the slide-and-merge step of a move changes the grid, the move
    ends normally; in the grid of the next board exactly one cell that was
    empty after the slide holds a new tile, every other cell is as the
    slide left it; the new tile is 2 when the second random draw is below
    9/10 and 4 otherwise; its cell is the [k]-th empty cell in row order,
    where [k] is the integer part of the product, computed as a double, of
    the first draw and the number [n] of empty cells: the exact product is
    below [k + 1] and at most [2^-50] below [k], so that each empty cell
    is chosen by the draws of an interval of length [1 / n], up to the
    rounding; and the score grows by the sum of the values the merges of
    the move produced. *)
Theorem changing_move_spawns_one_tile :
  forall (s : AppState) (d : Direction) (u1 u2 : Q) (g : Grid) (p1 : Pending)
         (g1 : Grid) (loc : Locals),
    getGrid (board s) = Ok g ->
    wf_grid g = true ->
    gameOverIsLost s g ->
    isDouble01 u1 = true ->
    slide d g noPending = (p1, Ok (g1, loc)) ->
    g1 ≠ g ->
    exists (s' : AppState) (g' : Grid) (r0 c0 k : nat),
      handle s (move s d u1 u2) = (s', Ok tt)
      /\ getGrid (board s') = Ok g'
      /\ cellAt g1 r0 c0 = Some 0
      /\ cellAt g' r0 c0 = Some (spawnValue u2)
      /\ (forall r c, (r, c) ≠ (r0, c0) -> cellAt g' r c = cellAt g1 r c)
      /\ (spawnValue u2 = 2 /\ (u2 < 9 # 10)%Q \/ spawnValue u2 = 4 /\ (9 # 10 <= u2)%Q)
      /\ emptyCells g1 !! k = Some (r0, c0)
      /\ Z.of_nat k = Qfloor (mulDouble u1 (inject_Z (Z.of_nat (length (emptyCells g1)))))
      /\ (inject_Z (Z.of_nat k) - (1 # 2 ^ 50)
          <= u1 * inject_Z (Z.of_nat (length (emptyCells g1))))%Q
      /\ (u1 * inject_Z (Z.of_nat (length (emptyCells g1))) < inject_Z (Z.of_nat k) + 1)%Q
      /\ score s' = score s + sumZ (mergeLog p1).
Proof.
  intros s d u1 u2 g p1 g1 loc Hb Hwf Hinv Hu1 Hs Hne.
  destruct (slide_returns d _ _ _ _ _ Hwf Hs) as (Hp1 & Hg1 & Hloc & _).
  assert (Hwt : wf_grid (Nat.iter (rotations d) quarterTurn g) = true)
    by now apply iter_quarterTurn_wf.
  assert (Hwf1 : wf_grid g1 = true) by (rewrite Hg1; now apply slideGrid_wf).
  assert (Hg : isGameOver s && negb (isWin s) = false).
  { destruct (isGameOver s) eqn:Ho, (isWin s) eqn:Hw; try reflexivity.
    exfalso. apply Hne. rewrite Hg1. apply lostGrid_fixed; [exact Hwf|].
    now apply Hinv. }
  assert (Hmoved : moved loc = true).
  { rewrite Hloc, slideLocals_moved by exact Hwt.
    rewrite bool_decide_eq_false_2; [reflexivity|].
    intros E. apply Hne. rewrite Hg1. now apply slideGrid_fixed. }
  assert (Hnil : emptyCells g1 ≠ []).
  { rewrite Hg1. apply slide_changed_emptyCells; [exact Hwf|]. now rewrite <- Hg1. }
  destruct (addRandomTile_some u1 u2 g1 Hwf1 Hnil Hu1) as (r0 & c0 & Hl & Ha).
  set (n := length (emptyCells g1)) in *.
  assert (Hn : (0 < n <= 16)%nat).
  { split; [|apply emptyCells_length].
    unfold n; destruct (emptyCells g1); [congruence | cbn; lia]. }
  pose proof (random_index u1 n Hu1 Hn) as [[Hk0 Hk1] [Hlow Hhigh]].
  set (f := Qfloor (mulDouble u1 (inject_Z (Z.of_nat n)))) in *.
  assert (H0 : cellAt g1 r0 c0 = Some 0).
  { apply list_elem_of_lookup_2 in Hl. now apply emptyCells_elem in Hl. }
  assert (Hwf2 : wf_grid (setCell g1 r0 c0 (spawnValue u2)) = true) by now apply setCell_wf.
  destruct (afterSlide_spec s u1 u2 g1 _ loc p1 Hwf1 Hwf2 Ha)
    as (tiles & nextId & lost & Hgrid & _ & _ & Hafter).
  eexists _, (setCell g1 r0 c0 (spawnValue u2)), r0, c0, (Z.to_nat f).
  split.
  { unfold handle.
    rewrite (move_spec s d u1 u2 g), <- slide_spec, Hs, Hmoved, Hafter by assumption.
    reflexivity. }
  change (board (commit s (spawned s tiles nextId lost loc p1))) with tiles.
  change (score (commit s (spawned s tiles nextId lost loc p1)))
    with (score s + scoreToAdd loc).
  assert (Hsome : is_Some (cellAt g1 r0 c0)) by (rewrite H0; eauto).
  split; [exact Hgrid|].
  repeat split.
  - exact H0.
  - rewrite cellAt_setCell by exact Hsome. now rewrite decide_True.
  - intros r c Hrc. rewrite cellAt_setCell by exact Hsome.
    now rewrite decide_False by congruence.
  - unfold spawnValue. destruct (Qle_bool (9 # 10) u2) eqn:E.
    + right. split; [reflexivity|]. now apply Qle_bool_iff.
    + left. split; [reflexivity|]. apply Qnot_le_lt. intros Hle.
      apply Qle_bool_iff in Hle. congruence.
  - exact Hl.
  - now rewrite Z2Nat.id by lia.
  - rewrite Z2Nat.id by lia. exact Hlow.
  - rewrite Z2Nat.id by lia. exact Hhigh.
  - rewrite Hloc, slideLocals_score, Hp1 by exact Hwt. reflexivity.
Qed.

Lemma changing_move_spawns_one_tile_witness :
  exists s' : AppState,
    handle changing_state (move changing_state left (1 # 2) (1 # 2)) = (s', Ok tt)
    /\ score s' = 12.
Proof.
  destruct (changing_move_spawns_one_tile changing_state left (1 # 2) (1 # 2)
              [[2; 2; 4; 4]; [0; 0; 0; 0]; [0; 0; 0; 0]; [0; 0; 0; 0]]
              (mkPending None None None None None None [4; 8] None)
              [[4; 8; 0; 0]; [0; 0; 0; 0]; [0; 0; 0; 0]; [0; 0; 0; 0]]
              (mkLocals 12 true {[ (Some 0%nat, Some 0%nat); (Some 0%nat, Some 1%nat) ]}))
    as (s' & g' & r0 & c0 & k & Hmove & _ & _ & _ & _ & _ & _ & _ & _ & _ & Hscore).
  - vm_compute. reflexivity.
  - reflexivity.
  - intros H. discriminate H.
  - reflexivity.
  - vm_compute. reflexivity.
  - discriminate.
  - exists s'. split; [exact Hmove | exact Hscore].
Defined.

(** ** The win flag *)

Lemma isWin_logged (s : AppState) (p : Pending) (ms : list Z) :
  pendingIsWin p = pendingIsWin (logged noPending ms) -> mergeLog p = ms ->
  isWin (commit s p) = isWin s || bool_decide (2048 ∈ mergeLog p).
Proof.
  intros Hw Hm. rewrite Hm. unfold commit. cbn [isWin]. rewrite Hw. cbn.
  destruct (bool_decide (2048 ∈ ms)), (isWin s); reflexivity.
Qed.

(** The win flag after a move. *)
Lemma isWin_after_move (s : AppState) (d : Direction) (u1 u2 : Q) (g : Grid) :
  getGrid (board s) = Ok g ->
  wf_grid g = true ->
  isWin (handle s (move s d u1 u2)).1
  = isWin s || bool_decide (2048 ∈ mergeLog (move s d u1 u2 noPending).1).
Proof.
  intros Hb Hwf.
  assert (Hh : (handle s (move s d u1 u2)).1 = commit s (move s d u1 u2 noPending).1).
  { unfold handle. now destruct (move s d u1 u2 noPending). }
  rewrite Hh. clear Hh.
  destruct (isGameOver s && negb (isWin s)) eqn:Hg.
  { rewrite move_guarded by exact Hg. cbn [fst].
    apply (isWin_logged s noPending []); reflexivity. }
  rewrite (move_spec s d u1 u2 g) by assumption. unfold slideOutcome. cbv zeta.
  set (ms := allMerges (Nat.iter (rotations d) quarterTurn g)).
  destruct (if tagThrows (rotations d) then head ms else None) as [v|].
  { cbn [fst]. apply (isWin_logged s _ [v]); [|rewrite <- (app_nil_l [v])]; reflexivity. }
  destruct (moved _).
  - pose proof (afterSlide_frame s u1 u2
                  (slideGrid d g)
                  (slideLocals (Nat.iter (rotations d) quarterTurn g))
                  (logged noPending ms)) as [Hw Hm].
    apply (isWin_logged s _ ms); [exact Hw | now rewrite Hm].
  - cbn [fst]. apply (isWin_logged s _ ms); reflexivity.
Qed.

(** ** A game in play *)

Lemma mergeValues_elem (row : list Z) (v : Z) :
  v ∈ mergeValues (mergePairs row) -> exists a, a ∈ row /\ v = a * 2.
Proof.
  unfold mergeValues.
  induction row as [|a|a b rest IH1 IH2] using pairs_ind; intros H.
  - now apply elem_of_nil in H.
  - cbn in H. now apply elem_of_nil in H.
  - rewrite mergePairs_cons2 in H. destruct (a =? b).
    + cbn in H. apply elem_of_cons in H as [->|H].
      * exists a. split; [left|reflexivity].
      * destruct (IH1 H) as (x & Hx & ->). exists x. split; [|reflexivity].
        now do 2 right.
    + cbn in H. destruct (IH2 H) as (x & Hx & ->). exists x. split; [|reflexivity].
      now right.
Qed.

Lemma tileValues_elem (row : list Z) (v : Z) :
  v ∈ tileValues (mergePairs row) -> v ∈ row \/ v ∈ mergeValues (mergePairs row).
Proof.
  unfold tileValues, mergeValues.
  induction row as [|a|a b rest IH1 IH2] using pairs_ind; intros H.
  - now apply elem_of_nil in H.
  - now left.
  - rewrite mergePairs_cons2 in *. destruct (a =? b).
    + cbn in *. apply elem_of_cons in H as [->|H].
      * right. left.
      * destruct (IH1 H) as [Hx|Hx]; [left; now do 2 right | right; now right].
    + cbn in *. apply elem_of_cons in H as [->|H].
      * left. left.
      * destruct (IH2 H) as [Hx|Hx]; [left; now right | now right].
Qed.

Lemma elem_of_compact (cells : list Z) (v : Z) : v ∈ compact cells -> v ∈ cells.
Proof. unfold compact. rewrite list_elem_of_filter. now intros [_ ?]. Qed.

Lemma slideSpec_elem (cells : list Z) (v : Z) :
  v ∈ slideSpec cells
  -> v = 0 \/ v ∈ cells \/ v ∈ mergeValues (mergePairs (compact cells)).
Proof.
  unfold slideSpec. cbv zeta. rewrite elem_of_app. intros [H|H].
  - apply tileValues_elem in H as [H|H]; [right; left; now apply elem_of_compact | now do 2 right].
  - left. now apply elem_of_replicate in H as [-> _].
Qed.

Lemma allMerges_elem (g : Grid) (v : Z) :
  v ∈ allMerges g -> exists a, a ∈ concat g /\ v = a * 2.
Proof.
  unfold allMerges. rewrite !list_elem_of_In, in_concat.
  intros (l & Hl & Hv). apply in_map_iff in Hl as (cells & <- & Hc).
  apply list_elem_of_In, mergeValues_elem in Hv as (a & Ha & ->).
  exists a. split; [|reflexivity].
  apply list_elem_of_In, in_concat. exists cells. split; [exact Hc|].
  now apply list_elem_of_In, elem_of_compact.
Qed.

Lemma map_slideSpec_elem (g : Grid) (v : Z) :
  v ∈ concat (map slideSpec g) -> v = 0 \/ v ∈ concat g \/ v ∈ allMerges g.
Proof.
  unfold allMerges. rewrite !list_elem_of_In, !in_concat.
  intros (l & Hl & Hv). apply in_map_iff in Hl as (cells & <- & Hc).
  apply list_elem_of_In, slideSpec_elem in Hv as [->|[Hv|Hv]].
  - now left.
  - right. left. exists cells. split; [exact Hc | now apply list_elem_of_In].
  - right. right. eexists. split; [|apply list_elem_of_In; exact Hv].
    apply in_map_iff. now exists cells.
Qed.

Lemma slideGrid_elem (d : Direction) (g : Grid) (v : Z) :
  wf_grid g = true ->
  v ∈ concat (slideGrid d g)
  -> v = 0 \/ v ∈ concat g \/ v ∈ allMerges (Nat.iter (rotations d) quarterTurn g).
Proof.
  intros Hwf. unfold slideGrid. cbv zeta.
  rewrite iter_quarterTurn_elem
    by (apply wf_map_slideSpec; now apply iter_quarterTurn_wf).
  intros [->|[H|H]]%map_slideSpec_elem; [now left | | now do 2 right].
  right. left. now apply (iter_quarterTurn_elem (rotations d) g v Hwf).
Qed.

Lemma setCell_elem (g : Grid) (r c : nat) (v x : Z) :
  is_Some (cellAt g r c) ->
  x ∈ concat (setCell g r c v) -> x = v \/ x ∈ concat g.
Proof.
  intros Hs. rewrite !elem_of_concat_cellAt. intros (r' & c' & H).
  rewrite cellAt_setCell in H by exact Hs.
  destruct (decide ((r, c) = (r', c'))); [left; congruence | right; eauto].
Qed.

Lemma powerOfTwo_double (a : Z) : powerOfTwo a -> powerOfTwo (a * 2).
Proof.
  intros (k & Hk & ->). exists (k + 1). split; [lia|].
  rewrite Z.pow_add_r by lia. reflexivity.
Qed.

Lemma powerOfTwo_above (a : Z) : powerOfTwo a -> 2048 < a * 2 -> 2048 <= a.
Proof.
  intros (k & Hk & ->) H.
  destruct (Z_lt_le_dec k 11) as [Hlt|Hge].
  - assert (2 ^ k <= 2 ^ 10) by (apply Z.pow_le_mono_r; lia).
    change (2 ^ 10) with 1024 in *. lia.
  - change 2048 with (2 ^ 11). apply Z.pow_le_mono_r; lia.
Qed.

Lemma powerOfTwo_spawnValue (u2 : Q) : powerOfTwo (spawnValue u2) /\ spawnValue u2 < 2048.
Proof.
  unfold spawnValue. destruct (Qle_bool (9 # 10) u2).
  - split; [exists 2; split; [lia | reflexivity] | lia].
  - split; [exists 1; split; [lia | reflexivity] | lia].
Qed.

(** The merges a move logs are merges of the rows of the turned grid. *)
Lemma mergeLog_move (s : AppState) (d : Direction) (u1 u2 : Q) (g : Grid) (v : Z) :
  getGrid (board s) = Ok g ->
  wf_grid g = true ->
  v ∈ mergeLog (move s d u1 u2 noPending).1 ->
  v ∈ allMerges (Nat.iter (rotations d) quarterTurn g).
Proof.
  intros Hb Hwf.
  destruct (isGameOver s && negb (isWin s)) eqn:Hg.
  { rewrite move_guarded by exact Hg. cbn. intros H. now apply elem_of_nil in H. }
  rewrite (move_spec s d u1 u2 g) by assumption. unfold slideOutcome. cbv zeta.
  set (ms := allMerges (Nat.iter (rotations d) quarterTurn g)).
  destruct (if tagThrows (rotations d) then head ms else None) as [v0|] eqn:Hv0.
  { cbn. intros ->%list_elem_of_singleton.
    destruct (tagThrows (rotations d)); [|discriminate].
    destruct ms as [|m ms']; [discriminate|]. injection Hv0 as ->. left. }
  destruct (moved _).
  - pose proof (afterSlide_frame s u1 u2
                  (slideGrid d g)
                  (slideLocals (Nat.iter (rotations d) quarterTurn g))
                  (logged noPending ms)) as [_ Hm].
    cbv zeta in Hm. rewrite Hm. cbn. tauto.
  - cbn. tauto.
Qed.

(** A merge that produces a value above 2048 joins two tiles of 2048 or
    more: in a game in play the win flag was set before the move. *)
Lemma isWin_before_merge (s : AppState) (d : Direction) (u1 u2 : Q) (g : Grid) (v : Z) :
  inPlay s g ->
  v ∈ mergeLog (move s d u1 u2 noPending).1 ->
  2048 < v ->
  isWin s = true.
Proof.
  intros (Hb & Hwf & Hpow & Hwin & _) Hv Hlt.
  apply (mergeLog_move s d u1 u2 g v Hb Hwf) in Hv.
  apply allMerges_elem in Hv as (a & Ha & ->).
  apply (iter_quarterTurn_elem (rotations d) g a Hwf) in Ha.
  destruct (Hpow a Ha) as [->|Hp]; [lia|].
  apply (Hwin a Ha). now apply powerOfTwo_above.
Qed.

Lemma isWin_in_play (s : AppState) (d : Direction) (u1 u2 : Q) (g : Grid) (v : Z) :
  inPlay s g ->
  v ∈ mergeLog (move s d u1 u2 noPending).1 ->
  2048 <= v ->
  isWin (handle s (move s d u1 u2)).1 = true.
Proof.
  intros Hin Hv Hle. pose proof Hin as (Hb & Hwf & _).
  rewrite (isWin_after_move s d u1 u2 g) by assumption.
  destruct (decide (v = 2048)) as [->|Hne].
  { rewrite (bool_decide_eq_true_2 _ Hv). apply orb_true_r. }
  rewrite (isWin_before_merge s d u1 u2 g v Hin Hv) by lia. reflexivity.
Qed.

(** X10: in a game in play the win flag is set after every move with a
    merge that produces 2048 or more: a value above 2048 is made from two
    tiles of 2048 or more, and the flag was set when the first of them was
    made. *)
Lemma win_flag_in_play (s : AppState) (d : Direction) (u1 u2 : Q) (g : Grid) (v : Z) :
  inPlay s g ->
  v ∈ mergeLog (move s d u1 u2 noPending).1 ->
  2048 <= v ->
  isWin (handle s (move s d u1 u2)).1 = true.
Proof.
  intros (Hb & Hwf & Hpow & Hwin & _) Hv Hle.
  rewrite (isWin_after_move s d u1 u2 g) by assumption.
  destruct (decide (v = 2048)) as [->|Hne].
  { rewrite (bool_decide_eq_true_2 _ Hv). apply orb_true_r. }
  apply (mergeLog_move s d u1 u2 g v Hb Hwf) in Hv.
  apply allMerges_elem in Hv as (a & Ha & ->).
  apply (iter_quarterTurn_elem (rotations d) g a Hwf) in Ha.
  destruct (Hpow a Ha) as [->|Hp]; [lia|].
  rewrite (Hwin a Ha); [reflexivity|]. apply powerOfTwo_above; [exact Hp | lia].
Qed.

(** C2: in every state of play and for every direction, when a merge of
    the move produces a tile of 2048 or more the win flag is set after the
    move, whatever the other cells do.  For a merge that produces exactly
    2048 the move sets the flag; a merge that produces more than 2048
    joins two tiles of 2048 or more, and the flag was set before the move
    and stays set. *)
Theorem win_flag_set_by_merge :
  forall (s : AppState) (d : Direction) (u1 u2 : Q) (g : Grid),
    inPlay s g ->
    let p := (move s d u1 u2 noPending).1 in
    let s' := (handle s (move s d u1 u2)).1 in
    (forall v, v ∈ mergeLog p -> 2048 <= v -> isWin s' = true)
    /\ (2048 ∈ mergeLog p -> isWin s' = true)
    /\ (forall v, v ∈ mergeLog p -> 2048 < v -> isWin s = true /\ isWin s' = true).
Proof.
  intros s d u1 u2 g Hin p s'. unfold p, s'. split; [|split].
  - intros v Hv Hle. exact (isWin_in_play s d u1 u2 g v Hin Hv Hle).
  - intros Hv. exact (isWin_in_play s d u1 u2 g 2048 Hin Hv (Z.le_refl _)).
  - intros v Hv Hlt. split.
    + exact (isWin_before_merge s d u1 u2 g v Hin Hv Hlt).
    + apply (isWin_in_play s d u1 u2 g v Hin Hv). lia.
Qed.

Lemma inPlay_same_board (s s' : AppState) (g : Grid) :
  inPlay s g ->
  isGameOver s && negb (isWin s) = false ->
  board s' = board s ->
  isGameOver s' = isGameOver s ->
  (isWin s = true -> isWin s' = true) ->
  inPlay s' g.
Proof.
  intros (Hb & Hwf & Hpow & Hwin & Hover) Hg Hboard Ho Hw.
  split; [now rewrite Hboard|]. split; [exact Hwf|]. split; [exact Hpow|].
  split; [intros v Hv Hle; apply Hw; now apply (Hwin v)|].
  intros Ho' Hw'. rewrite Ho in Ho'. rewrite Ho' in Hg.
  destruct (isWin s); [|discriminate]. rewrite Hw in Hw' by reflexivity. discriminate.
Qed.

Lemma inPlay_logged (s : AppState) (g : Grid) (ms : list Z) :
  inPlay s g ->
  isGameOver s && negb (isWin s) = false ->
  inPlay (commit s (logged noPending ms)) g.
Proof.
  intros H Hg. apply (inPlay_same_board s); try assumption; try reflexivity.
  cbn. intros ->. now destruct (bool_decide _).
Qed.

(** X9: [move] keeps a game in play.  When the board is a grid of 4 rows
    of 4 cells whose tiles are powers of two, the win flag is set if a tile
    has reached 2048, and [isGameOver] is set without [isWin] only on a
    lost grid, the same holds after a move in any direction, also when the
    move throws. *)
Lemma move_inPlay (s : AppState) (d : Direction) (u1 u2 : Q) (g : Grid) :
  inPlay s g ->
  isDouble01 u1 = true ->
  exists g', inPlay (handle s (move s d u1 u2)).1 g'.
Proof.
  intros Hin Hu1.
  pose proof Hin as (Hb & Hwf & Hpow & Hwin & Hover).
  unfold handle.
  destruct (isGameOver s && negb (isWin s)) eqn:Hg.
  { rewrite move_guarded by exact Hg. rewrite commit_noPending. now exists g. }
  rewrite (move_spec s d u1 u2 g) by assumption. unfold slideOutcome. cbv zeta.
  assert (Hwt : wf_grid (Nat.iter (rotations d) quarterTurn g) = true)
    by now apply iter_quarterTurn_wf.
  set (ms := allMerges (Nat.iter (rotations d) quarterTurn g)).
  destruct (if tagThrows (rotations d) then head ms else None) as [v0|].
  { exists g. now apply inPlay_logged. }
  destruct (moved _) eqn:Hmoved; [|exists g; now apply inPlay_logged].
  rewrite slideLocals_moved in Hmoved by exact Hwt.
  apply negb_true_iff, bool_decide_eq_false in Hmoved.
  assert (Hne : slideGrid d g ≠ g) by (intros E; now apply Hmoved, slideGrid_fixed).
  assert (Hwf1 : wf_grid (slideGrid d g) = true) by now apply slideGrid_wf.
  destruct (addRandomTile_some u1 u2 _ Hwf1 (slide_changed_emptyCells d g Hwf Hne) Hu1)
    as (r0 & c0 & Hl & Ha).
  assert (H0 : cellAt (slideGrid d g) r0 c0 = Some 0).
  { apply list_elem_of_lookup_2 in Hl. now apply emptyCells_elem in Hl. }
  assert (Hsome : is_Some (cellAt (slideGrid d g) r0 c0)) by (rewrite H0; eauto).
  assert (Hwf2 : wf_grid (setCell (slideGrid d g) r0 c0 (spawnValue u2)) = true)
    by now apply setCell_wf.
  destruct (afterSlide_spec s u1 u2 _ _
              (slideLocals (Nat.iter (rotations d) quarterTurn g))
              (logged noPending ms) Hwf1 Hwf2 Ha)
    as (tiles & nextId & lost & Hgrid & _ & Hlost & ->).
  exists (setCell (slideGrid d g) r0 c0 (spawnValue u2)).
  assert (Hcells : forall x, x ∈ concat (setCell (slideGrid d g) r0 c0 (spawnValue u2)) ->
            x = spawnValue u2 \/ x = 0 \/ x ∈ concat g
            \/ exists a, a ∈ concat g /\ x = a * 2 /\ x ∈ ms).
  { intros x [->|Hx]%setCell_elem; [now left | | exact Hsome].
    right. apply slideGrid_elem in Hx as [->|[Hx|Hx]]; [now left | now right; left | | exact Hwf].
    right. right. destruct (allMerges_elem _ _ Hx) as (a & Ha' & ->).
    exists a. split; [|split; [reflexivity | exact Hx]].
    now apply (iter_quarterTurn_elem (rotations d) g a Hwf). }
  split; [exact Hgrid|]. split; [exact Hwf2|]. split; [|split].
  - intros x [->|[->|[Hx|(a & Ha' & -> & _)]]]%Hcells.
    + right. apply powerOfTwo_spawnValue.
    + now left.
    + now apply Hpow.
    + destruct (Hpow a Ha') as [->|Hp]; [now left | right; now apply powerOfTwo_double].
  - intros x Hx Hle. cbn.
    destruct (bool_decide (2048 ∈ ms)) eqn:Hms; [reflexivity|]. cbn.
    apply Hcells in Hx as [->|[->|[Hx|(a & Ha' & -> & Hm)]]].
    + pose proof (powerOfTwo_spawnValue u2). lia.
    + lia.
    + now apply (Hwin x).
    + destruct (decide (a * 2 = 2048)) as [E|E].
      { rewrite E in Hm. apply bool_decide_eq_false in Hms. contradiction. }
      destruct (Hpow a Ha') as [->|Hp]; [lia|].
      apply (Hwin a Ha'). apply powerOfTwo_above; [exact Hp | lia].
  - intros Ho Hw. cbn in Ho, Hw.
    destruct lost; [now apply Hlost|]. cbn in Ho. rewrite Ho in Hg.
    destruct (isWin s); [|discriminate].
    destruct (bool_decide (2048 ∈ ms)); discriminate.
Qed.

Lemma setCell_leaves_empty (g : Grid) (r c : nat) (v : Z) :
  wf_grid g = true ->
  cellAt g 0 0 = Some 0 -> cellAt g 0 1 = Some 0 ->
  is_Some (cellAt g r c) ->
  emptyCells (setCell g r c v) ≠ [].
Proof.
  intros Hwf H00 H01 Hs.
  assert (Hwf' : wf_grid (setCell g r c v) = true) by now apply setCell_wf.
  destruct (decide ((r, c) = (0, 0)%nat)) as [E|E].
  - assert (Hin : (0, 1)%nat ∈ emptyCells (setCell g r c v)).
    { apply emptyCells_elem; [exact Hwf'|]. rewrite cellAt_setCell by exact Hs.
      rewrite decide_False by congruence. exact H01. }
    intros E'. rewrite E' in Hin. now apply elem_of_nil in Hin.
  - assert (Hin : (0, 0)%nat ∈ emptyCells (setCell g r c v)).
    { apply emptyCells_elem; [exact Hwf'|]. rewrite cellAt_setCell by exact Hs.
      rewrite decide_False by exact E. exact H00. }
    intros E'. rewrite E' in Hin. now apply elem_of_nil in Hin.
Qed.

Lemma startGame_outcome (s : AppState) (u1 u2 u3 u4 : Q) (tiles : list TileData.t)
    (next : nat) :
  createInitialBoard u1 u2 u3 u4 = Ok (tiles, next) ->
  handle s (startGame u1 u2 u3 u4)
  = (mkApp tiles 0 (bestScore s) false false (stored s) next, Ok tt).
Proof.
  intros Hc. unfold handle, startGame. rewrite M_bind_eq. cbn [setIdCounter].
  rewrite bind_lift, Hc. reflexivity.
Qed.

(** X8: [startGame] makes a game in play, whatever the state before it:
    the board is a grid of 4 rows of 4 cells whose tiles are powers of two
    below 2048, the score is 0 and both flags are cleared. *)
Lemma startGame_inPlay (s : AppState) (u1 u2 u3 u4 : Q) :
  isDouble01 u1 = true -> isDouble01 u3 = true ->
  exists s' g,
    handle s (startGame u1 u2 u3 u4) = (s', Ok tt)
    /\ inPlay s' g
    /\ score s' = 0 /\ isGameOver s' = false /\ isWin s' = false.
Proof.
  intros Hu1 Hu3.
  set (z := replicate TILE_COUNT (replicate TILE_COUNT 0)).
  assert (Hwz : wf_grid z = true) by reflexivity.
  assert (Hez : emptyCells z ≠ []) by (vm_compute; discriminate).
  destruct (addRandomTile_some u1 u2 z Hwz Hez Hu1) as (r1 & c1 & Hl1 & Ha1).
  assert (H1 : cellAt z r1 c1 = Some 0).
  { apply list_elem_of_lookup_2 in Hl1. now apply emptyCells_elem in Hl1. }
  assert (Hs1 : is_Some (cellAt z r1 c1)) by (rewrite H1; eauto).
  set (g1 := setCell z r1 c1 (spawnValue u2)) in *.
  assert (Hw1 : wf_grid g1 = true) by now apply setCell_wf.
  assert (He1 : emptyCells g1 ≠ []) by now apply setCell_leaves_empty.
  destruct (addRandomTile_some u3 u4 g1 Hw1 He1 Hu3) as (r2 & c2 & Hl2 & Ha2).
  assert (H2 : cellAt g1 r2 c2 = Some 0).
  { apply list_elem_of_lookup_2 in Hl2. now apply emptyCells_elem in Hl2. }
  assert (Hs2 : is_Some (cellAt g1 r2 c2)) by (rewrite H2; eauto).
  set (g2 := setCell g1 r2 c2 (spawnValue u4)) in *.
  assert (Hw2 : wf_grid g2 = true) by now apply setCell_wf.
  destruct (getGrid_transform g2 None None 1 Hw2) as (tiles & next & Ht & Hgrid).
  assert (Hc : createInitialBoard u1 u2 u3 u4 = Ok (tiles, next)).
  { unfold createInitialBoard. fold z. rewrite Ha1. cbn [mbind result_bind].
    rewrite Ha2. exact Ht. }
  assert (Hcells : forall x, x ∈ concat g2 -> x = 0 \/ x = spawnValue u2 \/ x = spawnValue u4).
  { intros x [->|Hx]%setCell_elem; [auto | | exact Hs2].
    apply setCell_elem in Hx as [->|Hx]; [auto | | exact Hs1].
    left. apply elem_of_concat_cellAt in Hx as (r & c & Hx).
    destruct r as [|[|[|[|?]]]], c as [|[|[|[|?]]]]; vm_compute in Hx; congruence. }
  rewrite (startGame_outcome s u1 u2 u3 u4 tiles next Hc).
  clearbody g2.
  eexists _, g2. split; [reflexivity|].
  split; [|repeat split; reflexivity].
  unfold inPlay, gameOverIsLost. cbn [board isGameOver isWin].
  split; [exact Hgrid|]. split; [exact Hw2|]. split; [|split].
  - intros x [->|[->| ->]]%Hcells; [now left | right..]; apply powerOfTwo_spawnValue.
  - intros x Hx Hle. exfalso.
    pose proof (powerOfTwo_spawnValue u2). pose proof (powerOfTwo_spawnValue u4).
    apply Hcells in Hx as [->|[->| ->]]; lia.
  - intros Ho. discriminate Ho.
Qed.

(** ** Sliding twice *)

Lemma pair_hasMerge (row : list Z) :
  forall i v, row !! i = Some v -> row !! S i = Some v ->
              mergeValues (mergePairs row) ≠ [].
Proof.
  induction row as [|a|a b rest IH1 IH2] using pairs_ind; intros i v Hi Hs.
  - discriminate.
  - destruct i; discriminate.
  - rewrite mergePairs_cons2. destruct (Z.eqb_spec a b) as [->|Hab]; [discriminate|].
    destruct i as [|j].
    + cbn in Hi, Hs. congruence.
    + cbn [mergeValues List.filter snd]. apply (IH2 j v); assumption.
Qed.

Lemma hasMerge_pair (row : list Z) :
  mergeValues (mergePairs row) ≠ [] ->
  exists i v, row !! i = Some v /\ row !! S i = Some v.
Proof.
  induction row as [|a|a b rest IH1 IH2] using pairs_ind; intros H.
  - now contradict H.
  - now contradict H.
  - rewrite mergePairs_cons2 in H. destruct (Z.eqb_spec a b) as [->|Hab].
    + now exists 0%nat, b.
    + destruct (IH2 H) as (j & v & Hj & Hs). now exists (S j), v.
Qed.

(** After a slide, a row has two equal tiles side by side exactly when a
    further slide merges. *)
Lemma slideSpec_equalPair (cells : list Z) :
  equalPair (slideSpec cells)
  <-> mergeValues (mergePairs (compact (slideSpec cells))) ≠ [].
Proof.
  rewrite compact_slideSpec. unfold slideSpec.
  set (ms := tileValues (mergePairs (compact cells))).
  assert (Hnz : Forall (fun x => x ≠ 0) ms)
    by apply tileValues_nonzero, compact_nonzero.
  split.
  - intros (i & v & Hv & Hi & Hs).
    assert (Hin : forall j, (ms ++ replicate (TILE_COUNT - length ms) 0) !! j = Some v ->
                            ms !! j = Some v).
    { intros j Hj. apply lookup_app_Some in Hj as [Hj | [_ Hj]]; [exact Hj|].
      apply lookup_replicate in Hj as [Hj _]. contradiction. }
    apply (pair_hasMerge ms i v); [now apply Hin|].
    apply Hin. now replace (S i) with (i + 1)%nat by lia.
  - intros H. destruct (hasMerge_pair ms H) as (i & v & Hi & Hs).
    exists i, v. split; [|split].
    + eapply Forall_forall in Hnz; [exact Hnz|]. now apply list_elem_of_lookup_2 in Hi.
    + now apply lookup_app_l_Some.
    + replace (i + 1)%nat with (S i) by lia. now apply lookup_app_l_Some.
Qed.

Lemma allMerges_nil (g : Grid) :
  allMerges g = []
  <-> forall row, row ∈ g -> mergeValues (mergePairs (compact row)) = [].
Proof.
  unfold allMerges. induction g as [|cells g IH]; cbn [map concat].
  - split; [|reflexivity]. intros _ row Hrow. now apply elem_of_nil in Hrow.
  - split.
    + intros [H1 H2]%app_eq_nil row [->|Hrow]%elem_of_cons; [exact H1|].
      now apply IH.
    + intros H. rewrite (H cells) by now left. cbn. apply IH.
      intros row Hrow. apply H. now right.
Qed.

Lemma map_slideSpec_twice (g : Grid) :
  Forall (fun cells => length cells = TILE_COUNT) g ->
  map slideSpec (map slideSpec g) = map slideSpec g
  <-> allMerges (map slideSpec g) = [].
Proof.
  intros H. rewrite allMerges_nil. induction H as [|cells g Hlen H IH]; cbn [map].
  - split; [|reflexivity]. intros _ row Hrow. now apply elem_of_nil in Hrow.
  - split.
    + intros [= E1 E2] row [->|Hrow]%elem_of_cons.
      * now apply slideSpec_twice.
      * now apply IH.
    + intros Hall. f_equal.
      * apply slideSpec_twice; [exact Hlen|]. apply Hall. now left.
      * apply IH. intros row Hrow. apply Hall. now right.
Qed.

Lemma wf_grid_rows (g : Grid) :
  wf_grid g = true -> Forall (fun cells => length cells = TILE_COUNT) g.
Proof.
  unfold wf_grid. intros [_ H]%andb_prop. apply Forall_forall. intros row Hrow.
  rewrite forallb_forall in H. apply Nat.eqb_eq, H. now apply list_elem_of_In.
Qed.

Ltac try_cell r c v :=
  exists r, c, v; split; [assumption|]; split; vm_compute; congruence.

Ltac find_cell v :=
  first [ try_cell 0%nat 0%nat v | try_cell 0%nat 1%nat v | try_cell 0%nat 2%nat v
        | try_cell 0%nat 3%nat v
        | try_cell 1%nat 0%nat v | try_cell 1%nat 1%nat v | try_cell 1%nat 2%nat v
        | try_cell 1%nat 3%nat v
        | try_cell 2%nat 0%nat v | try_cell 2%nat 1%nat v | try_cell 2%nat 2%nat v
        | try_cell 2%nat 3%nat v
        | try_cell 3%nat 0%nat v | try_cell 3%nat 1%nat v | try_cell 3%nat 2%nat v
        | try_cell 3%nat 3%nat v ].

Ltac try_row k i v :=
  eexists; split;
  [ apply (list_elem_of_lookup_2 _ k); vm_compute; reflexivity
  | exists i, v; split; [assumption|]; split; vm_compute; congruence ].

Ltac find_row v :=
  first [ try_row 0%nat 0%nat v | try_row 0%nat 1%nat v | try_row 0%nat 2%nat v
        | try_row 1%nat 0%nat v | try_row 1%nat 1%nat v | try_row 1%nat 2%nat v
        | try_row 2%nat 0%nat v | try_row 2%nat 1%nat v | try_row 2%nat 2%nat v
        | try_row 3%nat 0%nat v | try_row 3%nat 1%nat v | try_row 3%nat 2%nat v ].

(** The pairs along the axis of the move are the pairs in the rows of the
    turned grid. *)
Lemma canMerge_rowPair (d : Direction) (g : Grid) :
  wf_grid g = true -> canMerge d g <-> rowPair d g.
Proof.
  intros (a0&a1&a2&a3&b0&b1&b2&b3&c0&c1&c2&c3&d0&d1&d2&d3&->)%wf_grid_shape.
  unfold canMerge, rowPair, equalPair. split.
  - intros (r & c & v & Hv & H1 & H2).
    destruct d; simpl in H2;
      destruct r as [|[|[|[|r]]]]; try discriminate;
      destruct c as [|[|[|[|c]]]]; try discriminate;
      vm_compute in H1, H2; try discriminate;
      injection H1 as H1; injection H2 as H2; find_row v.
  - intros (row & Hrow & i & v & Hv & Hi & Hi').
    destruct d; simpl in Hrow;
      repeat (apply elem_of_cons in Hrow as [->|Hrow]);
      try (now apply elem_of_nil in Hrow);
      destruct i as [|[|[|[|i]]]]; simpl in Hi, Hi'; try discriminate;
      injection Hi as Hi; injection Hi' as Hi'; find_cell v.
Qed.

Lemma rowPair_allMerges (d : Direction) (g : Grid) :
  wf_grid g = true ->
  rowPair d (slideGrid d g)
  <-> allMerges (Nat.iter (rotations d) quarterTurn (slideGrid d g)) ≠ [].
Proof.
  intros Hwf. unfold rowPair. rewrite turn_slideGrid by exact Hwf.
  set (tg := Nat.iter (rotations d) quarterTurn g). split.
  - intros (row & Hrow & Hpair) Hnil.
    apply list_elem_of_fmap in Hrow as (cells & -> & Hc).
    apply slideSpec_equalPair in Hpair. apply Hpair.
    rewrite allMerges_nil in Hnil. apply Hnil.
    apply list_elem_of_fmap. exists cells. split; [reflexivity | exact Hc].
  - intros Hne.
    assert (Hex : exists row, row ∈ map slideSpec tg
                              /\ mergeValues (mergePairs (compact row)) ≠ []).
    { clear -Hne. unfold allMerges in Hne.
      induction (map slideSpec tg) as [|row rows IH]; [now contradict Hne|].
      cbn [map concat] in Hne.
      destruct (mergeValues (mergePairs (compact row))) as [|m ms] eqn:E.
      - destruct (IH Hne) as (row' & Hin & Hm). exists row'. split; [now right | exact Hm].
      - exists row. split; [now left | now rewrite E]. }
    destruct Hex as (row & Hrow & Hm). exists row. split; [exact Hrow|].
    pose proof Hrow as Hrow'. apply list_elem_of_fmap in Hrow' as (cells & -> & _).
    now apply slideSpec_equalPair.
Qed.

(** C3, as the code has it: when the slide-and-merge step has returned a
    grid, applying it again in the same direction returns that grid
    unchanged exactly when the grid has no two equal tiles next to each
    other along the axis of the move; otherwise the second application
    merges them (or, in a direction other than left, ends with the
    exception of the merged-cell tagging). *)
Theorem second_slide_unchanged_iff :
  forall (d : Direction) (g g1 : Grid),
    wf_grid g = true ->
    gridOf (slide d g noPending) = Ok g1 ->
    (gridOf (slide d g1 noPending) = Ok g1 <-> ~ canMerge d g1).
Proof.
  intros d g g1 Hwf H1.
  destruct (slide d g noPending) as [p1 [[g1' loc]| |]] eqn:Hs; try discriminate.
  cbn in H1. injection H1 as ->.
  destruct (slide_returns d _ _ _ _ _ Hwf Hs) as (_ & -> & _ & _).
  assert (Hwf1 : wf_grid (slideGrid d g) = true) by now apply slideGrid_wf.
  assert (Hwt : wf_grid (Nat.iter (rotations d) quarterTurn g) = true)
    by now apply iter_quarterTurn_wf.
  rewrite (canMerge_rowPair d _ Hwf1), rowPair_allMerges by exact Hwf.
  rewrite slide_spec by exact Hwf1. unfold slideOutcome, gridOf. cbv zeta.
  set (ms := allMerges (Nat.iter (rotations d) quarterTurn (slideGrid d g))).
  assert (Hfix : slideGrid d (slideGrid d g) = slideGrid d g <-> ms = []).
  { rewrite slideGrid_fixed by exact Hwf1. unfold ms.
    rewrite turn_slideGrid by exact Hwf.
    apply map_slideSpec_twice. now apply wf_grid_rows. }
  destruct ms as [|m ms'].
  - split; [intros _ Hne; now apply Hne|]. intros _.
    destruct (tagThrows (rotations d)); cbn; f_equal; now apply Hfix.
  - split; [|intros Hne; exfalso; now apply Hne]. intros H _.
    destruct (tagThrows (rotations d)); cbn in H; [discriminate|].
    injection H as H. now apply Hfix in H.
Qed.

Lemma second_slide_unchanged_iff_witness :
  gridOf (slide left [[4; 8; 0; 0]; [0; 0; 0; 0]; [0; 0; 0; 0]; [0; 0; 0; 0]] noPending)
  = Ok [[4; 8; 0; 0]; [0; 0; 0; 0]; [0; 0; 0; 0]; [0; 0; 0; 0]]
  <-> ~ canMerge left [[4; 8; 0; 0]; [0; 0; 0; 0]; [0; 0; 0; 0]; [0; 0; 0; 0]].
Proof.
  apply (second_slide_unchanged_iff left
           [[0; 4; 0; 8]; [0; 0; 0; 0]; [0; 0; 0; 0]; [0; 0; 0; 0]]).
  - reflexivity.
  - vm_compute. reflexivity.
Defined.

(** C3 as stated fails: moved to the left, the row [2, 2, 2, 2] becomes
    [4, 4, 0, 0], and a second move to the left changes it to
    [8, 0, 0, 0]. *)
Lemma slide_not_idempotent :
  gridOf (slide left [[2; 2; 2; 2]; [0; 0; 0; 0]; [0; 0; 0; 0]; [0; 0; 0; 0]] noPending)
  = Ok [[4; 4; 0; 0]; [0; 0; 0; 0]; [0; 0; 0; 0]; [0; 0; 0; 0]]
  /\ gridOf (slide left [[4; 4; 0; 0]; [0; 0; 0; 0]; [0; 0; 0; 0]; [0; 0; 0; 0]] noPending)
     = Ok [[8; 0; 0; 0]; [0; 0; 0; 0]; [0; 0; 0; 0]; [0; 0; 0; 0]]
  /\ [[8; 0; 0; 0]; [0; 0; 0; 0]; [0; 0; 0; 0]; [0; 0; 0; 0]]
     ≠ [[4; 4; 0; 0]; [0; 0; 0; 0]; [0; 0; 0; 0]; [0; 0; 0; 0]].
Proof. split; [|split]; [vm_compute; reflexivity.. | discriminate]. Qed.

(** ** Game over *)

Lemma checkGameOver_outcome (g : Grid) (lost : bool) (p : Pending) :
  checkGameOverLoop cellOrder g = Ok lost ->
  checkGameOver g p = if lost then setIsGameOver true p else (p, Ok tt).
Proof.
  intros H. unfold checkGameOver. rewrite bind_lift, H. now destruct lost.
Qed.

(** C6: on a 4x4 grid the loops of [checkGameOver] run to their end, and
    reach [setIsGameOver(true)] if and only if the grid has no empty cell
    and no two equal cells next to each other in a row or in a column;
    when one cell of the grid is changed so that two equal cells are next
    to each other, the check of the changed grid sets nothing. *)
Theorem checkGameOver_lost_iff :
  forall g : Grid,
    wf_grid g = true ->
    (exists lost, checkGameOverLoop cellOrder g = Ok lost /\ (lost = true <-> lostGrid g))
    /\ (pendingIsGameOver (checkGameOver g noPending).1 = Some true <-> lostGrid g)
    /\ (forall r c v, hasEqualNeighbours (setCell g r c v) ->
          checkGameOver (setCell g r c v) noPending = (noPending, Ok tt)).
Proof.
  intros g Hwf.
  assert (Hspec : forall g', wf_grid g' = true ->
            exists lost, checkGameOverLoop cellOrder g' = Ok lost
                         /\ (lost = true <-> lostGrid g')).
  { intros g' Hwf'.
    destruct (checkGameOverLoop_spec g' cellOrder Hwf' cellOrder_inRange) as (lost & Hl & Hiff).
    exists lost. split; [exact Hl|]. rewrite Hiff. now apply cellFine_lostGrid. }
  split; [now apply Hspec|]. split.
  - destruct (Hspec g Hwf) as (lost & Hl & Hiff).
    rewrite (checkGameOver_outcome g lost noPending Hl), <- Hiff.
    destruct lost; cbn; split; congruence.
  - intros r c v (r' & c' & x & Hx & Hn).
    destruct (Hspec (setCell g r c v) (setCell_wf g r c v Hwf)) as (lost & Hl & Hiff).
    rewrite (checkGameOver_outcome _ lost noPending Hl).
    destruct lost; [|reflexivity].
    exfalso. destruct (proj1 Hiff eq_refl) as [_ Hadj].
    destruct (Hadj r' c' x Hx) as [Hb Hs]. destruct Hn; contradiction.
Qed.

Lemma checkGameOver_lost_iff_witness :
  checkGameOverLoop cellOrder lost_example = Ok true
  /\ lostGrid lost_example
  /\ checkGameOver (setCell lost_example 3 3 4) noPending = (noPending, Ok tt).
Proof.
  destruct (checkGameOver_lost_iff lost_example eq_refl) as ((lost & Hl & Hiff) & _ & Hchg).
  assert (E : lost = true) by (vm_compute in Hl; congruence).
  subst lost. split; [exact Hl|]. split; [now apply Hiff|].
  apply Hchg. exists 3%nat, 2%nat, 4. split; [reflexivity | right; reflexivity].
Defined.

(** ** The best score read at start-up *)

Lemma digitsPrefix_acc (d : Decimal.uint) :
  forall acc : positive,
    digitsPrefix 10 (NilEmpty.string_of_uint d) (Some (Z.pos acc))
    = Some (Z.pos (Pos.of_uint_acc d acc)).
Proof.
  induction d; intros acc; cbn [NilEmpty.string_of_uint digitsPrefix Pos.of_uint_acc];
    [reflexivity|..];
    match goal with
    | |- context [digitValue 10 ?c] =>
        let v := eval vm_compute in (digitValue 10 c) in
        change (digitValue 10 c) with v
    end; cbv beta iota; cbn [default]; unfold id; rewrite <- IHd; do 2 f_equal; lia.
Qed.

Lemma digitsPrefix_zero (d : Decimal.uint) :
  digitsPrefix 10 (NilEmpty.string_of_uint d) (Some 0) = Some (Z.of_N (Pos.of_uint d)).
Proof.
  induction d; cbn [NilEmpty.string_of_uint digitsPrefix Pos.of_uint];
    [reflexivity|..];
    match goal with
    | |- context [digitValue 10 ?c] =>
        let v := eval vm_compute in (digitValue 10 c) in
        change (digitValue 10 c) with v
    end; cbv beta iota; cbn [default]; unfold id; cbn [Z.mul Z.add];
    solve [exact IHd | apply digitsPrefix_acc].
Qed.

(** Below [2^53] the integer read is a double: nothing is rounded. *)
Lemma parsed_small (sign m : Z) :
  0 <= m < 2 ^ 53 ->
  (if Qle_bool (2 ^ 1024) (roundDouble (inject_Z m)) then Inf (sign <? 0)
   else Int (sign * Qfloor (roundDouble (inject_Z m))))
  = Int (sign * m).
Proof.
  intros Hm. pose proof (roundDouble_small m Hm) as Hv.
  rewrite (Qfloor_comp _ _ Hv), Qfloor_Z.
  destruct (Qle_bool (2 ^ 1024) (roundDouble (inject_Z m))) eqn:E; [|reflexivity].
  exfalso. apply Qle_bool_iff in E. rewrite Hv, two_power_Z in E by lia.
  rewrite <- Zle_Qle in E.
  assert (H : 2 ^ 53 < 2 ^ 1024) by (apply Z.pow_lt_mono_r; lia).
  lia.
Qed.

Lemma parseInt_uint (d : Decimal.uint) :
  d <> Decimal.Nil ->
  Z.of_N (Pos.of_uint d) < 2 ^ 53 ->
  parseInt (NilEmpty.string_of_uint d) = Int (Z.of_N (Pos.of_uint d))
  /\ parseInt (String "-" (NilEmpty.string_of_uint d)) = Int (- Z.of_N (Pos.of_uint d)).
Proof.
  intros Hd Hsmall.
  assert (Hrange : 0 <= Z.of_N (Pos.of_uint d) < 2 ^ 53) by lia.
  assert (Hdigits : digitsPrefix 10 (NilEmpty.string_of_uint d) None
                    = Some (Z.of_N (Pos.of_uint d))).
  { destruct d; [congruence|..];
      cbn [NilEmpty.string_of_uint digitsPrefix Pos.of_uint];
      match goal with
      | |- context [digitValue 10 ?c] =>
          let v := eval vm_compute in (digitValue 10 c) in
          change (digitValue 10 c) with v
      end; cbv beta iota; cbn [default]; unfold id; cbn [Z.mul Z.add];
      solve [apply digitsPrefix_zero | apply digitsPrefix_acc]. }
  assert (Hshape : exists c s, NilEmpty.string_of_uint d = String c s
                               /\ isWhiteSpace c = false
                               /\ c <> "-"%char /\ c <> "+"%char
                               /\ (c = "0"%char ->
                                   forall s', s <> String "x" s' /\ s <> String "X" s')).
  { destruct d as [|d'|d'|d'|d'|d'|d'|d'|d'|d'|d']; [congruence|..];
      eexists _, _; (split; [reflexivity|]);
      (split; [reflexivity|]); (split; [discriminate|]); (split; [discriminate|]);
      intros Hc s'; try discriminate Hc.
    destruct d'; split; discriminate. }
  destruct Hshape as (c & s & Hs & Hws & Hm & Hp & Hx).
  rewrite Hs in *.
  assert (Hprefix : forall A (k : Z * string -> A),
            k (match String c s with
               | String "0" (String "x" s') => (16, s')
               | String "0" (String "X" s') => (16, s')
               | _ => (10, String c s)
               end) = k (10, String c s)).
  { intros A k. destruct (Ascii.eqb_spec c "0") as [->|Hc].
    - destruct s as [|c1 s1]; [reflexivity|].
      destruct (Hx eq_refl s1) as [H1 H2].
      destruct (Ascii.eqb_spec c1 "x") as [->|Hc1]; [congruence|].
      destruct (Ascii.eqb_spec c1 "X") as [->|Hc2]; [congruence|].
      destruct c1 as [[|] [|] [|] [|] [|] [|] [|] [|]]; try reflexivity; congruence.
    - destruct c as [[|] [|] [|] [|] [|] [|] [|] [|]]; try reflexivity; congruence. }
  split.
  - unfold parseInt. cbn [trimStart]. rewrite Hws.
    assert (Hsign : (match String c s with
                     | String "-" s' => (-1, s')
                     | String "+" s' => (1, s')
                     | _ => (1, String c s)
                     end) = (1, String c s)).
    { destruct c as [[|] [|] [|] [|] [|] [|] [|] [|]]; try reflexivity; congruence. }
    rewrite Hsign.
    rewrite (Hprefix _ (fun '(R, digits) =>
               match digitsPrefix R digits None with
               | Some m =>
                   if Qle_bool (2 ^ 1024) (roundDouble (inject_Z m)) then Inf (1 <? 0)
                   else Int (1 * Qfloor (roundDouble (inject_Z m)))
               | None => NaN
               end)).
    rewrite Hdigits, parsed_small by exact Hrange. f_equal; lia.
  - unfold parseInt. cbn [trimStart isWhiteSpace nat_of_ascii].
    change (isWhiteSpace "-") with false. cbv iota.
    rewrite (Hprefix _ (fun '(R, digits) =>
               match digitsPrefix R digits None with
               | Some m =>
                   if Qle_bool (2 ^ 1024) (roundDouble (inject_Z m)) then Inf (-1 <? 0)
                   else Int (-1 * Qfloor (roundDouble (inject_Z m)))
               | None => NaN
               end)).
    rewrite Hdigits, parsed_small by exact Hrange. f_equal; lia.
Qed.

Lemma parseInt_zero : parseInt "0" = Int 0.
Proof. vm_compute. reflexivity. Qed.

Lemma parseInt_toString (z : Z) : Z.abs z < 2 ^ 53 -> parseInt (toString z) = Int z.
Proof.
  intros Hz.
  unfold toString. destruct z as [|p|p]; [exact parseInt_zero|..];
    cbn [Z.to_int NilZero.string_of_int];
    pose proof (DecimalPos.Unsigned.to_uint_nonnil p) as Hn;
    pose proof (DecimalPos.Unsigned.of_to p) as Hof;
    (assert (Hp : Z.of_N (Pos.of_uint (Pos.to_uint p)) < 2 ^ 53)
       by (rewrite Hof; cbn [Z.of_N]; lia));
    destruct (parseInt_uint (Pos.to_uint p) Hn Hp) as [H1 H2];
    (replace (NilZero.string_of_uint (Pos.to_uint p))
       with (NilEmpty.string_of_uint (Pos.to_uint p))
       by (now destruct (Pos.to_uint p)));
    [rewrite H1 | rewrite H2]; rewrite Hof; reflexivity.
Qed.

(** X24: the read of the stored best score is [parseInt] of the stored
    string: an absent or empty value gives 0 and an integer below 2^53 in
    absolute value, written in decimal digits as the game writes its
    score, is read back; above 2^53 the value is rounded to a double, 2^53
    + 1 is read as 2^53; and a value that starts with a character that is
    neither white space, a sign nor a digit gives [NaN]. *)
Theorem initialBestScore_spec :
  initialBestScore None = Int 0
  /\ initialBestScore (Some EmptyString) = Int 0
  /\ (forall z : Z, Z.abs z < 2 ^ 53 -> initialBestScore (Some (toString z)) = Int z)
  /\ initialBestScore (Some "9007199254740993") = Int 9007199254740992
  /\ (forall (c : ascii) (v : string),
        isWhiteSpace c = false -> c <> "-"%char -> c <> "+"%char ->
        digitValue 10 c = None ->
        initialBestScore (Some (String c v)) = NaN).
Proof.
  split; [exact parseInt_zero|]. split; [exact parseInt_zero|]. split; [|split].
  - intros z Hz. unfold initialBestScore.
    destruct (toString z) as [|c s] eqn:E.
    + pose proof (parseInt_toString z Hz) as H. rewrite E in H. discriminate H.
    + rewrite <- E. now apply parseInt_toString.
  - vm_compute. reflexivity.
  - intros c v Hws Hm Hp Hd. unfold initialBestScore, parseInt.
    cbn [trimStart]. rewrite Hws.
    assert (Hc0 : c <> "0"%char) by (intros ->; discriminate Hd).
    assert (Hsign : (match String c v with
                     | String "-" s' => (-1, s')
                     | String "+" s' => (1, s')
                     | _ => (1, String c v)
                     end) = (1, String c v)).
    { destruct c as [[|] [|] [|] [|] [|] [|] [|] [|]]; try reflexivity; congruence. }
    rewrite Hsign.
    assert (Hpre : (match String c v with
                    | String "0" (String "x" s') => (16, s')
                    | String "0" (String "X" s') => (16, s')
                    | _ => (10, String c v)
                    end) = (10, String c v)).
    { destruct c as [[|] [|] [|] [|] [|] [|] [|] [|]]; try reflexivity; congruence. }
    rewrite Hpre. cbn [digitsPrefix]. now rewrite Hd.
Qed.

Lemma initialBestScore_spec_witness :
  initialBestScore (Some "1234") = Int 1234 /\ initialBestScore (Some "n/a") = NaN.
Proof.
  destruct initialBestScore_spec as (_ & _ & Hnum & _ & Hnan).
  split.
  - exact (Hnum 1234 eq_refl).
  - apply Hnan; [reflexivity | discriminate | discriminate | reflexivity].
Defined.

(** C8 fails in the code: the stored value "abc" cannot be parsed as an
    integer, and the best score read from it is [NaN], not 0; the default
    ['0'] covers only the absent and the empty value. *)
Lemma unparseable_best_score_is_NaN :
  initialBestScore (Some "abc") = NaN /\ initialBestScore (Some "abc") <> Int 0.
Proof. split; [reflexivity | discriminate]. Qed.

(** X17: a best score that is [NaN] stays: [newScore > bestScore] is false
    for every score, so no move updates it or writes the stored value. *)
Lemma NaN_bestScore_stays (s : AppState) (d : Direction) (u1 u2 : Q) (g : Grid) :
  getGrid (board s) = Ok g ->
  wf_grid g = true ->
  bestScore s = NaN ->
  bestScore (handle s (move s d u1 u2)).1 = NaN
  /\ stored (handle s (move s d u1 u2)).1 = stored s.
Proof.
  intros Hb Hwf Hnan.
  assert (Hh : (handle s (move s d u1 u2)).1 = commit s (move s d u1 u2 noPending).1).
  { unfold handle. now destruct (move s d u1 u2 noPending). }
  rewrite Hh. clear Hh.
  enough (H : pendingBestScore (move s d u1 u2 noPending).1 = None
              /\ pendingItem (move s d u1 u2 noPending).1 = None).
  { destruct H as [H1 H2]. unfold commit. cbn [bestScore stored]. now rewrite H1, H2. }
  destruct (isGameOver s && negb (isWin s)) eqn:Hg.
  { rewrite move_guarded by exact Hg. split; reflexivity. }
  rewrite (move_spec s d u1 u2 g) by assumption. unfold slideOutcome. cbv zeta.
  destruct (if tagThrows (rotations d) then _ else None); [split; reflexivity|].
  destruct (moved _); [|split; reflexivity].
  unfold afterSlide, checkGameOver. rewrite Hnan.
  rewrite bind_lift.
  destruct (addRandomTile u1 u2 _) as [g2| |]; [|split; reflexivity..].
  rewrite bind_lift.
  destruct (findNewTilePos _ g2) as [pos| |]; [|split; reflexivity..].
  rewrite bind_lift.
  destruct (transformToTileObjects g2 pos _ (idCounter s))
    as [[tiles nextId]| |]; [|split; reflexivity..].
  cbv beta iota.
  destruct (checkGameOverLoop cellOrder g2) as [[|]| |]; split; reflexivity.
Qed.

(** ** The tags of the merged cells *)

Lemma elem_of_mergedIndexes (ps : list (Z * bool)) :
  forall off k,
    k ∈ mergedIndexes off ps
    <-> exists v, (off <= k)%nat /\ ps !! (k - off)%nat = Some (v, true).
Proof.
  induction ps as [|[v m] ps IH]; intros off k; cbn [mergedIndexes].
  - split; [intros H; now apply elem_of_nil in H | intros (v & _ & H); discriminate].
  - rewrite elem_of_app, IH. split.
    + intros [H | (w & Hle & Hw)].
      * destruct m; [|now apply elem_of_nil in H].
        apply list_elem_of_singleton in H as ->. exists v. split; [lia|].
        now rewrite Nat.sub_diag.
      * exists w. split; [lia|]. replace (k - off)%nat with (S (k - S off)) by lia.
        exact Hw.
    + intros (w & Hle & Hw). destruct (decide (k = off)) as [->|Hne].
      * left. rewrite Nat.sub_diag in Hw. cbn in Hw. injection Hw as -> ->.
        now apply list_elem_of_singleton.
      * right. exists w. split; [lia|].
        replace (k - off)%nat with (S (k - S off)) in Hw by lia. exact Hw.
Qed.

Lemma elem_of_keysOf (r off : nat) (ps : list (Z * bool)) (x : cellKey) :
  x ∈ keysOf r off ps
  <-> exists k v, x = (Some r, Some k) /\ (off <= k)%nat
                  /\ ps !! (k - off)%nat = Some (v, true).
Proof.
  unfold keysOf. rewrite elem_of_list_to_set, list_elem_of_fmap. split.
  - intros (k & -> & Hk). apply elem_of_mergedIndexes in Hk as (v & Hle & Hv).
    now exists k, v.
  - intros (k & v & -> & Hle & Hv). exists k. split; [reflexivity|].
    apply elem_of_mergedIndexes. now exists v.
Qed.

Lemma mergeValues_nil_flags (ps : list (Z * bool)) :
  mergeValues ps = [] -> forall i v, ps !! i ≠ Some (v, true).
Proof.
  unfold mergeValues. induction ps as [|[w m] ps IH]; intros H i v Hi; [discriminate|].
  cbn [List.filter snd] in H. destruct m; [discriminate|].
  destruct i as [|i]; [discriminate|]. now apply (IH H i v).
Qed.

Lemma mergedCells_slideLocals (g : Grid) (x : cellKey) :
  wf_grid g = true ->
  x ∈ mergedCells (slideLocals g)
  <-> exists r cells, g !! r = Some cells /\ x ∈ keysOf r 0 (mergePairs (compact cells)).
Proof.
  intros (a0&a1&a2&a3&b0&b1&b2&b3&c0&c1&c2&c3&d0&d1&d2&d3&->)%wf_grid_shape.
  unfold slideLocals.
  cbn [length seq zip zip_with foldl rowLocals mergedCells fst snd].
  rewrite !elem_of_union. split.
  - intros [H | [H | [H | [H | H]]]].
    + now exists 3%nat, [d0; d1; d2; d3].
    + now exists 2%nat, [c0; c1; c2; c3].
    + now exists 1%nat, [b0; b1; b2; b3].
    + now exists 0%nat, [a0; a1; a2; a3].
    + now apply elem_of_empty in H.
  - intros (r & cells & Hr & H).
    destruct r as [|[|[|[|?]]]]; cbn in Hr; try discriminate;
      injection Hr as <-; tauto.
Qed.

(** The tagging of the merged cells.  For a direction other than left the
    call that un-rotates the coordinate of a merged tile gives [rotate] an
    array of one row and a positive count; the first read, of row 3, finds
    no row and throws a TypeError.  So a move in such a direction ends with this
    exception at its first merge and tags nothing; when no line merges it
    returns with an empty set of tags.  For the direction left the cell
    [(r, c)] is tagged exactly when the [c]-th tile of the slid row [r] was
    made by a merge. *)
Theorem merged_cell_tagging :
  forall (g : Grid) (p : Pending),
    wf_grid g = true ->
    (forall n r k : nat, (0 < n < 4)%nat ->
       rotateOnce [[Some r; Some k]] = Throw TypeError
       /\ unrotatedKey n r k = Throw TypeError)
    /\ (forall d, d <> left ->
          match allMerges (Nat.iter (rotations d) quarterTurn g) with
          | v :: _ => slide d g p = (logged p [v], Throw TypeError)
          | [] => exists loc, slide d g p = (p, Ok (slideGrid d g, loc))
                              /\ mergedCells loc = ∅
          end)
    /\ (exists loc,
          slide left g p = (logged p (allMerges g), Ok (map slideSpec g, loc))
          /\ forall r c : nat,
               (Some r, Some c) ∈ mergedCells loc
               <-> exists cells v, g !! r = Some cells
                                   /\ mergePairs (compact cells) !! c = Some (v, true)).
Proof.
  intros g p Hwf. split; [|split].
  - intros n r k Hn. split; [reflexivity|].
    rewrite unrotatedKey_spec. unfold tagThrows.
    destruct n as [|[|[|[|?]]]]; try lia; reflexivity.
  - intros d Hd. rewrite slide_spec by exact Hwf. unfold slideOutcome. cbv zeta.
    assert (Ht : tagThrows (rotations d) = true) by (destruct d; reflexivity || congruence).
    rewrite Ht.
    destruct (allMerges (Nat.iter (rotations d) quarterTurn g)) as [|v ms] eqn:E;
      [|reflexivity].
    cbn [head]. rewrite logged_nil. eexists. split; [reflexivity|].
    apply elem_of_equiv_empty_L. intros x Hx.
    apply mergedCells_slideLocals in Hx as (r & cells & Hr & Hx);
      [|now apply iter_quarterTurn_wf].
    apply elem_of_keysOf in Hx as (k & v & _ & _ & Hv).
    rewrite allMerges_nil in E.
    apply (mergeValues_nil_flags _ (E cells (list_elem_of_lookup_2 _ _ _ Hr)) _ _ Hv).
  - rewrite slide_spec by exact Hwf. eexists. split; [reflexivity|].
    intros r c. cbn [rotations Nat.iter nat_rect].
    rewrite mergedCells_slideLocals by exact Hwf. split.
    + intros (r' & cells & Hr & Hx).
      apply elem_of_keysOf in Hx as (k & v & [= -> ->] & _ & Hv).
      rewrite Nat.sub_0_r in Hv. now exists cells, v.
    + intros (cells & v & Hr & Hv). exists r, cells. split; [exact Hr|].
      apply elem_of_keysOf. exists c, v. rewrite Nat.sub_0_r.
      split; [reflexivity | split; [lia | exact Hv]].
Qed.

Lemma merged_cell_tagging_witness :
  slide up [[2; 0; 0; 0]; [2; 0; 0; 0]; [0; 0; 0; 0]; [0; 0; 0; 0]] noPending
  = (logged noPending [4], Throw TypeError).
Proof.
  destruct (merged_cell_tagging [[2; 0; 0; 0]; [2; 0; 0; 0]; [0; 0; 0; 0]; [0; 0; 0; 0]]
              noPending eq_refl) as (_ & Hd & _).
  apply (Hd up). discriminate.
Defined.

(** C9 fails in the code: the tagging is meant to record the cell of the
    merged tile, and for a move up it records nothing.  With two equal
    tiles in a column the call that un-rotates the coordinate throws, the
    move ends with an uncaught TypeError, and the next state is the state
    before the move, with its board, on which no tile is tagged as
    merged. *)
Lemma tagging_throws_instead_of_mistagging :
  handle column_pair (move column_pair up (1 # 2) (1 # 2)) = (column_pair, Throw TypeError)
  /\ Forall (fun tile => TileData.isMerged tile = false) (board column_pair).
Proof. split; [vm_compute; reflexivity | repeat constructor]. Qed.

(** ** The slide of a row *)

(** Moving left, the slide returns for every 4x4 grid, and every row is
    slid as the specification says. *)
Lemma slide_left_rows (g : Grid) (p : Pending) :
  wf_grid g = true ->
  slide left g p = (logged p (allMerges g), Ok (map slideSpec g, slideLocals g)).
Proof. intros Hwf. now rewrite slide_spec. Qed.

Lemma short_row_never_merges (cells : list Z) :
  (length (compact cells) < 2)%nat ->
  mergeValues (mergePairs (compact cells)) = []
  /\ tileValues (mergePairs (compact cells)) = compact cells.
Proof.
  destruct (compact cells) as [|a [|b rest]]; cbn [length]; intros H;
    [split; reflexivity.. | lia].
Qed.

Example slideSpec_2222 : slideSpec [2; 2; 2; 2] = [4; 4; 0; 0].
Proof. reflexivity. Qed.

(** C1 holds for a move to the left and fails for the other directions:
    moved to the left, the row [2, 2, 2, 2] becomes [4, 4, 0, 0]; moved up,
    a column with two tiles 2 is the row [0, 0, 2, 2] of the turned grid,
    which the step is to turn into [4, 0, 0, 0], but the move ends with an
    uncaught TypeError at the merge and no row is returned. *)
Theorem merge_aborts_off_left :
  gridOf (slide left [[2; 2; 2; 2]; [0; 0; 0; 0]; [0; 0; 0; 0]; [0; 0; 0; 0]] noPending)
  = Ok [[4; 4; 0; 0]; [0; 0; 0; 0]; [0; 0; 0; 0]; [0; 0; 0; 0]]
  /\ (Nat.iter (rotations up) quarterTurn
        [[2; 0; 0; 0]; [2; 0; 0; 0]; [0; 0; 0; 0]; [0; 0; 0; 0]]) !! 0%nat
     = Some [0; 0; 2; 2]
  /\ slideSpec [0; 0; 2; 2] = [4; 0; 0; 0]
  /\ slide up [[2; 0; 0; 0]; [2; 0; 0; 0]; [0; 0; 0; 0]; [0; 0; 0; 0]] noPending
     = (logged noPending [4], Throw TypeError).
Proof. repeat split; vm_compute; reflexivity. Qed.

(** * Further properties of the code *)

(** ** The tiles of a grid *)

Lemma tilesLoop_spec (g : Grid) (pos : option (nat * nat)) (mc : option (gset cellKey))
    (cells : list (nat * nat)) :
  wf_grid g = true -> Forall inRange cells ->
  forall idc : nat,
    let found := filter (fun rc => cellAt g rc.1 rc.2 ≠ Some 0) cells in
    tilesLoop cells g pos mc idc
    = Ok (imap (fun k rc => tileAt g pos mc (idc + k) rc) found,
          (idc + length found)%nat).
Proof.
  intros Hwf Hin. induction Hin as [|[r c] cells Hrc Hin IH]; intros idc; cbv zeta.
  - cbn. now rewrite Nat.add_0_r.
  - pose proof Hrc as [Hr Hc]. cbn [fst snd] in Hr, Hc.
    cbn [tilesLoop]. rewrite (readAt_wf g r c) by assumption. cbn [mbind result_bind].
    assert (is_Some (cellAt g r c)) as [v Hv] by now apply cellAt_wf.
    rewrite Hv. rewrite filter_cons. cbn [fst snd]. rewrite Hv.
    destruct (decide (v ≠ 0)) as [Hnz|Hz].
    + rewrite decide_True by congruence.
      rewrite IH. cbn [mbind result_bind]. cbv zeta. f_equal. f_equal.
      * cbn [imap]. f_equal.
        -- unfold tileAt. cbn [fst snd]. rewrite Hv, Nat.add_0_r. reflexivity.
        -- apply imap_ext. intros k rc _. cbn. f_equal. lia.
      * cbn [length]. lia.
    + rewrite decide_False by (intros H; apply H; f_equal; now apply dec_stable).
      apply IH.
Qed.

Lemma transformToTileObjects_spec (g : Grid) (pos : option (nat * nat))
    (mc : option (gset cellKey)) (idc : nat) :
  wf_grid g = true ->
  transformToTileObjects g pos mc idc
  = Ok (tilesOf g pos mc idc, (idc + length (tilesOf g pos mc idc))%nat).
Proof.
  intros Hwf. unfold transformToTileObjects, tilesOf.
  rewrite (tilesLoop_spec g pos mc cellOrder Hwf cellOrder_inRange). cbv zeta.
  fold (tileCells g). now rewrite length_imap.
Qed.

Lemma elem_of_tileCells (g : Grid) (r c : nat) :
  wf_grid g = true ->
  (r, c) ∈ tileCells g <-> exists v, cellAt g r c = Some v /\ v ≠ 0.
Proof.
  intros Hwf. unfold tileCells. rewrite list_elem_of_filter. cbn [fst snd]. split.
  - intros [Hnz Hin]. eapply Forall_forall in Hin; [|apply cellOrder_inRange].
    assert (is_Some (cellAt g r c)) as [v Hv] by now apply cellAt_wf.
    exists v. split; [exact Hv | congruence].
  - intros (v & Hv & Hnz). split; [congruence|].
    assert (Hs : is_Some (cellAt g r c)) by (rewrite Hv; eauto).
    apply cellAt_wf in Hs as [? ?]; [|exact Hwf]. now apply elem_of_cellOrder.
Qed.

Lemma tileCells_NoDup (g : Grid) : NoDup (tileCells g).
Proof. apply NoDup_filter, cellOrder_NoDup. Qed.

Lemma tilesOf_lookup (g : Grid) pos mc (idc k : nat) :
  tilesOf g pos mc idc !! k = tileAt g pos mc (idc + k) <$> tileCells g !! k.
Proof. unfold tilesOf. now rewrite list_lookup_imap. Qed.

Lemma tilesOf_ids (g : Grid) pos mc (idc : nat) :
  map TileData.id (tilesOf g pos mc idc) = seq idc (length (tilesOf g pos mc idc)).
Proof.
  unfold tilesOf. rewrite length_imap. generalize (tileCells g). intros l.
  revert idc. induction l as [|rc l IH]; intros idc; [reflexivity|].
  cbn [imap map length seq]. f_equal; [cbn; lia|].
  rewrite <- IH. f_equal. apply imap_ext. intros k x _. cbn. f_equal. lia.
Qed.

Lemma tilesOf_positions (g : Grid) pos mc (idc : nat) :
  map (fun tile => (TileData.y tile, TileData.x tile)) (tilesOf g pos mc idc) = tileCells g.
Proof.
  unfold tilesOf. generalize (tileCells g). intros l.
  revert idc. induction l as [|[r c] l IH]; intros idc; [reflexivity|].
  cbn [imap map]. f_equal.
  rewrite <- (IH (S idc)) at 2. f_equal. apply imap_ext. intros k x _. cbn. f_equal. lia.
Qed.

(** ** The grid of a board *)

Lemma placeTile_onGrid (acc : Grid) (tile : TileData.t) :
  wf_grid acc = true -> onGrid tile ->
  placeTile acc tile
  = Ok (setCell acc (TileData.y tile) (TileData.x tile) (TileData.value tile)).
Proof. destruct tile. apply placeTile_inRange. Qed.

Lemma getGridLoop_spec (board : list TileData.t) :
  Forall onGrid board ->
  forall acc : Grid,
    wf_grid acc = true ->
    exists g,
      getGridLoop board acc = Ok g
      /\ wf_grid g = true
      /\ forall r c,
           cellAt g r c
           = (fun v0 => foldl (fun v tile =>
                                 if decide (TileData.y tile = r /\ TileData.x tile = c)
                                 then TileData.value tile else v) v0 board)
               <$> cellAt acc r c.
Proof.
  induction 1 as [|tile board Htile Hboard IH]; intros acc Hacc.
  - exists acc. split; [reflexivity|]. split; [exact Hacc|]. intros r c.
    cbn [foldl]. now destruct (cellAt acc r c).
  - cbn [getGridLoop]. rewrite placeTile_onGrid by assumption. cbn [mbind result_bind].
    destruct (IH (setCell acc (TileData.y tile) (TileData.x tile) (TileData.value tile)))
      as (g & Hg & Hwf & Hcells); [now apply setCell_wf|].
    exists g. split; [exact Hg|]. split; [exact Hwf|]. intros r c.
    rewrite Hcells. cbn [foldl].
    assert (Hsome : is_Some (cellAt acc (TileData.y tile) (TileData.x tile)))
      by now apply cellAt_wf.
    rewrite cellAt_setCell by exact Hsome.
    destruct (decide ((TileData.y tile, TileData.x tile) = (r, c))) as [[= <- <-]|Hne].
    + destruct Hsome as [v0 ->]. cbn [fmap option_fmap option_map].
      now rewrite decide_True by tauto.
    + destruct (cellAt acc r c) as [v0|]; [|reflexivity].
      cbn [fmap option_fmap option_map].
      now rewrite decide_False by (intros [<- <-]; now apply Hne).
Qed.

Lemma getGridLoop_app (pre rest : list TileData.t) (acc : Grid) :
  getGridLoop (pre ++ rest) acc = (getGridLoop pre acc ≫= getGridLoop rest).
Proof.
  revert acc. induction pre as [|tile pre IH]; intros acc; [reflexivity|].
  cbn [app getGridLoop]. destruct (placeTile acc tile) as [acc'| |]; try reflexivity.
  cbn [mbind result_bind]. apply IH.
Qed.

Lemma zero_grid_cellAt (r c : nat) :
  (r < TILE_COUNT)%nat -> (c < TILE_COUNT)%nat ->
  cellAt (replicate TILE_COUNT (replicate TILE_COUNT 0)) r c = Some 0.
Proof.
  unfold TILE_COUNT. intros Hr Hc.
  destruct r as [|[|[|[|?]]]]; try lia; destruct c as [|[|[|[|?]]]]; try lia; reflexivity.
Qed.

(** X1: [getGrid] on a board whose tiles all sit on the grid returns a grid of
    4 rows of 4 cells; each cell holds the value of the last tile of the
    board on that cell, and 0 when no tile is on it. *)
Theorem getGrid_cells :
  forall board : list TileData.t,
    Forall onGrid board ->
    exists g,
      getGrid board = Ok g
      /\ wf_grid g = true
      /\ forall r c, (r < TILE_COUNT)%nat -> (c < TILE_COUNT)%nat ->
                     cellAt g r c = Some (valueAt board r c).
Proof.
  intros board Hboard.
  destruct (getGridLoop_spec board Hboard (replicate TILE_COUNT (replicate TILE_COUNT 0)))
    as (g & Hg & Hwf & Hcells); [reflexivity|].
  exists g. split; [exact Hg|]. split; [exact Hwf|]. intros r c Hr Hc.
  rewrite Hcells, zero_grid_cellAt by assumption. reflexivity.
Qed.

Lemma getGrid_cells_witness :
  exists g,
    getGrid [TileData.mk 2 1 0 1 false false; TileData.mk 8 1 0 2 false false] = Ok g
    /\ cellAt g 0 1 = Some 8 /\ cellAt g 0 0 = Some 0.
Proof.
  destruct (getGrid_cells
              [TileData.mk 2 1 0 1 false false; TileData.mk 8 1 0 2 false false])
    as (g & Hg & _ & Hcells).
  - repeat constructor; cbn; unfold TILE_COUNT; lia.
  - exists g. split; [exact Hg|]. split.
    + apply (Hcells 0%nat 1%nat); unfold TILE_COUNT; lia.
    + apply (Hcells 0%nat 0%nat); unfold TILE_COUNT; lia.
Defined.

(** X2: [getGrid] throws a TypeError at the first tile whose row [y] is not
    a row of the grid, when the tiles before it sit on the grid; the write
    [grid[tile.y][tile.x]] then reads a property of [undefined]. *)
Theorem getGrid_row_out_of_range :
  forall (pre rest : list TileData.t) (tile : TileData.t),
    Forall onGrid pre ->
    (TILE_COUNT <= TileData.y tile)%nat ->
    getGrid (pre ++ tile :: rest) = Throw TypeError.
Proof.
  intros pre rest tile Hpre Hy. unfold getGrid. rewrite getGridLoop_app.
  destruct (getGridLoop_spec pre Hpre (replicate TILE_COUNT (replicate TILE_COUNT 0)))
    as (g & -> & Hwf & _); [reflexivity|].
  cbn [mbind result_bind getGridLoop]. unfold placeTile.
  rewrite (lookup_ge_None_2 g (TileData.y tile)); [reflexivity|].
  unfold wf_grid in Hwf. apply andb_prop in Hwf as [Hlen _].
  apply Nat.eqb_eq in Hlen. lia.
Qed.

Lemma getGrid_row_out_of_range_witness :
  getGrid [TileData.mk 2 0 0 1 false false; TileData.mk 2 0 4 2 false false]
  = Throw TypeError.
Proof.
  apply (getGrid_row_out_of_range [TileData.mk 2 0 0 1 false false] []
           (TileData.mk 2 0 4 2 false false)).
  - repeat constructor; cbn; unfold TILE_COUNT; lia.
  - cbn. unfold TILE_COUNT. lia.
Defined.

Lemma tileCells_length (g : Grid) : (length (tileCells g) <= 16)%nat.
Proof.
  unfold tileCells. etransitivity; [apply length_filter|]. reflexivity.
Qed.

(** X3: on a grid of 4 rows of 4 cells [transformToTileObjects] returns at
    most 16 tiles; their identifiers are the consecutive numbers from the
    value [idCounter.current] had, in the order of the tiles, so they are
    pairwise different, and [idCounter.current] ends as the first unused
    number. *)
Theorem tile_ids_consecutive :
  forall (g : Grid) (newTilePos : option (nat * nat)) (mergedCells : option (gset cellKey))
         (idCounter : nat),
    wf_grid g = true ->
    exists tiles,
      transformToTileObjects g newTilePos mergedCells idCounter
      = Ok (tiles, (idCounter + length tiles)%nat)
      /\ (length tiles <= 16)%nat
      /\ map TileData.id tiles = seq idCounter (length tiles)
      /\ NoDup (map TileData.id tiles).
Proof.
  intros g pos mc idc Hwf. exists (tilesOf g pos mc idc).
  split; [now apply transformToTileObjects_spec|].
  split; [unfold tilesOf; rewrite length_imap; apply tileCells_length|].
  split; [apply tilesOf_ids|].
  rewrite tilesOf_ids. apply NoDup_ListNoDup, seq_NoDup.
Qed.

Lemma tile_ids_consecutive_witness :
  exists tiles,
    transformToTileObjects [[2; 0; 0; 0]; [0; 4; 0; 0]; [0; 0; 0; 0]; [0; 0; 0; 8]]
                           None None 5
    = Ok (tiles, (5 + length tiles)%nat)
    /\ map TileData.id tiles = seq 5 (length tiles).
Proof.
  destruct (tile_ids_consecutive
              [[2; 0; 0; 0]; [0; 4; 0; 0]; [0; 0; 0; 0]; [0; 0; 0; 8]] None None 5 eq_refl)
    as (tiles & Ht & _ & Hids & _).
  exists tiles. split; [exact Ht | exact Hids].
Defined.

(** X4: the tiles [transformToTileObjects] makes from a grid of 4 rows of 4
    cells are the non-zero cells of the grid, one tile for each: a tile has
    the value of the cell at row [y] and column [x], no two tiles are on
    the same cell, [isNew] is set exactly on the tile at [newTilePos] and
    [isMerged] exactly on the tiles whose key is in [mergedCells]. *)
Theorem tiles_are_the_nonzero_cells :
  forall (g : Grid) (newTilePos : option (nat * nat)) (mergedCells : option (gset cellKey))
         (idCounter : nat),
    wf_grid g = true ->
    exists tiles next,
      transformToTileObjects g newTilePos mergedCells idCounter = Ok (tiles, next)
      /\ NoDup (map (fun tile => (TileData.y tile, TileData.x tile)) tiles)
      /\ (forall tile, tile ∈ tiles ->
            TileData.value tile ≠ 0
            /\ cellAt g (TileData.y tile) (TileData.x tile) = Some (TileData.value tile)
            /\ TileData.isNew tile
               = bool_decide (newTilePos = Some (TileData.y tile, TileData.x tile))
            /\ TileData.isMerged tile
               = match mergedCells with
                 | Some cells =>
                     bool_decide ((Some (TileData.y tile), Some (TileData.x tile)) ∈ cells)
                 | None => false
                 end)
      /\ (forall r c v, cellAt g r c = Some v -> v ≠ 0 ->
            exists tile, tile ∈ tiles /\ TileData.y tile = r /\ TileData.x tile = c).
Proof.
  intros g pos mc idc Hwf. eexists _, _.
  split; [now apply transformToTileObjects_spec|].
  split; [rewrite tilesOf_positions; apply tileCells_NoDup|]. split.
  - intros tile [k Hk]%list_elem_of_lookup. rewrite tilesOf_lookup in Hk.
    destruct (tileCells g !! k) as [[r c]|] eqn:E; [|discriminate].
    injection Hk as <-. apply list_elem_of_lookup_2 in E.
    apply elem_of_tileCells in E as (v & Hv & Hnz); [|exact Hwf].
    unfold tileAt. cbn. rewrite Hv. cbn. auto.
  - intros r c v Hv Hnz.
    assert (Hin : (r, c) ∈ tileCells g) by (apply elem_of_tileCells; eauto).
    apply list_elem_of_lookup in Hin as [k Hk].
    exists (tileAt g pos mc (idc + k) (r, c)). split; [|split; reflexivity].
    apply (list_elem_of_lookup_2 _ k). now rewrite tilesOf_lookup, Hk.
Qed.

Lemma tiles_are_the_nonzero_cells_witness :
  exists tiles next,
    transformToTileObjects [[2; 0; 0; 0]; [0; 4; 0; 0]; [0; 0; 0; 0]; [0; 0; 0; 8]]
                           (Some (1, 1)%nat) None 1
    = Ok (tiles, next)
    /\ exists tile, tile ∈ tiles /\ TileData.y tile = 3%nat /\ TileData.x tile = 3%nat.
Proof.
  destruct (tiles_are_the_nonzero_cells
              [[2; 0; 0; 0]; [0; 4; 0; 0]; [0; 0; 0; 0]; [0; 0; 0; 8]]
              (Some (1, 1)%nat) None 1 eq_refl)
    as (tiles & next & Ht & _ & _ & Hall).
  exists tiles, next. split; [exact Ht|].
  apply (Hall 3%nat 3%nat 8); [reflexivity | discriminate].
Defined.

(** X5: the board and the grid are two forms of the same data: [getGrid]
    applied to the tiles that [transformToTileObjects] makes from a grid of
    4 rows of 4 cells returns that grid, whatever the animation data and
    the identifiers. *)
Theorem getGrid_after_transformToTileObjects :
  forall (g : Grid) (newTilePos : option (nat * nat)) (mergedCells : option (gset cellKey))
         (idCounter : nat),
    wf_grid g = true ->
    exists tiles next,
      transformToTileObjects g newTilePos mergedCells idCounter = Ok (tiles, next)
      /\ Forall onGrid tiles
      /\ getGrid tiles = Ok g.
Proof.
  intros g pos mc idc Hwf.
  destruct (getGrid_transform g pos mc idc Hwf) as (tiles & next & Ht & Hg).
  exists tiles, next. split; [exact Ht|]. split; [|exact Hg].
  rewrite transformToTileObjects_spec in Ht by exact Hwf. injection Ht as <- _.
  apply Forall_forall. intros tile [k Hk]%list_elem_of_lookup.
  rewrite tilesOf_lookup in Hk.
  destruct (tileCells g !! k) as [[r c]|] eqn:E; [|discriminate].
  injection Hk as <-. apply list_elem_of_lookup_2 in E.
  apply elem_of_tileCells in E as (v & Hv & _); [|exact Hwf].
  unfold onGrid, tileAt, inRange. cbn [TileData.y TileData.x fst snd].
  apply (proj1 (cellAt_wf g r c Hwf)). rewrite Hv. eauto.
Qed.

Lemma getGrid_after_transformToTileObjects_witness :
  exists tiles next,
    transformToTileObjects [[2; 0; 0; 0]; [0; 4; 0; 0]; [0; 0; 0; 0]; [0; 0; 0; 8]]
                           None None 1 = Ok (tiles, next)
    /\ getGrid tiles = Ok [[2; 0; 0; 0]; [0; 4; 0; 0]; [0; 0; 0; 0]; [0; 0; 0; 8]].
Proof.
  destruct (getGrid_after_transformToTileObjects
              [[2; 0; 0; 0]; [0; 4; 0; 0]; [0; 0; 0; 0]; [0; 0; 0; 8]] None None 1 eq_refl)
    as (tiles & next & Ht & _ & Hg).
  now exists tiles, next.
Defined.

(** ** [findNewTilePos] *)

Lemma findNewTilePosLoop_spec (oldGrid newGrid : Grid) (cells : list (nat * nat)) :
  wf_grid oldGrid = true -> wf_grid newGrid = true -> Forall inRange cells ->
  findNewTilePosLoop cells oldGrid newGrid
  = Ok (head (filter (fun rc => cellAt oldGrid rc.1 rc.2 = Some 0
                                /\ cellAt newGrid rc.1 rc.2 ≠ Some 0) cells)).
Proof.
  intros Ho Hn Hin. induction Hin as [|[r c] cells [Hr Hc] Hin IH]; [reflexivity|].
  cbn [fst snd] in Hr, Hc. cbn [findNewTilePosLoop].
  rewrite (readAt_wf oldGrid r c), (readAt_wf newGrid r c) by assumption.
  cbn [mbind result_bind]. rewrite filter_cons. cbn [fst snd].
  destruct (decide (cellAt oldGrid r c = Some 0)) as [E|E].
  - cbn [mbind result_bind].
    destruct (decide (cellAt newGrid r c ≠ Some 0)) as [E'|E'].
    + now rewrite decide_True by tauto.
    + rewrite decide_False by tauto. exact IH.
  - rewrite decide_False by tauto. exact IH.
Qed.

Lemma findNewTilePos_same (g : Grid) :
  wf_grid g = true -> findNewTilePos g g = Ok None.
Proof.
  intros Hwf. unfold findNewTilePos.
  rewrite findNewTilePosLoop_spec by (assumption || apply cellOrder_inRange).
  f_equal.
  destruct (filter _ cellOrder) as [|rc l] eqn:E; [reflexivity|].
  assert (Hin : rc ∈ rc :: l) by left. rewrite <- E in Hin.
  apply list_elem_of_filter in Hin as [[H1 H2] _]. contradiction.
Qed.

Lemma findNewTilePos_setCell (g : Grid) (r c : nat) (v : Z) :
  wf_grid g = true -> cellAt g r c = Some 0 -> v ≠ 0 ->
  findNewTilePos g (setCell g r c v) = Ok (Some (r, c)).
Proof.
  intros Ho H0 Hv. unfold findNewTilePos.
  assert (Hs : is_Some (cellAt g r c)) by (rewrite H0; eauto).
  rewrite findNewTilePosLoop_spec
    by (assumption || apply cellOrder_inRange || now apply setCell_wf).
  f_equal.
  assert (Hone : forall rc,
             rc ∈ filter (fun rc => cellAt g rc.1 rc.2 = Some 0
                            /\ cellAt (setCell g r c v) rc.1 rc.2 ≠ Some 0) cellOrder
             <-> rc = (r, c)).
  { intros [r' c']. rewrite list_elem_of_filter. cbn [fst snd].
    rewrite cellAt_setCell by exact Hs. split.
    - intros [[H1 H2] _]. destruct (decide ((r, c) = (r', c'))); [congruence|contradiction].
    - intros [= -> ->]. rewrite decide_True by reflexivity.
      split; [split; [exact H0 | congruence]|].
      apply cellAt_wf in Hs as [? ?]; [|exact Ho]. now apply elem_of_cellOrder. }
  destruct (filter _ cellOrder) as [|rc l].
  - exfalso. eapply not_elem_of_nil. apply Hone. reflexivity.
  - cbn [head]. f_equal. apply Hone. left.
Qed.

(** X6: on two grids of 4 rows of 4 cells [findNewTilePos] returns the first
    cell, in row order, that is empty in the old grid and holds a tile in
    the new one, and [null] when there is none: for a grid compared with
    itself, and it finds the cell of the tile that [addRandomTile] wrote on
    an empty cell. *)
Theorem findNewTilePos_first :
  forall oldGrid newGrid : Grid,
    wf_grid oldGrid = true -> wf_grid newGrid = true ->
    findNewTilePos oldGrid newGrid = Ok (head (appeared oldGrid newGrid))
    /\ findNewTilePos oldGrid oldGrid = Ok None
    /\ (forall r c v, cellAt oldGrid r c = Some 0 -> v ≠ 0 ->
          findNewTilePos oldGrid (setCell oldGrid r c v) = Ok (Some (r, c))).
Proof.
  intros oldGrid newGrid Ho Hn. split; [|split].
  - unfold findNewTilePos.
    now apply findNewTilePosLoop_spec; [| |apply cellOrder_inRange].
  - now apply findNewTilePos_same.
  - intros r c v H0 Hv. now apply findNewTilePos_setCell.
Qed.

Lemma findNewTilePos_first_witness :
  findNewTilePos [[2; 0; 0; 0]; [0; 0; 0; 0]; [0; 0; 0; 0]; [0; 0; 0; 0]]
                 [[2; 0; 0; 0]; [0; 0; 4; 0]; [0; 0; 0; 0]; [0; 0; 0; 0]]
  = Ok (Some (1, 2)%nat).
Proof.
  destruct (findNewTilePos_first
              [[2; 0; 0; 0]; [0; 0; 0; 0]; [0; 0; 0; 0]; [0; 0; 0; 0]]
              [[2; 0; 0; 0]; [0; 0; 4; 0]; [0; 0; 0; 0]; [0; 0; 0; 0]] eq_refl eq_refl)
    as (_ & _ & H).
  exact (H 1%nat 2%nat 4 eq_refl ltac:(discriminate)).
Defined.

(** ** The ways a move ends *)

Lemma spawnValue_nonzero (u2 : Q) : spawnValue u2 ≠ 0.
Proof. unfold spawnValue. now destruct (Qle_bool (9 # 10) u2). Qed.

Lemma afterSlide_tiles (s : AppState) (u1 u2 : Q) (g1 : Grid) (r c : nat) (loc : Locals)
    (p1 : Pending) :
  wf_grid g1 = true ->
  cellAt g1 r c = Some 0 ->
  addRandomTile u1 u2 g1 = Ok (setCell g1 r c (spawnValue u2)) ->
  exists lost,
    (lost = true <-> lostGrid (setCell g1 r c (spawnValue u2)))
    /\ afterSlide s u1 u2 g1 loc p1
       = (let g2 := setCell g1 r c (spawnValue u2) in
          let tiles := tilesOf g2 (Some (r, c)) (Some (mergedCells loc)) (idCounter s) in
          spawned s tiles (idCounter s + length tiles) lost loc p1, Ok tt).
Proof.
  intros H1 H0 Ha.
  assert (H2 : wf_grid (setCell g1 r c (spawnValue u2)) = true) by now apply setCell_wf.
  destruct (checkGameOverLoop_spec _ cellOrder H2 cellOrder_inRange) as (lost & Hl & Hiff).
  exists lost. split; [rewrite Hiff; now apply cellFine_lostGrid|].
  unfold afterSlide, checkGameOver, spawned. cbv zeta.
  rewrite bind_lift, Ha, bind_lift.
  rewrite (findNewTilePos_setCell g1 r c (spawnValue u2) H1 H0 (spawnValue_nonzero u2)).
  rewrite bind_lift, transformToTileObjects_spec by exact H2.
  cbv beta iota. rewrite Hl.
  destruct (gt (Int (score s + scoreToAdd loc)) (bestScore s));
    destruct lost; reflexivity.
Qed.

(** A move ends in one of four ways. *)
Lemma move_cases (s : AppState) (d : Direction) (u1 u2 : Q) (g : Grid) :
  getGrid (board s) = Ok g ->
  wf_grid g = true ->
  isDouble01 u1 = true ->
  moveOutcome s d u1 u2 g (handle s (move s d u1 u2)).
Proof.
  intros Hb Hwf Hu1. unfold handle.
  destruct (isGameOver s && negb (isWin s)) eqn:Hg.
  { rewrite move_guarded by exact Hg. rewrite commit_noPending. now constructor. }
  rewrite (move_spec s d u1 u2 g) by assumption. unfold slideOutcome. cbv zeta.
  assert (Hwt : wf_grid (Nat.iter (rotations d) quarterTurn g) = true)
    by now apply iter_quarterTurn_wf.
  destruct (tagThrows (rotations d)) eqn:Htag.
  - assert (Hd : d ≠ left) by (intros ->; discriminate Htag).
    destruct (allMerges (Nat.iter (rotations d) quarterTurn g)) as [|v ms] eqn:Hms;
      cbn [head]; [|now apply (move_thrown s d u1 u2 g v ms)].
    rewrite logged_nil, slideLocals_moved by exact Hwt.
    destruct (decide (map slideSpec (Nat.iter (rotations d) quarterTurn g)
                      = Nat.iter (rotations d) quarterTurn g)) as [E|E].
    + rewrite bool_decide_eq_true_2 by exact E. cbn [negb]. rewrite commit_noPending.
      apply move_unchanged; [exact Hg | exact Hms | now apply slideGrid_fixed].
    + rewrite bool_decide_eq_false_2 by exact E. cbn [negb].
      assert (Hne : slideGrid d g ≠ g) by (intros E'; now apply E, slideGrid_fixed).
      assert (Hwf1 : wf_grid (slideGrid d g) = true) by now apply slideGrid_wf.
      destruct (addRandomTile_some u1 u2 _ Hwf1 (slide_changed_emptyCells d g Hwf Hne)
                  Hu1) as (r0 & c0 & Hl & Ha).
      assert (H0 : cellAt (slideGrid d g) r0 c0 = Some 0).
      { apply list_elem_of_lookup_2 in Hl. now apply emptyCells_elem in Hl. }
      destruct (afterSlide_tiles s u1 u2 _ r0 c0
                  (slideLocals (Nat.iter (rotations d) quarterTurn g))
                  noPending Hwf1 H0 Ha) as (lost & Hlost & ->).
      cbv zeta.
      pose proof (move_changed s d u1 u2 g r0 c0 lost Hg (or_intror Hms) Hne Hl Hlost) as H.
      rewrite Hms in H. unfold movedState in H. rewrite logged_nil in H. exact H.
  - assert (Hd : d = left) by (destruct d; try discriminate Htag; reflexivity).
    rewrite slideLocals_moved by exact Hwt.
    destruct (decide (map slideSpec (Nat.iter (rotations d) quarterTurn g)
                      = Nat.iter (rotations d) quarterTurn g)) as [E|E].
    + rewrite bool_decide_eq_true_2 by exact E. cbn [negb].
      rewrite (allMerges_fixed _ Hwt E), logged_nil, commit_noPending.
      apply move_unchanged;
        [exact Hg | now apply allMerges_fixed | now apply slideGrid_fixed].
    + rewrite bool_decide_eq_false_2 by exact E. cbn [negb].
      assert (Hne : slideGrid d g ≠ g) by (intros E'; now apply E, slideGrid_fixed).
      assert (Hwf1 : wf_grid (slideGrid d g) = true) by now apply slideGrid_wf.
      destruct (addRandomTile_some u1 u2 _ Hwf1 (slide_changed_emptyCells d g Hwf Hne)
                  Hu1) as (r0 & c0 & Hl & Ha).
      assert (H0 : cellAt (slideGrid d g) r0 c0 = Some 0).
      { apply list_elem_of_lookup_2 in Hl. now apply emptyCells_elem in Hl. }
      destruct (afterSlide_tiles s u1 u2 _ r0 c0
                  (slideLocals (Nat.iter (rotations d) quarterTurn g))
                  (logged noPending (allMerges (Nat.iter (rotations d) quarterTurn g)))
                  Hwf1 H0 Ha) as (lost & Hlost & ->).
      cbv zeta.
      exact (move_changed s d u1 u2 g r0 c0 lost Hg (or_introl Hd) Hne Hl Hlost).
Qed.

(** ** The lines of a move *)

(** The rows of the grid turned for a move are the lines of the move. *)
Lemma turned_lines (d : Direction) (g : Grid) :
  wf_grid g = true ->
  Nat.iter (rotations d) quarterTurn g = map (lineOf d g) (lineOrder d).
Proof.
  intros (a0&a1&a2&a3&b0&b1&b2&b3&c0&c1&c2&c3&d0&d1&d2&d3&->)%wf_grid_shape.
  destruct d; reflexivity.
Qed.

(** The lines of the slid grid are the slid lines of the grid. *)
Lemma slideGrid_lines (d : Direction) (g : Grid) (k : nat) :
  wf_grid g = true -> (k < TILE_COUNT)%nat ->
  lineOf d (slideGrid d g) k = slideSpec (lineOf d g k).
Proof.
  intros Hwf Hk. pose proof (turn_slideGrid d g Hwf) as H.
  rewrite !turned_lines in H by (exact Hwf || now apply slideGrid_wf).
  rewrite map_map in H.
  apply (proj1 map_ext_in_iff H).
  unfold TILE_COUNT in Hk.
  destruct d; destruct k as [|[|[|[|?]]]]; try lia; cbn; tauto.
Qed.

(** X12: the lines a move works on.  When the slide of [move] returns, each
    line of the grid it returns is the slid line of the grid it was given:
    compacted and merged from the first cell of the line.  The line is a
    row read from its first cell for left and from its last cell for
    right; for up it is a column read from the last row, and for down a
    column read from the first row. *)
Theorem slide_lines :
  forall (d : Direction) (g : Grid) (p p1 : Pending) (g1 : Grid) (loc : Locals) (k : nat),
    wf_grid g = true ->
    slide d g p = (p1, Ok (g1, loc)) ->
    (k < TILE_COUNT)%nat ->
    lineOf d g1 k = slideSpec (lineOf d g k).
Proof.
  intros d g p p1 g1 loc k Hwf Hs Hk.
  destruct (slide_returns d g p p1 g1 loc Hwf Hs) as (_ & -> & _ & _).
  now apply slideGrid_lines.
Qed.

Lemma slide_lines_witness :
  lineOf up [[0; 0; 0; 0]; [0; 0; 0; 0]; [0; 0; 0; 0]; [2; 0; 0; 0]] 0 = slideSpec [0; 0; 0; 2].
Proof.
  apply (slide_lines up [[2; 0; 0; 0]; [0; 0; 0; 0]; [0; 0; 0; 0]; [0; 0; 0; 0]]
           noPending noPending
           [[0; 0; 0; 0]; [0; 0; 0; 0]; [0; 0; 0; 0]; [2; 0; 0; 0]]
           (mkLocals 0 true ∅) 0%nat).
  - reflexivity.
  - vm_compute. reflexivity.
  - unfold TILE_COUNT. lia.
Defined.

Lemma slideSpec_packed (cells : list Z) (i j : nat) :
  (length cells <= TILE_COUNT)%nat ->
  slideSpec cells !! i = Some 0 -> (i <= j)%nat -> (j < TILE_COUNT)%nat ->
  slideSpec cells !! j = Some 0.
Proof.
  intros Hlen Hi Hij Hj.
  pose proof (slideSpec_length cells Hlen) as Hl.
  unfold slideSpec in *. cbv zeta in *.
  set (merged := tileValues (mergePairs (compact cells))) in *.
  assert (Hnz : Forall (fun x => x ≠ 0) merged)
    by apply tileValues_nonzero, compact_nonzero.
  destruct (decide (i < length merged)%nat) as [Hlt|Hge].
  - rewrite lookup_app_l in Hi by exact Hlt.
    apply list_elem_of_lookup_2 in Hi. rewrite Forall_forall in Hnz.
    now apply Hnz in Hi.
  - rewrite lookup_app_r by lia. apply lookup_replicate_2.
    rewrite length_app, length_replicate in Hl. lia.
Qed.

Lemma lineOf_length (d : Direction) (g : Grid) (k : nat) :
  wf_grid g = true -> (k < TILE_COUNT)%nat -> length (lineOf d g k) = TILE_COUNT.
Proof.
  intros (a0&a1&a2&a3&b0&b1&b2&b3&c0&c1&c2&c3&d0&d1&d2&d3&->)%wf_grid_shape.
  unfold TILE_COUNT. intros Hk.
  destruct k as [|[|[|[|?]]]]; try lia; destruct d; reflexivity.
Qed.

Lemma cellAt_lineOf (d : Direction) (g : Grid) (r c : nat) :
  wf_grid g = true -> (r < TILE_COUNT)%nat -> (c < TILE_COUNT)%nat ->
  cellAt g r c = lineOf d g (lineIndex d r c) !! linePos d r c.
Proof.
  intros (a0&a1&a2&a3&b0&b1&b2&b3&c0&c1&c2&c3&d0&d1&d2&d3&->)%wf_grid_shape.
  unfold TILE_COUNT. intros Hr Hc.
  destruct r as [|[|[|[|?]]]]; try lia; destruct c as [|[|[|[|?]]]]; try lia;
    destruct d; reflexivity.
Qed.

(** X13: where the tiles go.  In the grid a slide returns, an empty cell has
    only empty cells behind it: to its right after left, to its left after
    right, above it after up and below it after down.  So up packs the
    tiles of a column onto the last row and down onto the first row (the
    row [y] of a tile is drawn [y] tile sizes from the top). *)
Theorem slide_packs_tiles :
  forall (d : Direction) (g : Grid) (p p1 : Pending) (g1 : Grid) (loc : Locals)
         (r c r' c' : nat),
    wf_grid g = true ->
    slide d g p = (p1, Ok (g1, loc)) ->
    cellAt g1 r c = Some 0 ->
    behind d r c r' c' ->
    (r' < TILE_COUNT)%nat -> (c' < TILE_COUNT)%nat ->
    cellAt g1 r' c' = Some 0.
Proof.
  intros d g p p1 g1 loc r c r' c' Hwf Hs H0 Hb Hr' Hc'.
  destruct (slide_returns d g p p1 g1 loc Hwf Hs) as (_ & -> & _ & _).
  assert (Hwf1 : wf_grid (slideGrid d g) = true) by now apply slideGrid_wf.
  assert (Hrc : is_Some (cellAt (slideGrid d g) r c)) by (rewrite H0; eauto).
  apply cellAt_wf in Hrc as [Hr Hc]; [|exact Hwf1].
  rewrite (cellAt_lineOf d) in H0 |- * by assumption.
  assert (Hk : lineIndex d r' c' = lineIndex d r c) by (destruct d; cbn in *; tauto).
  assert (Hkr : (lineIndex d r c < TILE_COUNT)%nat) by (destruct d; assumption).
  rewrite Hk. rewrite slideGrid_lines in H0 |- * by assumption.
  apply (slideSpec_packed _ (linePos d r c)); [|exact H0| |].
  - now rewrite lineOf_length.
  - unfold TILE_COUNT in *. destruct d; cbn in *; lia.
  - unfold TILE_COUNT in *. destruct d; cbn in *; lia.
Qed.

Lemma slide_packs_tiles_witness :
  cellAt [[0; 0; 0; 0]; [0; 0; 0; 0]; [0; 0; 0; 0]; [2; 0; 0; 0]] 0 0 = Some 0.
Proof.
  apply (slide_packs_tiles up [[2; 0; 0; 0]; [0; 0; 0; 0]; [0; 0; 0; 0]; [0; 0; 0; 0]]
           noPending noPending
           [[0; 0; 0; 0]; [0; 0; 0; 0]; [0; 0; 0; 0]; [2; 0; 0; 0]]
           (mkLocals 0 true ∅) 2%nat 0%nat 0%nat 0%nat).
  - reflexivity.
  - vm_compute. reflexivity.
  - reflexivity.
  - cbn. lia.
  - unfold TILE_COUNT. lia.
  - unfold TILE_COUNT. lia.
Defined.

(** ** When [move] throws *)

Lemma lineMerges_allMerges (d : Direction) (g : Grid) :
  wf_grid g = true ->
  lineMerges d g <-> allMerges (Nat.iter (rotations d) quarterTurn g) ≠ [].
Proof.
  intros Hwf. rewrite turned_lines by exact Hwf. rewrite allMerges_nil. split.
  - intros (k & i & v & Hk & Hi & Hs) Hall.
    apply (pair_hasMerge _ i v Hi Hs). apply Hall.
    apply list_elem_of_fmap. exists k. split; [reflexivity|].
    unfold TILE_COUNT in Hk. apply list_elem_of_In.
    destruct d; destruct k as [|[|[|[|?]]]]; try lia; cbn; tauto.
  - intros Hnot.
    assert (Hex : Exists (fun row => mergeValues (mergePairs (compact row)) ≠ [])
                    (map (lineOf d g) (lineOrder d))).
    { apply (not_Forall_Exists (fun row => mergeValues (mergePairs (compact row)) = [])).
      intros Hall. apply Hnot. intros row Hrow.
      rewrite Forall_forall in Hall. now apply Hall. }
    apply Exists_exists in Hex as (row & Hrow & Hne).
    apply list_elem_of_fmap in Hrow as (k & -> & Hk).
    apply hasMerge_pair in Hne as (i & v & Hi & Hs).
    exists k, i, v. split; [|split; assumption].
    unfold TILE_COUNT. apply list_elem_of_In in Hk.
    destruct d; cbn in Hk; lia.
Qed.

(** X11: when [move] throws.  On a board that is a grid of 4 rows of 4
    cells a move ends with an uncaught TypeError exactly when the game is
    not over (or is won), the direction is up, right or down, and a line of
    the move holds two equal tiles with only empty cells between them;
    otherwise it ends normally.  A move that throws changes nothing of the
    state but the win flag, which it can only set. *)
Theorem move_throws_iff :
  forall (s : AppState) (d : Direction) (u1 u2 : Q) (g : Grid),
    getGrid (board s) = Ok g ->
    wf_grid g = true ->
    isDouble01 u1 = true ->
    let s' := (handle s (move s d u1 u2)).1 in
    let r := (handle s (move s d u1 u2)).2 in
    (r = Throw TypeError
     <-> isGameOver s && negb (isWin s) = false /\ d ≠ left /\ lineMerges d g)
    /\ (r = Throw TypeError \/ r = Ok tt)
    /\ (r = Throw TypeError ->
        board s' = board s /\ score s' = score s /\ bestScore s' = bestScore s
        /\ isGameOver s' = isGameOver s /\ stored s' = stored s
        /\ idCounter s' = idCounter s
        /\ (isWin s = true -> isWin s' = true)).
Proof.
  intros s d u1 u2 g Hb Hwf Hu1. cbv zeta.
  pose proof (move_cases s d u1 u2 g Hb Hwf Hu1) as H.
  rewrite (lineMerges_allMerges d g Hwf).
  destruct H as [Hg|v ms Hg Hd Hms|Hg Hms Hfix|r0 c0 lost Hg Hd Hne Hl Hlost]; cbn [fst snd].
  - split; [|split; [now right | discriminate]].
    split; [discriminate | intros (Hg' & _); congruence].
  - split; [|split; [now left|]].
    + split; [intros _; rewrite Hms; auto | reflexivity].
    + intros _. repeat split. cbn. intros ->. now destruct (bool_decide _).
  - split; [|split; [now right | discriminate]].
    split; [discriminate | intros (_ & _ & Hne); congruence].
  - split; [|split; [now right | discriminate]].
    split; [discriminate|]. intros (_ & Hdl & Hne'). destruct Hd; congruence.
Qed.

Lemma move_throws_iff_witness :
  (handle column_pair (move column_pair up (1 # 2) (1 # 2))).2 = Throw TypeError
  <-> isGameOver column_pair && negb (isWin column_pair) = false /\ up ≠ left
      /\ lineMerges up [[2; 0; 0; 0]; [2; 0; 0; 0]; [0; 0; 0; 0]; [0; 0; 0; 0]].
Proof.
  refine (proj1 (move_throws_iff column_pair up (1 # 2) (1 # 2)
                   [[2; 0; 0; 0]; [2; 0; 0; 0]; [0; 0; 0; 0]; [0; 0; 0; 0]] _ _ _)).
  - vm_compute. reflexivity.
  - reflexivity.
  - reflexivity.
Defined.

Lemma changed_outcome (s : AppState) (d : Direction) (u1 u2 : Q) (g : Grid)
    (p1 : Pending) (g1 : Grid) (loc : Locals) :
  getGrid (board s) = Ok g ->
  wf_grid g = true ->
  isGameOver s && negb (isWin s) = false ->
  isDouble01 u1 = true ->
  slide d g noPending = (p1, Ok (g1, loc)) ->
  g1 ≠ g ->
  exists r c lost,
    cellAt g1 r c = Some 0
    /\ handle s (move s d u1 u2)
       = (movedState s g1 loc (mergeLog p1) r c (spawnValue u2) lost, Ok tt).
Proof.
  intros Hb Hwf Hg Hu1 Hs Hne.
  destruct (slide_returns d g _ _ _ _ Hwf Hs) as (-> & -> & -> & Htag).
  pose proof (move_cases s d u1 u2 g Hb Hwf Hu1) as H.
  destruct H as [Hg'|v ms _ Hd Hms|_ Hms Hfix|r0 c0 lost _ Hd _ Hl Hlost].
  - congruence.
  - exfalso. rewrite Htag in Hms; [discriminate|]. now destruct d.
  - contradiction.
  - exists r0, c0, lost. split; [|reflexivity].
    apply list_elem_of_lookup_2 in Hl.
    apply emptyCells_elem in Hl; [exact Hl | now apply slideGrid_wf].
Qed.

(** ** The board after a move *)

Lemma board_movedState (s : AppState) (g1 : Grid) (loc : Locals) (ms : list Z)
    (r c : nat) (v : Z) (lost : bool) :
  board (movedState s g1 loc ms r c v lost)
  = tilesOf (setCell g1 r c v) (Some (r, c)) (Some (mergedCells loc)) (idCounter s).
Proof. reflexivity. Qed.

Lemma idCounter_movedState (s : AppState) (g1 : Grid) (loc : Locals) (ms : list Z)
    (r c : nat) (v : Z) (lost : bool) :
  idCounter (movedState s g1 loc ms r c v lost)
  = (idCounter s + length (board (movedState s g1 loc ms r c v lost)))%nat.
Proof. reflexivity. Qed.

Lemma elem_of_tilesOf (g : Grid) pos mc (idc : nat) (tile : TileData.t) :
  wf_grid g = true ->
  tile ∈ tilesOf g pos mc idc
  <-> exists k r c v, tileCells g !! k = Some (r, c) /\ cellAt g r c = Some v /\ v ≠ 0
                      /\ tile = tileAt g pos mc (idc + k) (r, c).
Proof.
  intros Hwf. rewrite list_elem_of_lookup. split.
  - intros [k Hk]. rewrite tilesOf_lookup in Hk.
    destruct (tileCells g !! k) as [[r c]|] eqn:E; [|discriminate].
    injection Hk as <-. pose proof E as Hin. apply list_elem_of_lookup_2 in Hin.
    apply elem_of_tileCells in Hin as (v & Hv & Hnz); [|exact Hwf].
    now exists k, r, c, v.
  - intros (k & r & c & v & Hk & _ & _ & ->). exists k. now rewrite tilesOf_lookup, Hk.
Qed.

(** X14: the animation flags after a move.  After a move that changes the
    grid, the board holds a tile on the cell where the new tile was put,
    with the value of the new tile; this tile and no other is marked
    [isNew]; and a tile is marked [isMerged] exactly when the key of its
    cell is in the set [mergedCells] of the slide. *)
Theorem changing_move_flags :
  forall (s : AppState) (d : Direction) (u1 u2 : Q) (g : Grid) (p1 : Pending)
         (g1 : Grid) (loc : Locals),
    getGrid (board s) = Ok g ->
    wf_grid g = true ->
    isGameOver s && negb (isWin s) = false ->
    isDouble01 u1 = true ->
    slide d g noPending = (p1, Ok (g1, loc)) ->
    g1 ≠ g ->
    exists (s' : AppState) (r c : nat),
      handle s (move s d u1 u2) = (s', Ok tt)
      /\ cellAt g1 r c = Some 0
      /\ (exists tile, tile ∈ board s' /\ TileData.y tile = r /\ TileData.x tile = c
                       /\ TileData.value tile = spawnValue u2)
      /\ (forall tile, tile ∈ board s' ->
            (TileData.isNew tile = true <-> TileData.y tile = r /\ TileData.x tile = c)
            /\ TileData.isMerged tile
               = bool_decide ((Some (TileData.y tile), Some (TileData.x tile))
                              ∈ mergedCells loc)).
Proof.
  intros s d u1 u2 g p1 g1 loc Hb Hwf Hg Hu1 Hs Hne.
  destruct (changed_outcome s d u1 u2 g p1 g1 loc Hb Hwf Hg Hu1 Hs Hne)
    as (r & c & lost & H0 & Hmove).
  destruct (slide_returns d g _ _ _ _ Hwf Hs) as (_ & Hg1 & _ & _).
  assert (Hwf1 : wf_grid g1 = true) by (rewrite Hg1; now apply slideGrid_wf).
  assert (Hsome : is_Some (cellAt g1 r c)) by (rewrite H0; eauto).
  assert (Hwf2 : wf_grid (setCell g1 r c (spawnValue u2)) = true) by now apply setCell_wf.
  eexists _, r, c. split; [exact Hmove|]. split; [exact H0|].
  rewrite board_movedState. split.
  - assert (Hin : (r, c) ∈ tileCells (setCell g1 r c (spawnValue u2))).
    { apply elem_of_tileCells; [exact Hwf2|]. exists (spawnValue u2).
      split; [|apply spawnValue_nonzero].
      rewrite cellAt_setCell by exact Hsome. now rewrite decide_True. }
    apply list_elem_of_lookup in Hin as [k Hk].
    eexists. split; [apply (list_elem_of_lookup_2 _ k); now rewrite tilesOf_lookup, Hk|].
    unfold tileAt. cbn [TileData.y TileData.x TileData.value fst snd].
    rewrite cellAt_setCell by exact Hsome. now rewrite decide_True.
  - intros tile (k & r' & c' & v & _ & _ & _ & ->)%elem_of_tilesOf; [|exact Hwf2].
    unfold tileAt. cbn [TileData.y TileData.x TileData.isNew TileData.isMerged fst snd].
    split; [|reflexivity].
    rewrite bool_decide_eq_true. split; [now intros [= -> ->] | now intros [-> ->]].
Qed.

Lemma changing_move_flags_witness :
  exists (s' : AppState) (r c : nat),
    handle changing_state (move changing_state left (1 # 2) (1 # 2)) = (s', Ok tt)
    /\ exists tile, tile ∈ board s' /\ TileData.y tile = r /\ TileData.x tile = c
                    /\ TileData.value tile = spawnValue (1 # 2).
Proof.
  destruct (changing_move_flags changing_state left (1 # 2) (1 # 2)
              [[2; 2; 4; 4]; [0; 0; 0; 0]; [0; 0; 0; 0]; [0; 0; 0; 0]]
              (mkPending None None None None None None [4; 8] None)
              [[4; 8; 0; 0]; [0; 0; 0; 0]; [0; 0; 0; 0]; [0; 0; 0; 0]]
              (mkLocals 12 true {[ (Some 0%nat, Some 0%nat); (Some 0%nat, Some 1%nat) ]}))
    as (s' & r & c & Hmove & _ & Htile & _).
  - vm_compute. reflexivity.
  - reflexivity.
  - reflexivity.
  - reflexivity.
  - vm_compute. reflexivity.
  - discriminate.
  - exists s', r, c. split; [exact Hmove | exact Htile].
Defined.

(** X15: the identifiers of the tiles.  When every tile of the board has an
    identifier below [idCounter.current], a move either leaves the board
    and the counter as they are, or makes a board whose tiles are numbered
    from the old counter on, in order, with the counter after the last of
    them: no tile keeps its identifier, none gets one that a tile of the
    board before had, and every identifier is again below the counter. *)
Theorem move_renumbers_tiles :
  forall (s : AppState) (d : Direction) (u1 u2 : Q) (g : Grid),
    getGrid (board s) = Ok g ->
    wf_grid g = true ->
    isDouble01 u1 = true ->
    Forall (fun tile => (TileData.id tile < idCounter s)%nat) (board s) ->
    let s' := (handle s (move s d u1 u2)).1 in
    (board s' = board s /\ idCounter s' = idCounter s
     \/ map TileData.id (board s') = seq (idCounter s) (length (board s'))
        /\ idCounter s' = (idCounter s + length (board s'))%nat
        /\ forall old new, old ∈ board s -> new ∈ board s' ->
                           TileData.id new ≠ TileData.id old)
    /\ Forall (fun tile => (TileData.id tile < idCounter s')%nat) (board s').
Proof.
  intros s d u1 u2 g Hb Hwf Hu1 Hids. cbv zeta.
  pose proof (move_cases s d u1 u2 g Hb Hwf Hu1) as H.
  destruct H as [Hg|v ms Hg Hd Hms|Hg Hms Hfix|r0 c0 lost Hg Hd Hne Hl Hlost]; cbn [fst snd].
  - split; [now left | exact Hids].
  - split; [now left | exact Hids].
  - split; [now left | exact Hids].
  - rewrite idCounter_movedState, board_movedState.
    set (tiles := tilesOf _ _ _ _).
    assert (Hseq : map TileData.id tiles = seq (idCounter s) (length tiles))
      by apply tilesOf_ids.
    assert (Hrange : forall tile, tile ∈ tiles ->
              (idCounter s <= TileData.id tile < idCounter s + length tiles)%nat).
    { intros tile Hin. apply (list_elem_of_fmap_2 TileData.id) in Hin.
      change (TileData.id <$> tiles) with (map TileData.id tiles) in Hin.
      rewrite Hseq in Hin. apply list_elem_of_In, in_seq in Hin. lia. }
    split.
    + right. split; [exact Hseq|]. split; [reflexivity|].
      intros old new Hold Hnew. rewrite Forall_forall in Hids.
      specialize (Hids old Hold). specialize (Hrange new Hnew). lia.
    + apply Forall_forall. intros tile Hin. specialize (Hrange tile Hin). lia.
Qed.

Lemma move_renumbers_tiles_witness :
  Forall (fun tile => (TileData.id tile
                       < idCounter (handle changing_state
                                      (move changing_state left (1 # 2) (1 # 2))).1)%nat)
         (board (handle changing_state (move changing_state left (1 # 2) (1 # 2))).1).
Proof.
  refine (proj2 (move_renumbers_tiles changing_state left (1 # 2) (1 # 2)
                   [[2; 2; 4; 4]; [0; 0; 0; 0]; [0; 0; 0; 0]; [0; 0; 0; 0]] _ _ _ _)).
  - vm_compute. reflexivity.
  - reflexivity.
  - reflexivity.
  - vm_compute. repeat constructor.
Defined.

(** ** The best score and the game-over flag after a move *)

Lemma initialBestScore_toString (z : Z) :
  Z.abs z < 2 ^ 53 -> initialBestScore (Some (toString z)) = Int z.
Proof.
  intros Hz. unfold initialBestScore. destruct (toString z) as [|c s] eqn:E.
  - pose proof (parseInt_toString z Hz) as H. rewrite E in H. discriminate H.
  - rewrite <- E. now apply parseInt_toString.
Qed.

Lemma getGrid_tilesOf (g : Grid) pos mc (idc : nat) :
  wf_grid g = true -> getGrid (tilesOf g pos mc idc) = Ok g.
Proof.
  intros Hwf. destruct (getGrid_transform g pos mc idc Hwf) as (tiles & next & Ht & Hg).
  rewrite transformToTileObjects_spec in Ht by exact Hwf. now injection Ht as <- _.
Qed.

(** X16: the best score follows the score and the stored value follows the
    best score.  When the best score is a number at least the score and
    the stored value reads back as the best score, then after a move the
    best score is the larger of the old best score and the new score, and
    the stored value again reads back as the best score, as long as the
    new score is below 2^53 in absolute value, where every integer is a
    double and [parseInt] reads back what [toString] printed. *)
Theorem best_score_tracks_score :
  forall (s : AppState) (d : Direction) (u1 u2 : Q) (g : Grid) (best : Z),
    getGrid (board s) = Ok g ->
    wf_grid g = true ->
    isDouble01 u1 = true ->
    bestScore s = Int best ->
    score s <= best ->
    initialBestScore (stored s) = Int best ->
    let s' := (handle s (move s d u1 u2)).1 in
    Z.abs (score s') < 2 ^ 53 ->
    bestScore s' = Int (Z.max best (score s'))
    /\ initialBestScore (stored s') = bestScore s'.
Proof.
  intros s d u1 u2 g best Hb Hwf Hu1 Hbest Hle Hstored. cbv zeta.
  enough (Hgoal : Z.abs (score (handle s (move s d u1 u2)).1) < 2 ^ 53 ->
                  bestScore (handle s (move s d u1 u2)).1
                  = Int (Z.max best (score (handle s (move s d u1 u2)).1))
                  /\ initialBestScore (stored (handle s (move s d u1 u2)).1)
                     = bestScore (handle s (move s d u1 u2)).1) by exact Hgoal.
  assert (Hsame : bestScore s = Int (Z.max best (score s))
                  /\ initialBestScore (stored s) = bestScore s).
  { rewrite Z.max_l by exact Hle. split; congruence. }
  pose proof (move_cases s d u1 u2 g Hb Hwf Hu1) as H.
  destruct H as [Hg|v ms Hg Hd Hms|Hg Hms Hfix|r0 c0 lost Hg Hd Hne Hl Hlost]; cbn [fst snd].
  - intros _. exact Hsame.
  - intros _. exact Hsame.
  - intros _. exact Hsame.
  - unfold movedState, commit, spawned. cbv zeta.
    cbn [bestScore stored score default pendingScore pendingBestScore pendingItem].
    rewrite Hbest.
    cbn [gt default logged pendingBestScore pendingItem noPending].
    unfold id. intros Hsmall.
    destruct (Z.ltb_spec best (score s + scoreToAdd (slideLocals
                                 (Nat.iter (rotations d) quarterTurn g)))) as [Hlt|Hge].
    + rewrite Z.max_r by lia. split; [reflexivity|].
      now apply initialBestScore_toString.
    + rewrite Z.max_l by lia. split; [reflexivity | exact Hstored].
Qed.

Lemma best_score_tracks_score_witness :
  bestScore (handle changing_state (move changing_state left (1 # 2) (1 # 2))).1
  = Int (Z.max 0 (score (handle changing_state
                           (move changing_state left (1 # 2) (1 # 2))).1)).
Proof.
  refine (proj1 (best_score_tracks_score changing_state left (1 # 2) (1 # 2)
                   [[2; 2; 4; 4]; [0; 0; 0; 0]; [0; 0; 0; 0]; [0; 0; 0; 0]] 0
                   _ _ _ _ _ _ _)).
  - vm_compute. reflexivity.
  - reflexivity.
  - reflexivity.
  - reflexivity.
  - reflexivity.
  - reflexivity.
  - vm_compute. reflexivity.
Defined.

(** X18: [isGameOver] tells a lost grid.  When the flag is set exactly on a
    lost grid (no empty cell and no two equal neighbours), it is so again
    after every move: a move that changes the grid sets the flag exactly
    when the grid with the new tile is lost, and no other move changes the
    board or the flag. *)
Theorem game_over_iff_lost_kept :
  forall (s : AppState) (d : Direction) (u1 u2 : Q) (g : Grid),
    getGrid (board s) = Ok g ->
    wf_grid g = true ->
    isDouble01 u1 = true ->
    (isGameOver s = true <-> lostGrid g) ->
    let s' := (handle s (move s d u1 u2)).1 in
    exists g', getGrid (board s') = Ok g'
               /\ wf_grid g' = true
               /\ (isGameOver s' = true <-> lostGrid g').
Proof.
  intros s d u1 u2 g Hb Hwf Hu1 Hinv. cbv zeta.
  pose proof (move_cases s d u1 u2 g Hb Hwf Hu1) as H.
  destruct H as [Hg|v ms Hg Hd Hms|Hg Hms Hfix|r0 c0 lost Hg Hd Hne Hl Hlost]; cbn [fst snd].
  - now exists g.
  - now exists g.
  - now exists g.
  - assert (Hwf1 : wf_grid (slideGrid d g) = true) by now apply slideGrid_wf.
    exists (setCell (slideGrid d g) r0 c0 (spawnValue u2)).
    rewrite board_movedState.
    split; [apply getGrid_tilesOf; now apply setCell_wf|].
    split; [now apply setCell_wf|].
    rewrite <- Hlost. unfold movedState, commit, spawned. cbv zeta. cbn [isGameOver].
    destruct lost; [cbn; tauto|].
    cbn [logged pendingIsGameOver noPending default].
    destruct (isGameOver s) eqn:Ho; [|tauto].
    exfalso. apply Hne. apply lostGrid_fixed; [exact Hwf|]. now apply Hinv.
Qed.

Lemma game_over_iff_lost_kept_witness :
  exists g',
    getGrid (board (handle changing_state (move changing_state left (1 # 2) (1 # 2))).1)
    = Ok g'
    /\ wf_grid g' = true
    /\ (isGameOver (handle changing_state (move changing_state left (1 # 2) (1 # 2))).1
        = true <-> lostGrid g').
Proof.
  refine (game_over_iff_lost_kept changing_state left (1 # 2) (1 # 2)
            [[2; 2; 4; 4]; [0; 0; 0; 0]; [0; 0; 0; 0]; [0; 0; 0; 0]] _ _ _ _).
  - vm_compute. reflexivity.
  - reflexivity.
  - reflexivity.
  - split; [discriminate|]. intros [H _]. now destruct (H 1%nat 0%nat).
Defined.

(** ** A lost grid is a grid no move changes *)

Ltac split_eqb :=
  repeat match goal with
         | H : context [?x =? ?y] |- _ => destruct (Z.eqb_spec x y)
         end.

(** A row that neither left nor right changes is empty, or full without two
    equal neighbours. *)
Lemma row_fixed_both (a b c d : Z) :
  slideSpec [a; b; c; d] = [a; b; c; d] ->
  slideSpec [d; c; b; a] = [d; c; b; a] ->
  a = 0 /\ b = 0 /\ c = 0 /\ d = 0
  \/ a ≠ 0 /\ b ≠ 0 /\ c ≠ 0 /\ d ≠ 0 /\ a ≠ b /\ b ≠ c /\ c ≠ d.
Proof.
  unfold slideSpec, compact. rewrite !filter_cons, !filter_nil.
  destruct (decide (a ≠ 0)) as [Ha|Ha%dec_stable],
           (decide (b ≠ 0)) as [Hb|Hb%dec_stable],
           (decide (c ≠ 0)) as [Hc|Hc%dec_stable],
           (decide (d ≠ 0)) as [Hd|Hd%dec_stable];
    cbn [mergePairs]; intros H1 H2; split_eqb;
    cbn in H1, H2; simplify_eq; lia.
Qed.

Lemma lostGrid_cells (a0 a1 a2 a3 b0 b1 b2 b3 c0 c1 c2 c3 d0 d1 d2 d3 : Z) :
  a0 ≠ 0 /\ a1 ≠ 0 /\ a2 ≠ 0 /\ a3 ≠ 0 /\ b0 ≠ 0 /\ b1 ≠ 0 /\ b2 ≠ 0 /\ b3 ≠ 0
  /\ c0 ≠ 0 /\ c1 ≠ 0 /\ c2 ≠ 0 /\ c3 ≠ 0 /\ d0 ≠ 0 /\ d1 ≠ 0 /\ d2 ≠ 0 /\ d3 ≠ 0 ->
  a0 ≠ a1 /\ a1 ≠ a2 /\ a2 ≠ a3 /\ b0 ≠ b1 /\ b1 ≠ b2 /\ b2 ≠ b3
  /\ c0 ≠ c1 /\ c1 ≠ c2 /\ c2 ≠ c3 /\ d0 ≠ d1 /\ d1 ≠ d2 /\ d2 ≠ d3 ->
  a0 ≠ b0 /\ b0 ≠ c0 /\ c0 ≠ d0 /\ a1 ≠ b1 /\ b1 ≠ c1 /\ c1 ≠ d1
  /\ a2 ≠ b2 /\ b2 ≠ c2 /\ c2 ≠ d2 /\ a3 ≠ b3 /\ b3 ≠ c3 /\ c3 ≠ d3 ->
  lostGrid [[a0; a1; a2; a3]; [b0; b1; b2; b3]; [c0; c1; c2; c3]; [d0; d1; d2; d3]].
Proof.
  intros Hz Hr Hc. apply cellFine_lostGrid; [reflexivity|].
  unfold cellFine.
  destruct Hz as (?&?&?&?&?&?&?&?&?&?&?&?&?&?&?&?).
  destruct Hr as (?&?&?&?&?&?&?&?&?&?&?&?).
  destruct Hc as (?&?&?&?&?&?&?&?&?&?&?&?).
  repeat (apply Forall_cons; split;
          [cbn; repeat split; intros [= ?]; congruence|]).
  constructor.
Qed.

(** X19: a lost grid is a grid no move changes.  For a grid of 4 rows of 4
    cells with at least one tile, the game-over test holds (no empty cell
    and no two equal neighbours) exactly when the slide of every direction
    returns the grid as it was given. *)
Theorem lost_iff_no_move :
  forall g : Grid,
    wf_grid g = true ->
    (exists r c v, cellAt g r c = Some v /\ v ≠ 0) ->
    (lostGrid g <-> forall d, gridOf (slide d g noPending) = Ok g).
Proof.
  intros g Hwf Htile. split.
  - intros Hlost d.
    destruct (slide_fixed d g noPending Hwf (lostGrid_fixed d g Hwf Hlost)) as (loc & -> & _).
    reflexivity.
  - intros Hall.
    assert (Hfix : forall d k, (k < TILE_COUNT)%nat ->
               slideSpec (lineOf d g k) = lineOf d g k).
    { intros d k Hk. specialize (Hall d). unfold gridOf in Hall.
      destruct (slide d g noPending) as [p1 [[g1 loc]| |]] eqn:Hs; try discriminate.
      cbn in Hall. injection Hall as ->.
      destruct (slide_returns d g _ _ _ _ Hwf Hs) as (_ & Hg1 & _ & _).
      rewrite Hg1 at 2. symmetry. now apply slideGrid_lines. }
    apply wf_grid_shape in Hwf
      as (a0&a1&a2&a3&b0&b1&b2&b3&c0&c1&c2&c3&d0&d1&d2&d3&->).
    pose proof (row_fixed_both a0 a1 a2 a3 (Hfix left 0%nat ltac:(unfold TILE_COUNT; lia))
                  (Hfix right 0%nat ltac:(unfold TILE_COUNT; lia))) as R0.
    pose proof (row_fixed_both b0 b1 b2 b3 (Hfix left 1%nat ltac:(unfold TILE_COUNT; lia))
                  (Hfix right 1%nat ltac:(unfold TILE_COUNT; lia))) as R1.
    pose proof (row_fixed_both c0 c1 c2 c3 (Hfix left 2%nat ltac:(unfold TILE_COUNT; lia))
                  (Hfix right 2%nat ltac:(unfold TILE_COUNT; lia))) as R2.
    pose proof (row_fixed_both d0 d1 d2 d3 (Hfix left 3%nat ltac:(unfold TILE_COUNT; lia))
                  (Hfix right 3%nat ltac:(unfold TILE_COUNT; lia))) as R3.
    pose proof (row_fixed_both a0 b0 c0 d0 (Hfix down 0%nat ltac:(unfold TILE_COUNT; lia))
                  (Hfix up 0%nat ltac:(unfold TILE_COUNT; lia))) as C0.
    pose proof (row_fixed_both a1 b1 c1 d1 (Hfix down 1%nat ltac:(unfold TILE_COUNT; lia))
                  (Hfix up 1%nat ltac:(unfold TILE_COUNT; lia))) as C1.
    pose proof (row_fixed_both a2 b2 c2 d2 (Hfix down 2%nat ltac:(unfold TILE_COUNT; lia))
                  (Hfix up 2%nat ltac:(unfold TILE_COUNT; lia))) as C2.
    pose proof (row_fixed_both a3 b3 c3 d3 (Hfix down 3%nat ltac:(unfold TILE_COUNT; lia))
                  (Hfix up 3%nat ltac:(unfold TILE_COUNT; lia))) as C3.
    clear Hfix Hall.
    assert (Hrow : a0 ≠ 0 \/ b0 ≠ 0 \/ c0 ≠ 0 \/ d0 ≠ 0).
    { destruct Htile as (r & c & v & Hv & Hnz).
      destruct r as [|[|[|[|?]]]]; try discriminate;
        destruct c as [|[|[|[|?]]]]; try discriminate;
        injection Hv as ->.
      all: first [ destruct R0 as [(?&?&?&?)|(?&?&?&?&_)]; [congruence | now left]
                 | destruct R1 as [(?&?&?&?)|(?&?&?&?&_)]; [congruence | now right; left]
                 | destruct R2 as [(?&?&?&?)|(?&?&?&?&_)];
                   [congruence | now right; right; left]
                 | destruct R3 as [(?&?&?&?)|(?&?&?&?&_)];
                   [congruence | now right; right; right] ]. }
    destruct C0 as [(?&?&?&?)|(?&?&?&?&?&?&?)];
      [destruct Hrow as [?|[?|[?|?]]]; congruence|].
    destruct R0 as [(?&?&?&?)|(?&?&?&?&?&?&?)]; [congruence|].
    destruct R1 as [(?&?&?&?)|(?&?&?&?&?&?&?)]; [congruence|].
    destruct R2 as [(?&?&?&?)|(?&?&?&?&?&?&?)]; [congruence|].
    destruct R3 as [(?&?&?&?)|(?&?&?&?&?&?&?)]; [congruence|].
    destruct C1 as [(?&?&?&?)|(?&?&?&?&?&?&?)]; [congruence|].
    destruct C2 as [(?&?&?&?)|(?&?&?&?&?&?&?)]; [congruence|].
    destruct C3 as [(?&?&?&?)|(?&?&?&?&?&?&?)]; [congruence|].
    apply lostGrid_cells; repeat split; assumption.
Qed.

Lemma lost_iff_no_move_witness :
  lostGrid lost_example <-> forall d, gridOf (slide d lost_example noPending) = Ok lost_example.
Proof.
  apply (lost_iff_no_move lost_example eq_refl).
  exists 0%nat, 0%nat, 2. split; [reflexivity | discriminate].
Defined.

(** ** The earlier version of [move] *)

Lemma tagThrows_0 : tagThrows 0 = false.
Proof. reflexivity. Qed.

(** Without a rotation to undo, the loop of the later version does what the
    loop of the earlier version does. *)
Lemma mergeLoopV1_sim (r : nat) :
  forall fuel row i newRow loc p,
    match mergeLoop fuel 0 r row i newRow loc p with
    | (p', Ok (newRow', loc')) =>
        mergeLoopV1 fuel row i newRow (scoreToAdd loc) p
        = (p', Ok (newRow', scoreToAdd loc'))
        /\ moved loc' = moved loc
    | (p', Throw e) => mergeLoopV1 fuel row i newRow (scoreToAdd loc) p = (p', Throw e)
    | (p', Untyped) => mergeLoopV1 fuel row i newRow (scoreToAdd loc) p = (p', Untyped)
    end.
Proof.
  induction fuel as [|fuel IH]; intros row i newRow loc p; [now split|].
  cbn [mergeLoop mergeLoopV1].
  destruct (row !! i) as [a|]; [|now split].
  destruct (row !! (i + 1)%nat) as [b|]; [|apply IH].
  destruct (a =? b); [|apply IH].
  rewrite !merge_step. rewrite bind_lift, unrotatedKey_spec, tagThrows_0.
  apply (IH row (i + 1 + 1)%nat (newRow ++ [a * 2])
            (mkLocals (scoreToAdd loc + a * 2) (moved loc) _)).
Qed.

Lemma slideRowV1_sim (st : Grid) (loc : Locals) (r : nat) (p : Pending) :
  slideRowV1 (st, (scoreToAdd loc, moved loc)) r p = untagged (slideRow 0 (st, loc) r p).
Proof.
  unfold slideRowV1, slideRow.
  destruct (st !! r) as [cells|]; [|reflexivity].
  rewrite !M_bind_eq.
  pose proof (mergeLoopV1_sim r (S (length (filter (fun cell => cell ≠ 0) cells)))
                (filter (fun cell => cell ≠ 0) cells) 0 [] loc p) as H.
  destruct (mergeLoop _ 0 r _ 0 [] loc p) as [p' [[newRow loc']| |]];
    [destruct H as [H Hm] | |]; rewrite H; [|reflexivity..].
  rewrite !bind_lift. destruct (padRow newRow) as [paddedRow| |]; [|reflexivity..].
  unfold mret, M_ret, untagged.
  destruct (String.eqb (join cells) (join paddedRow)); cbn; now rewrite ?Hm.
Qed.

Lemma rowsLoopV1_sim (rs : list nat) :
  forall (st : Grid) (loc : Locals) (p : Pending),
    rowsLoopV1 rs (st, (scoreToAdd loc, moved loc)) p = untagged (rowsLoop 0 rs (st, loc) p).
Proof.
  induction rs as [|r rs IH]; intros st loc p; [reflexivity|].
  cbn [rowsLoopV1 rowsLoop]. rewrite !M_bind_eq, slideRowV1_sim.
  destruct (slideRow 0 (st, loc) r p) as [p' [[st' loc']| |]]; [|reflexivity..].
  cbn [untagged]. apply IH.
Qed.

(** What the slide of the earlier version returns. *)
Lemma slideV1_spec (d : Direction) (g : Grid) (p : Pending) :
  wf_grid g = true ->
  slideV1 d g p
  = (logged p (allMerges (Nat.iter (rotations d) quarterTurn g)),
     Ok (slideGrid d g,
         (sumZ (allMerges (Nat.iter (rotations d) quarterTurn g)),
          negb (bool_decide (slideGrid d g = g))))).
Proof.
  intros Hwf.
  assert (Hwt : wf_grid (Nat.iter (rotations d) quarterTurn g) = true)
    by now apply iter_quarterTurn_wf.
  unfold slideV1. rewrite bind_lift, (rotate_numbers _ g Hwf), M_bind_eq.
  rewrite (rowsLoopV1_sim _ _ (mkLocals 0 false ∅)).
  rewrite rowsLoop_spec by exact Hwt. unfold gridOutcome. rewrite tagThrows_0.
  cbn [untagged]. rewrite bind_lift.
  rewrite rotate_numbers by now apply wf_map_slideSpec.
  unfold mret, M_ret. fold (slideGrid d g).
  rewrite slideLocals_score, slideLocals_moved by exact Hwt.
  do 5 f_equal. apply bool_decide_ext. symmetry. now apply slideGrid_fixed.
Qed.

(** X20: the earlier version of [move] slides and merges in every direction.
    On a grid of 4 rows of 4 cells its slide returns, whatever the
    direction: the grid is slid line by line as by the later version moving
    left, all merges are made, the score to add is the sum of the values
    they make, and [moved] tells whether the grid has changed.  It never
    throws. *)
Theorem slideV1_total :
  forall (d : Direction) (g : Grid) (p : Pending),
    wf_grid g = true ->
    let merges := allMerges (Nat.iter (rotations d) quarterTurn g) in
    slideV1 d g p
    = (logged p merges,
       Ok (slideGrid d g, (sumZ merges, negb (bool_decide (slideGrid d g = g)))))
    /\ forall k, (k < TILE_COUNT)%nat ->
                 lineOf d (slideGrid d g) k = slideSpec (lineOf d g k).
Proof.
  intros d g p Hwf merges. split.
  - now apply slideV1_spec.
  - intros k Hk. now apply slideGrid_lines.
Qed.

Lemma slideV1_total_witness :
  slideV1 up [[2; 0; 0; 0]; [2; 0; 0; 0]; [0; 0; 0; 0]; [0; 0; 0; 0]] noPending
  = (logged noPending [4],
     Ok ([[0; 0; 0; 0]; [0; 0; 0; 0]; [0; 0; 0; 0]; [4; 0; 0; 0]], (4, true))).
Proof.
  exact (proj1 (slideV1_total up [[2; 0; 0; 0]; [2; 0; 0; 0]; [0; 0; 0; 0]; [0; 0; 0; 0]]
                  noPending eq_refl)).
Defined.

(** ** [startGame] *)

Lemma spawnValue_2_or_4 (u : Q) : spawnValue u = 2 \/ spawnValue u = 4.
Proof. unfold spawnValue. destruct (Qle_bool (9 # 10) u); auto. Qed.

(** The grid [createInitialBoard] fills. *)
Lemma createInitialBoard_grid (u1 u2 u3 u4 : Q) :
  isDouble01 u1 = true -> isDouble01 u3 = true ->
  exists r1 c1 r2 c2,
    let z := replicate TILE_COUNT (replicate TILE_COUNT 0) in
    let g := setCell (setCell z r1 c1 (spawnValue u2)) r2 c2 (spawnValue u4) in
    inRange (r1, c1) /\ inRange (r2, c2) /\ (r1, c1) ≠ (r2, c2)
    /\ wf_grid g = true
    /\ createInitialBoard u1 u2 u3 u4
       = Ok (tilesOf g None None 1, (1 + length (tilesOf g None None 1))%nat)
    /\ forall r c, cellAt g r c
                   = if decide ((r2, c2) = (r, c)) then Some (spawnValue u4)
                     else if decide ((r1, c1) = (r, c)) then Some (spawnValue u2)
                     else cellAt z r c.
Proof.
  intros Hu1 Hu3.
  set (z := replicate TILE_COUNT (replicate TILE_COUNT 0)).
  assert (Hwz : wf_grid z = true) by reflexivity.
  assert (Hez : emptyCells z ≠ []) by (vm_compute; discriminate).
  destruct (addRandomTile_some u1 u2 z Hwz Hez Hu1) as (r1 & c1 & Hl1 & Ha1).
  assert (H1 : cellAt z r1 c1 = Some 0).
  { apply list_elem_of_lookup_2 in Hl1. now apply emptyCells_elem in Hl1. }
  assert (Hs1 : is_Some (cellAt z r1 c1)) by (rewrite H1; eauto).
  set (g1 := setCell z r1 c1 (spawnValue u2)) in *.
  assert (Hw1 : wf_grid g1 = true) by now apply setCell_wf.
  assert (He1 : emptyCells g1 ≠ []) by now apply setCell_leaves_empty.
  destruct (addRandomTile_some u3 u4 g1 Hw1 He1 Hu3) as (r2 & c2 & Hl2 & Ha2).
  assert (H2 : cellAt g1 r2 c2 = Some 0).
  { apply list_elem_of_lookup_2 in Hl2. now apply emptyCells_elem in Hl2. }
  assert (Hs2 : is_Some (cellAt g1 r2 c2)) by (rewrite H2; eauto).
  assert (Hw2 : wf_grid (setCell g1 r2 c2 (spawnValue u4)) = true) by now apply setCell_wf.
  exists r1, c1, r2, c2. cbv zeta. fold z. fold g1.
  split; [now apply (proj1 (cellAt_wf z r1 c1 Hwz))|].
  split; [now apply (proj1 (cellAt_wf g1 r2 c2 Hw1))|].
  split.
  { intros [= -> ->]. unfold g1 in H2. rewrite cellAt_setCell in H2 by exact Hs1.
    rewrite decide_True in H2 by reflexivity. injection H2 as H2.
    now apply (spawnValue_nonzero u2). }
  split; [exact Hw2|]. split.
  - unfold createInitialBoard. fold z. rewrite Ha1. cbn [mbind result_bind].
    rewrite Ha2. now apply transformToTileObjects_spec.
  - intros r c. rewrite cellAt_setCell by exact Hs2.
    destruct (decide ((r2, c2) = (r, c))); [reflexivity|].
    unfold g1. now rewrite cellAt_setCell by exact Hs1.
Qed.

(** X7: a new game.  [startGame] ends normally, whatever the state before:
    the board has exactly two tiles, on two different cells of the grid,
    each of value 2 or 4, with the identifiers 1 and 2 and no animation
    flag, and the counter is 3; the score is 0 and both flags are cleared;
    the best score and its stored value are kept. *)
Theorem startGame_two_tiles :
  forall (s : AppState) (u1 u2 u3 u4 : Q),
    isDouble01 u1 = true -> isDouble01 u3 = true ->
    exists (s' : AppState) (t1 t2 : TileData.t),
      handle s (startGame u1 u2 u3 u4) = (s', Ok tt)
      /\ board s' = [t1; t2]
      /\ TileData.id t1 = 1%nat /\ TileData.id t2 = 2%nat /\ idCounter s' = 3%nat
      /\ (TileData.value t1 = 2 \/ TileData.value t1 = 4)
      /\ (TileData.value t2 = 2 \/ TileData.value t2 = 4)
      /\ onGrid t1 /\ onGrid t2
      /\ (TileData.y t1, TileData.x t1) ≠ (TileData.y t2, TileData.x t2)
      /\ TileData.isNew t1 = false /\ TileData.isNew t2 = false
      /\ TileData.isMerged t1 = false /\ TileData.isMerged t2 = false
      /\ score s' = 0 /\ isGameOver s' = false /\ isWin s' = false
      /\ bestScore s' = bestScore s /\ stored s' = stored s.
Proof.
  intros s u1 u2 u3 u4 Hu1 Hu3.
  destruct (createInitialBoard_grid u1 u2 u3 u4 Hu1 Hu3)
    as (r1 & c1 & r2 & c2 & Hin1 & Hin2 & Hne & Hwf & Hc & Hcells).
  cbv zeta in *.
  set (g := setCell (setCell (replicate TILE_COUNT (replicate TILE_COUNT 0)) r1 c1
                             (spawnValue u2)) r2 c2 (spawnValue u4)) in *.
  clearbody g.
  assert (Hmem : forall rc, rc ∈ tileCells g <-> rc ∈ [(r1, c1); (r2, c2)]).
  { intros [r c]. rewrite elem_of_tileCells by exact Hwf. rewrite Hcells.
    rewrite elem_of_cons, list_elem_of_singleton. split.
    - intros (v & Hv & Hnz).
      destruct (decide ((r2, c2) = (r, c))); [now right|].
      destruct (decide ((r1, c1) = (r, c))); [now left|].
      exfalso. destruct (cellAt _ r c) as [w|] eqn:E; [|discriminate].
      assert (Hs : is_Some (cellAt (replicate TILE_COUNT (replicate TILE_COUNT 0)) r c))
        by (rewrite E; eauto).
      apply cellAt_wf in Hs as [Hr Hc']; [|reflexivity].
      rewrite zero_grid_cellAt in E by assumption. congruence.
    - intros [[= -> ->]|[= -> ->]].
      + rewrite decide_False by congruence. rewrite decide_True by reflexivity.
        eexists. split; [reflexivity | apply spawnValue_nonzero].
      + rewrite decide_True by reflexivity.
        eexists. split; [reflexivity | apply spawnValue_nonzero]. }
  assert (Hperm : tileCells g ≡ₚ [(r1, c1); (r2, c2)]).
  { apply NoDup_Permutation; [apply tileCells_NoDup | | exact Hmem].
    apply NoDup_cons. split; [|apply NoDup_singleton].
    intros Hx%list_elem_of_singleton. congruence. }
  assert (Hlen : length (tileCells g) = 2%nat) by exact (Permutation_length Hperm).
  destruct (tileCells g) as [|rc1 [|rc2 [|? ?]]] eqn:Ecells; try discriminate Hlen.
  assert (H1 : rc1 ∈ [(r1, c1); (r2, c2)]) by (apply Hmem; left).
  assert (H2 : rc2 ∈ [(r1, c1); (r2, c2)]) by (apply Hmem; right; left).
  assert (Hrc : rc1 ≠ rc2).
  { pose proof (tileCells_NoDup g) as Hnd. rewrite Ecells in Hnd.
    apply NoDup_cons in Hnd as [Hnot _]. intros ->. apply Hnot. left. }
  assert (Hval : forall rc, rc ∈ [(r1, c1); (r2, c2)] ->
            inRange rc
            /\ (default 0 (cellAt g rc.1 rc.2) = 2 \/ default 0 (cellAt g rc.1 rc.2) = 4)).
  { intros rc [->|[->|[]%elem_of_nil]%elem_of_cons]%elem_of_cons; cbn [fst snd];
      rewrite Hcells.
    - split; [exact Hin1|]. rewrite decide_False by congruence.
      rewrite decide_True by reflexivity. apply spawnValue_2_or_4.
    - split; [exact Hin2|]. rewrite decide_True by reflexivity. apply spawnValue_2_or_4. }
  assert (Htiles : tilesOf g None None 1
                   = [tileAt g None None 1 rc1; tileAt g None None 2 rc2]).
  { unfold tilesOf. now rewrite Ecells. }
  rewrite Htiles in Hc. cbn [length Nat.add] in Hc.
  rewrite (startGame_outcome s u1 u2 u3 u4 _ _ Hc).
  destruct (Hval rc1 H1) as [Hr1 Hv1]. destruct (Hval rc2 H2) as [Hr2 Hv2].
  destruct rc1 as [y1 x1], rc2 as [y2 x2].
  eexists _, (tileAt g None None 1 (y1, x1)), (tileAt g None None 2 (y2, x2)).
  split; [reflexivity|]. unfold tileAt, onGrid.
  cbn [board idCounter score isGameOver isWin bestScore stored
       TileData.id TileData.value TileData.x TileData.y TileData.isNew TileData.isMerged
       fst snd].
  split; [reflexivity|]. split; [reflexivity|]. split; [reflexivity|].
  split; [reflexivity|]. split; [exact Hv1|]. split; [exact Hv2|].
  split; [exact Hr1|]. split; [exact Hr2|].
  split; [exact Hrc|].
  repeat (split; [reflexivity|]). reflexivity.
Qed.

Lemma startGame_two_tiles_witness :
  exists (s' : AppState) (t1 t2 : TileData.t),
    handle fullState (startGame (1 # 2) (1 # 2) (1 # 4) (19 # 20)) = (s', Ok tt)
    /\ board s' = [t1; t2] /\ score s' = 0 /\ bestScore s' = Int 40.
Proof.
  destruct (startGame_two_tiles fullState (1 # 2) (1 # 2) (1 # 4) (19 # 20))
    as (s' & t1 & t2 & Hs & Hb & _ & _ & _ & _ & _ & _ & _ & _ & _ & _ & _ & _
        & Hsc & _ & _ & Hbest & _).
  - reflexivity.
  - reflexivity.
  - exists s', t1, t2. split; [exact Hs|]. split; [exact Hb|]. split; [exact Hsc|].
    exact Hbest.
Defined.

(** ** [rotate] outside 4x4 grids, and the test of [moved] *)

Lemma result_mapM_length {A B} (f : A -> result B) (l : list A) (k : list B) :
  mapM f l = Ok k -> length k = length l.
Proof.
  revert k. induction l as [|x l IH]; intros k H.
  - now injection H as <-.
  - cbn in H. destruct (f x) as [y| |]; try discriminate. cbn in H.
    destruct (mapM f l) as [k'| |]; try discriminate. cbn in H.
    injection H as <-. cbn. f_equal. now apply IH.
Qed.

Lemma result_mapM_Forall {A B} (P : B -> Prop) (f : A -> result B) (l : list A)
    (k : list B) :
  (forall x y, f x = Ok y -> P y) -> mapM f l = Ok k -> Forall P k.
Proof.
  intros Hf. revert k. induction l as [|x l IH]; intros k H.
  - injection H as <-. constructor.
  - cbn in H. destruct (f x) as [y| |] eqn:E; try discriminate. cbn in H.
    destruct (mapM f l) as [k'| |]; try discriminate. cbn in H.
    injection H as <-. constructor; [now apply (Hf x) | now apply IH].
Qed.

Lemma rotateOnce_shape {A} (g g' : list (list (option A))) :
  rotateOnce g = Ok g' -> wf_grid g' = true.
Proof.
  intros H. unfold wf_grid. apply andb_true_intro. split.
  - apply Nat.eqb_eq. unfold rotateOnce in H. now apply result_mapM_length in H.
  - apply forallb_forall. intros row Hrow. apply Nat.eqb_eq.
    unfold rotateOnce in H.
    eapply (result_mapM_Forall (fun row => length row = TILE_COUNT)) in H.
    + rewrite Forall_forall in H. now apply H, list_elem_of_In.
    + intros r y Hy. now apply result_mapM_length in Hy.
Qed.

Lemma rotateOnce_short {A} (g : list (list (option A))) :
  (length g < TILE_COUNT)%nat -> rotateOnce g = Throw TypeError.
Proof.
  unfold TILE_COUNT. intros Hlen. unfold rotateOnce, TILE_COUNT. cbn [seq mapM].
  cbn [Nat.sub].
  assert (H : readCell g 3 0 = Throw TypeError)
    by (unfold readCell, readAt; now rewrite (lookup_ge_None_2 g 3) by lia).
  now rewrite H.
Qed.

Lemma rotate_add {A} (m n : nat) :
  forall g : list (list (option A)),
    rotate g (m + n) = (rotate g m ≫= fun g' => rotate g' n).
Proof.
  induction m as [|m IH]; intros g; [reflexivity|].
  cbn [Nat.add rotate]. destruct (rotateOnce g) as [g1| |]; [|reflexivity..].
  cbn [mbind result_bind]. apply IH.
Qed.

(** X21: [rotate] outside grids of 4 rows of 4 cells.  With a count above 0,
    [rotate] throws a TypeError on every array of fewer than 4 rows, at
    its first read; when it returns, what it returns has 4 rows of 4
    cells, whatever it was given.  With the count 0 it returns its
    argument, whatever it is. *)
Theorem rotate_bounds :
  forall (A : Type) (g : list (list (option A))) (times : nat),
    rotate g 0 = Ok g
    /\ ((length g < TILE_COUNT)%nat -> (0 < times)%nat -> rotate g times = Throw TypeError)
    /\ (forall g', (0 < times)%nat -> rotate g times = Ok g' -> wf_grid g' = true).
Proof.
  intros A g times. split; [reflexivity|]. split.
  - intros Hlen Ht. destruct times as [|t]; [lia|].
    cbn [rotate]. now rewrite rotateOnce_short.
  - intros g' Ht H. destruct times as [|t]; [lia|].
    cbn [rotate] in H. destruct (rotateOnce g) as [g1| |] eqn:E; try discriminate.
    cbn [mbind result_bind] in H. apply rotateOnce_shape in E.
    rewrite rotate_wf in H by exact E. injection H as <-.
    now apply iter_quarterTurn_wf.
Qed.

Lemma rotate_bounds_witness :
  rotate [[Some 1; Some 2]; [Some 3; Some 4]; [Some 5; Some 6]] 2 = Throw TypeError.
Proof.
  apply (rotate_bounds Z [[Some 1; Some 2]; [Some 3; Some 4]; [Some 5; Some 6]] 2).
  - unfold TILE_COUNT. cbn. lia.
  - lia.
Defined.

(** X22: [rotate] composes and has period 4.  Rotating by [m + n] is rotating
    by [m] and then by [n], for every array; on a grid of 4 rows of 4
    cells four more turns change nothing. *)
Theorem rotate_composes :
  forall (A : Type) (g : list (list (option A))) (m n : nat),
    rotate g (m + n) = (rotate g m ≫= fun g' => rotate g' n)
    /\ (wf_grid g = true -> rotate g (n + 4) = rotate g n).
Proof.
  intros A g m n. split; [apply rotate_add|].
  intros Hwf. rewrite !rotate_wf by exact Hwf. f_equal.
  rewrite Nat.add_comm. cbn [Nat.add]. rewrite !Nat.iter_succ_r.
  now rewrite quarterTurn_four.
Qed.

Lemma rotate_composes_witness :
  rotate (toAny [[2; 0; 0; 4]; [0; 8; 0; 0]; [0; 0; 16; 0]; [32; 0; 0; 64]]) (1 + 4)
  = rotate (toAny [[2; 0; 0; 4]; [0; 8; 0; 0]; [0; 0; 16; 0]; [32; 0; 0; 64]]) 1.
Proof.
  exact (proj2 (rotate_composes Z
                  (toAny [[2; 0; 0; 4]; [0; 8; 0; 0]; [0; 0; 16; 0]; [32; 0; 0; 64]])
                  0 1) eq_refl).
Defined.

(** X23: the test that sets [moved] is exact.  For two rows of the same
    length the strings [join(',')] makes of them are equal exactly when the
    rows are equal: a changed row is never missed and an unchanged row is
    never taken for a changed one. *)
Theorem moved_test_exact :
  forall l1 l2 : list Z,
    length l1 = length l2 ->
    (String.eqb (join l1) (join l2) = true <-> l1 = l2).
Proof.
  intros l1 l2 Hlen. rewrite join_eqb by exact Hlen. apply bool_decide_eq_true.
Qed.

Lemma moved_test_exact_witness :
  String.eqb (join [1; 23; 0; 0]) (join [12; 3; 0; 0]) = true
  <-> [1; 23; 0; 0] = [12; 3; 0; 0].
Proof. apply (moved_test_exact [1; 23; 0; 0] [12; 3; 0; 0]). reflexivity. Defined.

(** ** [handleTouchEnd] *)

Lemma Qle_bool_false (a b : Q) : Qle_bool a b = false <-> (b < a)%Q.
Proof.
  split.
  - intros H. apply Qnot_le_lt. intros Hle. apply Qle_bool_iff in Hle. congruence.
  - intros H. destruct (Qle_bool a b) eqn:E; [|reflexivity].
    apply Qle_bool_iff in E. exfalso. exact (Qlt_not_le _ _ H E).
Qed.

Lemma Qle_bool_opp_pos (x : Q) :
  ~ x == 0 -> Qle_bool (- x) 0 = negb (Qle_bool x 0).
Proof.
  intros Hx. destruct (Qle_bool x 0) eqn:E; cbn [negb].
  - apply Qle_bool_iff in E. apply Qle_bool_false.
    destruct (Qlt_le_dec x 0) as [Hlt|Hge].
    + rewrite <- (Qopp_involutive x) in Hlt. change 0%Q with (- 0)%Q in Hlt.
      apply Qopp_lt_compat in Hlt. now rewrite !Qopp_involutive in Hlt.
    + exfalso. apply Hx. now apply Qle_antisym.
  - apply Qle_bool_false in E. apply Qle_bool_iff.
    apply Qlt_le_weak in E. change 0%Q with (- 0)%Q. now apply Qopp_le_compat.
Qed.

Lemma Qle_bool_proper (a a' b b' : Q) :
  a == a' -> b == b' -> Qle_bool a b = Qle_bool a' b'.
Proof.
  intros Ha Hb. destruct (Qle_bool a b) eqn:E, (Qle_bool a' b') eqn:E'; try reflexivity.
  - apply Qle_bool_iff in E. rewrite Ha, Hb in E. apply Qle_bool_iff in E. congruence.
  - apply Qle_bool_iff in E'. rewrite <- Ha, <- Hb in E'. apply Qle_bool_iff in E'.
    congruence.
Qed.

(** X25: the direction of a swipe.  [handleTouchEnd] calls [move] exactly
    when the swipe is longer than 30 in one of the two axes; the direction
    is horizontal exactly when the horizontal part is strictly the longer
    one; and the opposite swipe gives the opposite direction. *)
Theorem swipe_direction :
  forall dx dy : Q,
    (swipeDirection dx dy = None <-> (Qabs dx <= 30)%Q /\ (Qabs dy <= 30)%Q)
    /\ (forall d, swipeDirection dx dy = Some d ->
          (d = left \/ d = right <-> (Qabs dy < Qabs dx)%Q))
    /\ swipeDirection (- dx) (- dy) = opposite <$> swipeDirection dx dy.
Proof.
  intros dx dy. split; [|split].
  - unfold swipeDirection. cbv zeta.
    destruct (Qle_bool (Qabs dx) (Qabs dy)) eqn:E.
    + apply Qle_bool_iff in E.
      destruct (Qle_bool (Qabs dy) 30) eqn:E'; cbn [negb].
      * apply Qle_bool_iff in E'. split; [intros _|reflexivity].
        split; [now apply (Qle_trans _ (Qabs dy)) | exact E'].
      * split; [discriminate|]. intros [_ H]. apply Qle_bool_iff in H. congruence.
    + destruct (Qle_bool (Qabs dx) 30) eqn:E'; cbn [negb].
      * apply Qle_bool_iff in E'. apply Qle_bool_false in E.
        split; [intros _|reflexivity].
        split; [exact E'|]. apply Qlt_le_weak. now apply (Qlt_le_trans _ (Qabs dx)).
      * split; [discriminate|]. intros [H _]. apply Qle_bool_iff in H. congruence.
  - intros d. unfold swipeDirection. cbv zeta.
    destruct (negb (Qle_bool (if Qle_bool (Qabs dx) (Qabs dy) then _ else _) 30));
      [|discriminate].
    destruct (Qle_bool (Qabs dx) (Qabs dy)) eqn:E; cbn [negb]; intros [= <-].
    + apply Qle_bool_iff in E. split.
      * destruct (Qle_bool dy 0); cbn; intros [?|?]; discriminate.
      * intros H. exfalso. exact (Qlt_not_le _ _ H E).
    + apply Qle_bool_false in E. split; [intros _; exact E|].
      intros _. destruct (Qle_bool dx 0); cbn; auto.
  - unfold swipeDirection. cbv zeta.
    rewrite (Qle_bool_proper (Qabs (- dx)) (Qabs dx) (Qabs (- dy)) (Qabs dy))
      by apply Qabs_opp.
    destruct (Qle_bool (Qabs dx) (Qabs dy)) eqn:E.
    + rewrite (Qle_bool_proper (Qabs (- dy)) (Qabs dy) 30 30)
        by (apply Qabs_opp || reflexivity).
      destruct (Qle_bool (Qabs dy) 30) eqn:E'; cbn [negb]; [reflexivity|].
      cbn [fmap option_fmap option_map]. f_equal.
      assert (Hdy : ~ dy == 0).
      { intros H0. apply Qle_bool_false in E'.
        rewrite (Qabs_wd _ _ H0) in E'. now cbn in E'. }
      rewrite (Qle_bool_opp_pos dy Hdy). now destruct (Qle_bool dy 0).
    + rewrite (Qle_bool_proper (Qabs (- dx)) (Qabs dx) 30 30)
        by (apply Qabs_opp || reflexivity).
      destruct (Qle_bool (Qabs dx) 30) eqn:E'; cbn [negb]; [reflexivity|].
      cbn [fmap option_fmap option_map]. f_equal.
      assert (Hdx : ~ dx == 0).
      { intros H0. apply Qle_bool_false in E'.
        rewrite (Qabs_wd _ _ H0) in E'. now cbn in E'. }
      rewrite (Qle_bool_opp_pos dx Hdx). now destruct (Qle_bool dx 0).
Qed.

(** ** The score, and examples of a game in play *)

Lemma sumZ_nonneg (l : list Z) : Forall (fun x => 0 <= x) l -> 0 <= sumZ l.
Proof. unfold sumZ. induction 1; cbn [foldr]; lia. Qed.

Lemma powerOfTwo_pos (v : Z) : powerOfTwo v -> 0 < v.
Proof. intros (k & Hk & ->). now apply Z.pow_pos_nonneg. Qed.

(** X26: the score never goes down.  In a game in play the score after a
    move is at least the score before it. *)
Theorem score_never_decreases :
  forall (s : AppState) (d : Direction) (u1 u2 : Q) (g : Grid),
    inPlay s g ->
    isDouble01 u1 = true ->
    score s <= score (handle s (move s d u1 u2)).1.
Proof.
  intros s d u1 u2 g (Hb & Hwf & Hpow & _ & _) Hu1.
  pose proof (move_cases s d u1 u2 g Hb Hwf Hu1) as H.
  destruct H as [Hg|v ms Hg Hd Hms|Hg Hms Hfix|r0 c0 lost Hg Hd Hne Hl Hlost]; cbn [fst snd];
    try reflexivity.
  unfold movedState, commit, spawned. cbv zeta. cbn [score default pendingScore].
  unfold id.
  rewrite slideLocals_score by now apply iter_quarterTurn_wf.
  enough (0 <= sumZ (allMerges (Nat.iter (rotations d) quarterTurn g))) by lia.
  apply sumZ_nonneg, Forall_forall. intros v Hv.
  apply allMerges_elem in Hv as (a & Ha & ->).
  apply (iter_quarterTurn_elem (rotations d) g a Hwf) in Ha.
  destruct (Hpow a Ha) as [->|Hp]; [lia|]. apply powerOfTwo_pos in Hp. lia.
Qed.

Ltac cells_in_play :=
  intros v Hv; repeat (apply elem_of_cons in Hv as [->|Hv]);
  try (now apply elem_of_nil in Hv);
  first [ now left
        | right; exists 1; split; [lia | reflexivity]
        | right; exists 2; split; [lia | reflexivity]
        | right; exists 10; split; [lia | reflexivity] ].

Ltac cells_below_2048 :=
  intros v Hv Hle; exfalso; repeat (apply elem_of_cons in Hv as [->|Hv]);
  try (now apply elem_of_nil in Hv); lia.

Lemma score_never_decreases_witness :
  score changing_state
  <= score (handle changing_state (move changing_state left (1 # 2) (1 # 2))).1.
Proof.
  apply (score_never_decreases changing_state left (1 # 2) (1 # 2)
           [[2; 2; 4; 4]; [0; 0; 0; 0]; [0; 0; 0; 0]; [0; 0; 0; 0]]).
  - split; [vm_compute; reflexivity|]. split; [reflexivity|].
    split; [cells_in_play|]. split; [cells_below_2048|].
    intros H. discriminate H.
  - reflexivity.
Defined.

Lemma move_inPlay_witness :
  exists g', inPlay (handle changing_state (move changing_state left (1 # 2) (1 # 2))).1 g'.
Proof.
  apply (move_inPlay changing_state left (1 # 2) (1 # 2)
           [[2; 2; 4; 4]; [0; 0; 0; 0]; [0; 0; 0; 0]; [0; 0; 0; 0]]).
  - split; [vm_compute; reflexivity|]. split; [reflexivity|].
    split; [cells_in_play|]. split; [cells_below_2048|].
    intros H. discriminate H.
  - reflexivity.
Defined.

Lemma win_flag_in_play_witness :
  isWin (handle two_1024 (move two_1024 left (1 # 2) (1 # 2))).1 = true.
Proof.
  apply (win_flag_in_play two_1024 left (1 # 2) (1 # 2)
           [[1024; 1024; 0; 0]; [0; 0; 0; 0]; [0; 0; 0; 0]; [0; 0; 0; 0]] 2048).
  - split; [vm_compute; reflexivity|]. split; [reflexivity|].
    split; [cells_in_play|]. split; [cells_below_2048|].
    intros H. discriminate H.
  - vm_compute. left.
  - lia.
Defined.

Lemma win_flag_set_by_merge_witness :
  isWin column_1024 = false
  /\ isWin (handle column_1024 (move column_1024 up (1 # 2) (1 # 2))).1 = true.
Proof.
  split; [reflexivity|].
  apply (win_flag_set_by_merge column_1024 up (1 # 2) (1 # 2)
           [[1024; 0; 0; 0]; [1024; 0; 0; 0]; [0; 0; 0; 0]; [0; 0; 0; 0]]).
  - split; [vm_compute; reflexivity|]. split; [reflexivity|].
    split; [cells_in_play|]. split; [cells_below_2048|].
    intros H. discriminate H.
  - vm_compute. left.
Defined.


Lemma startGame_inPlay_witness :
  exists s' g,
    handle fullState (startGame (1 # 2) (1 # 2) (1 # 4) (19 # 20)) = (s', Ok tt)
    /\ inPlay s' g.
Proof.
  destruct (startGame_inPlay fullState (1 # 2) (1 # 2) (1 # 4) (19 # 20))
    as (s' & g & Hs & Hin & _).
  - reflexivity.
  - reflexivity.
  - exists s', g. split; [exact Hs | exact Hin].
Defined.

Lemma NaN_bestScore_stays_witness :
  bestScore (handle nan_state (move nan_state left (1 # 2) (1 # 2))).1 = NaN
  /\ stored (handle nan_state (move nan_state left (1 # 2) (1 # 2))).1 = Some "abc".
Proof.
  apply (NaN_bestScore_stays nan_state left (1 # 2) (1 # 2)
           [[2; 2; 0; 0]; [0; 0; 0; 0]; [0; 0; 0; 0]; [0; 0; 0; 0]]).
  - vm_compute. reflexivity.
  - reflexivity.
  - reflexivity.
Defined.

(** ** The sum of the tiles, the two versions, the flags *)

Lemma sumZ_tileValues (row : list Z) : sumZ (tileValues (mergePairs row)) = sumZ row.
Proof.
  unfold tileValues, sumZ.
  induction row as [|a|a b rest IH1 IH2] using pairs_ind; [reflexivity..|].
  rewrite mergePairs_cons2. destruct (Z.eqb_spec a b) as [->|Hab]; cbn in *; lia.
Qed.

Lemma sumZ_compact (cells : list Z) : sumZ (compact cells) = sumZ cells.
Proof.
  unfold compact, sumZ. induction cells as [|a cells IH]; [reflexivity|].
  rewrite filter_cons. destruct (decide (a ≠ 0)) as [Ha|Ha%dec_stable]; cbn; lia.
Qed.

Lemma sumZ_replicate_0 (k : nat) : sumZ (replicate k 0) = 0.
Proof. unfold sumZ. induction k; cbn; lia. Qed.

Lemma sumZ_slideSpec (cells : list Z) : sumZ (slideSpec cells) = sumZ cells.
Proof.
  unfold slideSpec. cbv zeta.
  now rewrite sumZ_app, sumZ_replicate_0, sumZ_tileValues, sumZ_compact, Z.add_0_r.
Qed.

Lemma gridSum_map_slideSpec (g : Grid) : gridSum (map slideSpec g) = gridSum g.
Proof.
  unfold gridSum. induction g as [|row g IH]; [reflexivity|].
  cbn [map concat]. now rewrite !sumZ_app, sumZ_slideSpec, IH.
Qed.

Lemma gridSum_quarterTurn (g : Grid) :
  wf_grid g = true -> gridSum (quarterTurn g) = gridSum g.
Proof.
  intros (a0&a1&a2&a3&b0&b1&b2&b3&c0&c1&c2&c3&d0&d1&d2&d3&->)%wf_grid_shape.
  unfold gridSum, sumZ. cbn. lia.
Qed.

Lemma gridSum_iter_quarterTurn (n : nat) (g : Grid) :
  wf_grid g = true -> gridSum (Nat.iter n quarterTurn g) = gridSum g.
Proof.
  intros Hwf. induction n as [|n IH]; [reflexivity|].
  rewrite Nat.iter_succ, gridSum_quarterTurn by now apply iter_quarterTurn_wf.
  exact IH.
Qed.

Lemma gridSum_slideGrid (d : Direction) (g : Grid) :
  wf_grid g = true -> gridSum (slideGrid d g) = gridSum g.
Proof.
  intros Hwf. unfold slideGrid. cbv zeta.
  rewrite gridSum_iter_quarterTurn
    by (apply wf_map_slideSpec; now apply iter_quarterTurn_wf).
  rewrite gridSum_map_slideSpec. now apply gridSum_iter_quarterTurn.
Qed.

Lemma gridSum_setCell (g : Grid) (r c : nat) (v : Z) :
  wf_grid g = true -> cellAt g r c = Some 0 ->
  gridSum (setCell g r c v) = gridSum g + v.
Proof.
  intros Hwf H0.
  assert (Hs : is_Some (cellAt g r c)) by (rewrite H0; eauto).
  apply (proj1 (cellAt_wf g r c Hwf)) in Hs as [Hr Hc]. unfold TILE_COUNT in *.
  apply wf_grid_shape in Hwf
    as (a0&a1&a2&a3&b0&b1&b2&b3&c0&c1&c2&c3&d0&d1&d2&d3&->).
  destruct r as [|[|[|[|?]]]]; try lia; destruct c as [|[|[|[|?]]]]; try lia;
    cbn in H0; injection H0 as ->; unfold gridSum, sumZ; cbn; lia.
Qed.

(** X27: the slide keeps the sum of the tiles, and a move adds the new tile
    to it.  When the slide of [move] returns, the tiles of the grid it
    returns have the sum of the tiles of the grid it was given: a merge
    replaces two tiles by one of their sum.  After a move that changes the
    grid, the sum of the tiles of the board has grown by the value of the
    new tile. *)
Theorem moves_keep_the_sum :
  forall (s : AppState) (d : Direction) (u1 u2 : Q) (g : Grid) (p1 : Pending)
         (g1 : Grid) (loc : Locals),
    getGrid (board s) = Ok g ->
    wf_grid g = true ->
    isDouble01 u1 = true ->
    slide d g noPending = (p1, Ok (g1, loc)) ->
    gridSum g1 = gridSum g
    /\ (isGameOver s && negb (isWin s) = false -> g1 ≠ g ->
        exists g', getGrid (board (handle s (move s d u1 u2)).1) = Ok g'
                   /\ gridSum g' = gridSum g + spawnValue u2).
Proof.
  intros s d u1 u2 g p1 g1 loc Hb Hwf Hu1 Hs.
  destruct (slide_returns d g _ _ _ _ Hwf Hs) as (_ & Hg1 & _ & _).
  assert (Hwf1 : wf_grid g1 = true) by (rewrite Hg1; now apply slideGrid_wf).
  assert (Hsum : gridSum g1 = gridSum g) by (rewrite Hg1; now apply gridSum_slideGrid).
  split; [exact Hsum|]. intros Hg Hne.
  destruct (changed_outcome s d u1 u2 g p1 g1 loc Hb Hwf Hg Hu1 Hs Hne)
    as (r & c & lost & H0 & ->).
  exists (setCell g1 r c (spawnValue u2)). cbn [fst]. rewrite board_movedState.
  split; [apply getGrid_tilesOf; now apply setCell_wf|].
  rewrite gridSum_setCell by assumption. now rewrite Hsum.
Qed.

Lemma moves_keep_the_sum_witness :
  gridSum [[4; 8; 0; 0]; [0; 0; 0; 0]; [0; 0; 0; 0]; [0; 0; 0; 0]]
  = gridSum [[2; 2; 4; 4]; [0; 0; 0; 0]; [0; 0; 0; 0]; [0; 0; 0; 0]].
Proof.
  refine (proj1 (moves_keep_the_sum changing_state left (1 # 2) (1 # 2)
                   [[2; 2; 4; 4]; [0; 0; 0; 0]; [0; 0; 0; 0]; [0; 0; 0; 0]]
                   (mkPending None None None None None None [4; 8] None)
                   [[4; 8; 0; 0]; [0; 0; 0; 0]; [0; 0; 0; 0]; [0; 0; 0; 0]]
                   (mkLocals 12 true
                      {[ (Some 0%nat, Some 0%nat); (Some 0%nat, Some 1%nat) ]})
                   _ _ _ _)).
  - vm_compute. reflexivity.
  - reflexivity.
  - reflexivity.
  - vm_compute. reflexivity.
Defined.

(** X28: the later version refines the earlier one.  Whenever the slide of
    the later [move] returns, the slide of the earlier version returns the
    same grid, the same score to add and the same [moved], with the same
    merges. *)
Theorem slide_refines_slideV1 :
  forall (d : Direction) (g : Grid) (p p1 : Pending) (g1 : Grid) (loc : Locals),
    wf_grid g = true ->
    slide d g p = (p1, Ok (g1, loc)) ->
    slideV1 d g p = (p1, Ok (g1, (scoreToAdd loc, moved loc))).
Proof.
  intros d g p p1 g1 loc Hwf Hs.
  destruct (slide_returns d g _ _ _ _ Hwf Hs) as (-> & -> & -> & _).
  assert (Hwt : wf_grid (Nat.iter (rotations d) quarterTurn g) = true)
    by now apply iter_quarterTurn_wf.
  rewrite slideV1_spec by exact Hwf.
  rewrite slideLocals_score, slideLocals_moved by exact Hwt.
  do 5 f_equal. apply bool_decide_ext. now apply slideGrid_fixed.
Qed.

Lemma slide_refines_slideV1_witness :
  slideV1 left [[2; 2; 4; 4]; [0; 0; 0; 0]; [0; 0; 0; 0]; [0; 0; 0; 0]] noPending
  = (mkPending None None None None None None [4; 8] None,
     Ok ([[4; 8; 0; 0]; [0; 0; 0; 0]; [0; 0; 0; 0]; [0; 0; 0; 0]], (12, true))).
Proof.
  apply (slide_refines_slideV1 left
           [[2; 2; 4; 4]; [0; 0; 0; 0]; [0; 0; 0; 0]; [0; 0; 0; 0]] noPending
           (mkPending None None None None None None [4; 8] None)
           [[4; 8; 0; 0]; [0; 0; 0; 0]; [0; 0; 0; 0]; [0; 0; 0; 0]]
           (mkLocals 12 true {[ (Some 0%nat, Some 0%nat); (Some 0%nat, Some 1%nat) ]})).
  - reflexivity.
  - vm_compute. reflexivity.
Defined.

(** X29: [move] never clears a flag.  A win flag that is set is set after
    every move, and so is the game-over flag; only [startGame] clears
    them. *)
Theorem flags_are_sticky :
  forall (s : AppState) (d : Direction) (u1 u2 : Q) (g : Grid),
    getGrid (board s) = Ok g ->
    wf_grid g = true ->
    isDouble01 u1 = true ->
    let s' := (handle s (move s d u1 u2)).1 in
    (isWin s = true -> isWin s' = true)
    /\ (isGameOver s = true -> isGameOver s' = true).
Proof.
  intros s d u1 u2 g Hb Hwf Hu1. cbv zeta.
  pose proof (move_cases s d u1 u2 g Hb Hwf Hu1) as H.
  destruct H as [Hg|v ms Hg Hd Hms|Hg Hms Hfix|r0 c0 lost Hg Hd Hne Hl Hlost]; cbn [fst snd].
  - split; auto.
  - split; [|auto]. cbn. intros ->. now destruct (bool_decide _).
  - split; auto.
  - unfold movedState, commit, spawned. cbv zeta. cbn [isWin isGameOver]. split.
    + cbn. intros ->. now destruct (bool_decide _).
    + cbn. intros ->. now destruct lost.
Qed.

Lemma flags_are_sticky_witness :
  isWin won_and_lost = true
  /\ isGameOver won_and_lost = true
  /\ isWin (handle won_and_lost (move won_and_lost left (1 # 2) (1 # 2))).1 = true
  /\ isGameOver (handle won_and_lost (move won_and_lost left (1 # 2) (1 # 2))).1 = true.
Proof.
  destruct (flags_are_sticky won_and_lost left (1 # 2) (1 # 2)
              [[2048; 4; 2; 4]; [4; 2; 4; 2]; [2; 4; 2; 4]; [4; 2; 4; 2]])
    as [Hwin Hover].
  - vm_compute. reflexivity.
  - reflexivity.
  - reflexivity.
  - split; [reflexivity|]. split; [reflexivity|].
    split; [apply Hwin | apply Hover]; reflexivity.
Defined.

(** X30: a full grid gets no tile.  On a grid of 4 rows of 4 cells without
    an empty cell [addRandomTile] returns the grid as it is, whatever the
    random numbers, and [findNewTilePos] then finds no new tile. *)
Theorem addRandomTile_full_grid :
  forall (g : Grid) (u1 u2 : Q),
    wf_grid g = true ->
    (forall r c, cellAt g r c ≠ Some 0) ->
    addRandomTile u1 u2 g = Ok g /\ findNewTilePos g g = Ok None.
Proof.
  intros g u1 u2 Hwf Hfull. split; [|now apply findNewTilePos_same].
  apply addRandomTile_full; [exact Hwf|].
  destruct (emptyCells g) as [|[r c] l] eqn:E; [reflexivity|].
  assert (Hin : (r, c) ∈ emptyCells g) by (rewrite E; left).
  apply emptyCells_elem in Hin; [|exact Hwf]. now destruct (Hfull r c).
Qed.

Lemma addRandomTile_full_grid_witness :
  addRandomTile (1 # 2) (1 # 2) lost_example = Ok lost_example
  /\ findNewTilePos lost_example lost_example = Ok None.
Proof.
  apply (addRandomTile_full_grid lost_example (1 # 2) (1 # 2) eq_refl).
  intros r c.
  destruct r as [|[|[|[|?]]]]; destruct c as [|[|[|[|?]]]]; discriminate.
Defined.
